(** * nacs-spcm: the command-driven stream engine ([Stream.h], [Stream.cpp])

    A shallow embedding of the command record, the per-channel state table,
    the active-ramp tracker, the start/end trigger bookkeeping and the
    per-step state machine [StreamBase::step] with its catch-up routine
    [StreamBase::consume_old_cmds].

    Conventions of the embedding.
    - Fixed-width integers are [Z] with the wrap-around written out
      ([u32], [u64], [i32], [i64]).
    - [Cmd::len] is a binary32 float holding a ramp length in steps.  It is
      embedded as an integer: for integer-valued lengths and times below
      2^24 the float expressions [cmd->t + len > m_cur_t] and
      [i < cmd->len + 1] are exact, and that is the range covered here.
    - The command pipe seen by the reader ([get_cmd], [cmd_next]) is the list
      of commands not yet consumed; the head is the command [get_cmd]
      returns.
    - Undefined behaviour of the C++ code (array access outside the state
      table or a value table, calling a generator through the wrong
      signature, dereferencing the null command) is the explicit outcome
      [Fault].
    - The [int32_t] arithmetic on ramp values ([vals[t + 1] - vals[t]] in
      [eval], the sum stored by catch-up consumption) is written with the
      wrap-around as well.  Signed overflow is undefined in C++: the
      statements about these values are for values where none occurs.
    - An active ramp keeps its command by value; in the source it keeps a
      pointer into the command pipe.
    - Where the source does not compile as written (a few misspelt
      identifiers), the embedding follows the evident reading and says so
      at the place. *)

From Stdlib Require Import ZArith List Bool Lia.
Import ListNotations.
Local Open Scope Z_scope.

(** ** Machine integers *)

Definition u32 (x : Z) : Z := x mod 2 ^ 32.
Definition u64 (x : Z) : Z := x mod 2 ^ 64.
Definition i32 (x : Z) : Z := (x + 2 ^ 31) mod 2 ^ 32 - 2 ^ 31.
Definition i64 (x : Z) : Z := (x + 2 ^ 63) mod 2 ^ 64 - 2 ^ 63.

(** ** Outcomes: a value, or undefined behaviour / exhausted fuel *)

Inductive fault : Type :=
| OutOfBounds   (* index outside an array or vector *)
| BadCall       (* generator called through the wrong signature *)
| NullDeref     (* [cmd->...] on a null command *)
| OutOfFuel.    (* the bound on the [retry] loop was too small *)

Inductive result (A : Type) : Type :=
| Ok (a : A)
| Fault (e : fault).
Arguments Ok {A} a.
Arguments Fault {A} e.

Definition bind {A B : Type} (m : result A) (k : A -> result B) : result B :=
  match m with
  | Ok a => k a
  | Fault e => Fault e
  end.

Declare Scope result_scope.
Delimit Scope result_scope with result.
Notation "x <- m ;; k" := (bind m (fun x => k))
  (at level 61, m at next level, right associativity) : result_scope.
Notation "' p <- m ;; k" := (bind m (fun x => match x with p => k end))
  (at level 61, p pattern, m at next level, right associativity) : result_scope.
Local Open Scope result_scope.

(** Arrays indexed by an unsigned integer. *)
Definition in_range {A : Type} (l : list A) (i : Z) : bool :=
  (0 <=? i) && (i <? Z.of_nat (length l)).

Definition get {A : Type} (l : list A) (i : Z) : result A :=
  if in_range l i then
    match nth_error l (Z.to_nat i) with
    | Some a => Ok a
    | None => Fault OutOfBounds
    end
  else Fault OutOfBounds.

Fixpoint set_nth {A : Type} (l : list A) (n : nat) (a : A) : list A :=
  match l, n with
  | [], _ => []
  | _ :: l', O => a :: l'
  | x :: l', S n' => x :: set_nth l' n' a
  end.

Definition set {A : Type} (l : list A) (i : Z) (a : A) : result (list A) :=
  if in_range l i then Ok (set_nth l (Z.to_nat i) a)
  else Fault OutOfBounds.

(** ** Commands ([Stream.h]) *)

Inductive CmdType : Type :=
| Meta | AmpSet | AmpFn | AmpVecFn | FreqSet | FreqFn | FreqVecFn | ModChn | Phase.

Inductive CmdMeta : Type :=
| Reset | ResetAll | TriggerEnd | TriggerStart.

Definition CmdType_code (c : CmdType) : Z :=
  match c with
  | Meta => 0 | AmpSet => 1 | AmpFn => 2 | AmpVecFn => 3 | FreqSet => 4
  | FreqFn => 5 | FreqVecFn => 6 | ModChn => 7 | Phase => 8
  end.

Definition CmdMeta_code (m : CmdMeta) : Z :=
  match m with
  | Reset => 0 | ResetAll => 1 | TriggerEnd => 2 | TriggerStart => 3
  end.

(** [(CmdType)_op]: the 4-bit field holds 0..15, the enumeration names 0..8. *)
Definition CmdType_of (code : Z) : option CmdType :=
  match code with
  | 0 => Some Meta | 1 => Some AmpSet | 2 => Some AmpFn | 3 => Some AmpVecFn
  | 4 => Some FreqSet | 5 => Some FreqFn | 6 => Some FreqVecFn
  | 7 => Some ModChn | 8 => Some Phase
  | _ => None
  end.

(** The generator handle [fnptr], an untyped function pointer.  The code
    casts it to a function from [uint32_t] to [int32_t] for scalar ramps
    and to a function from [std::vector<uint32_t>] to
    [std::vector<int32_t>] for vector ramps. *)
Inductive FnPtr : Type :=
| NullFn
| ScalarFn (f : Z -> Z)
| VectorFn (f : list Z -> list Z).

Definition op_bits : Z := 4.
Definition chn_bits : Z := 32 - op_bits.

Module Cmd.
Record T : Type := mk {
  t : Z;            (* uint32_t t *)
  _op : Z;          (* uint8_t _op:op_bits *)
  chn : Z;          (* uint32_t chn:chn_bits *)
  final_val : Z;    (* int32_t final_val *)
  len : Z;          (* float len = 0 *)
  fnptr : FnPtr     (* function pointer, nullptr by default *)
}.

Definition add_chn : Z := Z.shiftl 1 chn_bits - 1.

Definition op (c : T) : option CmdType := CmdType_of (_op c).

(** Writing a value into a bit-field keeps its low bits. *)
Definition field (bits v : Z) : Z := v mod 2 ^ bits.

Definition getReset (t : Z) : T :=
  mk t (CmdType_code Meta) (CmdMeta_code Reset) 0 0 NullFn.
Definition getResetAll (t : Z) : T :=
  mk t (CmdType_code Meta) (CmdMeta_code ResetAll) 0 0 NullFn.
Definition getTriggerEnd (t : Z) : T :=
  mk t (CmdType_code Meta) (CmdMeta_code TriggerEnd) 0 0 NullFn.
Definition getTriggerStart (t : Z) : T :=
  mk t (CmdType_code Meta) (CmdMeta_code TriggerStart) 0 0 NullFn.
Definition getAmpSet (t chn amp : Z) : T :=
  mk t (CmdType_code AmpSet) (field chn_bits chn) amp 0 NullFn.
Definition getFreqSet (t chn freq : Z) : T :=
  mk t (CmdType_code FreqSet) (field chn_bits chn) freq 0 NullFn.
Definition getPhase (t chn phase : Z) : T :=
  mk t (CmdType_code Phase) (field chn_bits chn) phase 0 NullFn.
Definition getAddChn (t : Z) : T :=
  mk t (CmdType_code ModChn) add_chn 0 0 NullFn.
Definition getDelChn (t chn : Z) : T :=
  mk t (CmdType_code ModChn) (field chn_bits chn) 0 0 NullFn.
Definition getAmpFn (t chn final_val len : Z) (fnptr : FnPtr) : T :=
  mk t (CmdType_code AmpFn) (field chn_bits chn) final_val len fnptr.
Definition getFreqFn (t chn final_val len : Z) (fnptr : FnPtr) : T :=
  mk t (CmdType_code FreqFn) (field chn_bits chn) final_val len fnptr.
(** As in the source, the two vector factories store the scalar opcodes. *)
Definition getAmpVecFn (t chn final_val len : Z) (fnptr : FnPtr) : T :=
  mk t (CmdType_code AmpFn) (field chn_bits chn) final_val len fnptr.
Definition getFreqVecFn (t chn final_val len : Z) (fnptr : FnPtr) : T :=
  mk t (CmdType_code FreqFn) (field chn_bits chn) final_val len fnptr.
End Cmd.

Definition is_op (c : Cmd.T) (o : CmdType) : bool :=
  Cmd._op c =? CmdType_code o.

Definition is_meta (c : Cmd.T) (m : CmdMeta) : bool :=
  Cmd.chn c =? CmdMeta_code m.

(** ** Channel state ([StreamBase::State]) *)

Module State.
Record T : Type := mk {
  phase : Z;   (* int64_t *)
  freq : Z;    (* int32_t *)
  amp : Z      (* int32_t *)
}.
Definition with_phase (v : Z) (s : T) : T := mk v (freq s) (amp s).
Definition with_freq (v : Z) (s : T) : T := mk (phase s) v (amp s).
Definition with_amp (v : Z) (s : T) : T := mk (phase s) (freq s) v.
End State.

(** ** Active ramps ([struct activeCmd]) *)

Record activeCmd : Type := mk_activeCmd {
  m_cmd : Cmd.T;
  vals : list Z
}.

Definition is_vec (c : Cmd.T) : bool := is_op c AmpVecFn || is_op c FreqVecFn.
Definition is_scalar (c : Cmd.T) : bool := is_op c AmpFn || is_op c FreqFn.
Definition is_amp_ramp (c : Cmd.T) : bool := is_op c AmpFn || is_op c AmpVecFn.
Definition is_freq_ramp (c : Cmd.T) : bool := is_op c FreqFn || is_op c FreqVecFn.

(** [for (uint32_t i = 0; i < (cmd->len + 1); i++) ts.push_back(i);] *)
Definition ramp_ts (len : Z) : list Z :=
  map Z.of_nat (seq 0 (Z.to_nat (len + 1))).

(** The constructor [activeCmd(Cmd* cmd)]: a vector ramp precomputes its
    table by one call of the generator; a scalar ramp starts empty. *)
Definition new_activeCmd (cmd : Cmd.T) : result activeCmd :=
  if is_vec cmd then
    match Cmd.fnptr cmd with
    | VectorFn f => Ok (mk_activeCmd cmd (f (ramp_ts (Cmd.len cmd))))
    | _ => Fault BadCall
    end
  else Ok (mk_activeCmd cmd []).

(** [while (vals.size() < (t + 2)) vals.push_back(fn(vals.size()));] *)
Definition grow_vals (f : Z -> Z) (vs : list Z) (bound : Z) : list Z :=
  vs ++ map (fun k => f (Z.of_nat k))
            (seq (length vs) (Z.to_nat bound - length vs)%nat).

(** [activeCmd::eval(uint32_t t)]: the value at relative step [t] and the
    increment to the next step; the scalar case extends the cache. *)
Definition eval (a : activeCmd) (t : Z) : result (activeCmd * (Z * Z)) :=
  if is_vec (m_cmd a) then
    v0 <- get (vals a) t ;;
    v1 <- get (vals a) (u32 (t + 1)) ;;
    Ok (a, (v0, i32 (v1 - v0)))
  else if is_scalar (m_cmd a) then
    match Cmd.fnptr (m_cmd a) with
    | ScalarFn f =>
        let a' := mk_activeCmd (m_cmd a) (grow_vals f (vals a) (u32 (t + 2))) in
        v0 <- get (vals a') t ;;
        v1 <- get (vals a') (u32 (t + 1)) ;;
        Ok (a', (v0, i32 (v1 - v0)))
    | _ => Fault BadCall
    end
  else Ok (a, (0, 0)).

(** ** The stream ([class StreamBase]) *)

Record Stream : Type := mk_Stream {
  m_slow_mode : bool;               (* std::atomic_bool, initially true *)
  m_end_trigger_pending : Z;        (* uint32_t *)
  m_end_trigger_waiting : Z;        (* uint32_t *)
  m_chns : Z;                       (* uint32_t *)
  m_cur_t : Z;                      (* uint32_t *)
  m_output_cnt : Z;                 (* uint64_t *)
  m_step_t : Z -> Z;                (* the map cnt |-> uint64_t(m_step_t * cnt) *)
  m_cmd_underflow : Z;              (* std::atomic<uint64_t> *)
  m_underflow : Z;                  (* std::atomic<uint64_t> *)
  active_cmds : list activeCmd;
  m_end_triggered : Z;              (* std::atomic<uint32_t> *)
  m_time_offset : Z;                (* std::atomic<int64_t> *)
  m_end_trigger : option Z;         (* std::atomic<int16_t*>, None is nullptr *)
  m_start_trigger : Z;              (* std::atomic<uint32_t> *)
  m_start_trigger_time : Z;         (* std::atomic<uint64_t> *)
  m_states : list State.T           (* State m_states[max_chns] *)
}.

Definition set_slow_mode (v : bool) (s : Stream) : Stream :=
  mk_Stream v (m_end_trigger_pending s) (m_end_trigger_waiting s) (m_chns s)
    (m_cur_t s) (m_output_cnt s) (m_step_t s) (m_cmd_underflow s)
    (m_underflow s) (active_cmds s) (m_end_triggered s) (m_time_offset s)
    (m_end_trigger s) (m_start_trigger s) (m_start_trigger_time s) (m_states s).

Definition set_end_trigger_pending (v : Z) (s : Stream) : Stream :=
  mk_Stream (m_slow_mode s) v (m_end_trigger_waiting s) (m_chns s)
    (m_cur_t s) (m_output_cnt s) (m_step_t s) (m_cmd_underflow s)
    (m_underflow s) (active_cmds s) (m_end_triggered s) (m_time_offset s)
    (m_end_trigger s) (m_start_trigger s) (m_start_trigger_time s) (m_states s).

Definition set_end_trigger_waiting (v : Z) (s : Stream) : Stream :=
  mk_Stream (m_slow_mode s) (m_end_trigger_pending s) v (m_chns s)
    (m_cur_t s) (m_output_cnt s) (m_step_t s) (m_cmd_underflow s)
    (m_underflow s) (active_cmds s) (m_end_triggered s) (m_time_offset s)
    (m_end_trigger s) (m_start_trigger s) (m_start_trigger_time s) (m_states s).

Definition set_chns (v : Z) (s : Stream) : Stream :=
  mk_Stream (m_slow_mode s) (m_end_trigger_pending s) (m_end_trigger_waiting s) v
    (m_cur_t s) (m_output_cnt s) (m_step_t s) (m_cmd_underflow s)
    (m_underflow s) (active_cmds s) (m_end_triggered s) (m_time_offset s)
    (m_end_trigger s) (m_start_trigger s) (m_start_trigger_time s) (m_states s).

Definition set_cur_t (v : Z) (s : Stream) : Stream :=
  mk_Stream (m_slow_mode s) (m_end_trigger_pending s) (m_end_trigger_waiting s)
    (m_chns s) v (m_output_cnt s) (m_step_t s) (m_cmd_underflow s)
    (m_underflow s) (active_cmds s) (m_end_triggered s) (m_time_offset s)
    (m_end_trigger s) (m_start_trigger s) (m_start_trigger_time s) (m_states s).

Definition set_cmd_underflow (v : Z) (s : Stream) : Stream :=
  mk_Stream (m_slow_mode s) (m_end_trigger_pending s) (m_end_trigger_waiting s)
    (m_chns s) (m_cur_t s) (m_output_cnt s) (m_step_t s) v
    (m_underflow s) (active_cmds s) (m_end_triggered s) (m_time_offset s)
    (m_end_trigger s) (m_start_trigger s) (m_start_trigger_time s) (m_states s).

Definition set_underflow (v : Z) (s : Stream) : Stream :=
  mk_Stream (m_slow_mode s) (m_end_trigger_pending s) (m_end_trigger_waiting s)
    (m_chns s) (m_cur_t s) (m_output_cnt s) (m_step_t s) (m_cmd_underflow s)
    v (active_cmds s) (m_end_triggered s) (m_time_offset s)
    (m_end_trigger s) (m_start_trigger s) (m_start_trigger_time s) (m_states s).

Definition set_active_cmds (v : list activeCmd) (s : Stream) : Stream :=
  mk_Stream (m_slow_mode s) (m_end_trigger_pending s) (m_end_trigger_waiting s)
    (m_chns s) (m_cur_t s) (m_output_cnt s) (m_step_t s) (m_cmd_underflow s)
    (m_underflow s) v (m_end_triggered s) (m_time_offset s)
    (m_end_trigger s) (m_start_trigger s) (m_start_trigger_time s) (m_states s).

Definition set_end_triggered (v : Z) (s : Stream) : Stream :=
  mk_Stream (m_slow_mode s) (m_end_trigger_pending s) (m_end_trigger_waiting s)
    (m_chns s) (m_cur_t s) (m_output_cnt s) (m_step_t s) (m_cmd_underflow s)
    (m_underflow s) (active_cmds s) v (m_time_offset s)
    (m_end_trigger s) (m_start_trigger s) (m_start_trigger_time s) (m_states s).

(** [set_end_trigger(int16_t *p)] *)
Definition set_end_trigger (p : option Z) (s : Stream) : Stream :=
  mk_Stream (m_slow_mode s) (m_end_trigger_pending s) (m_end_trigger_waiting s)
    (m_chns s) (m_cur_t s) (m_output_cnt s) (m_step_t s) (m_cmd_underflow s)
    (m_underflow s) (active_cmds s) (m_end_triggered s) (m_time_offset s)
    p (m_start_trigger s) (m_start_trigger_time s) (m_states s).

(** [set_start_trigger(uint32_t v, uint64_t t)] *)
Definition set_start_trigger (v t : Z) (s : Stream) : Stream :=
  mk_Stream (m_slow_mode s) (m_end_trigger_pending s) (m_end_trigger_waiting s)
    (m_chns s) (m_cur_t s) (m_output_cnt s) (m_step_t s) (m_cmd_underflow s)
    (m_underflow s) (active_cmds s) (m_end_triggered s) (m_time_offset s)
    (m_end_trigger s) v t (m_states s).

Definition set_states (v : list State.T) (s : Stream) : Stream :=
  mk_Stream (m_slow_mode s) (m_end_trigger_pending s) (m_end_trigger_waiting s)
    (m_chns s) (m_cur_t s) (m_output_cnt s) (m_step_t s) (m_cmd_underflow s)
    (m_underflow s) (active_cmds s) (m_end_triggered s) (m_time_offset s)
    (m_end_trigger s) (m_start_trigger s) (m_start_trigger_time s) v.

(** [end_trigger()] *)
Definition end_trigger (s : Stream) : option Z := m_end_trigger s.

(** [slow_mode()] and [end_triggered()] *)
Definition slow_mode (s : Stream) : bool := m_slow_mode s.
Definition end_triggered (s : Stream) : Z := m_end_triggered s.

(** Modelled from the spec: [time_offset()] is called by [check_start] but
    is not defined in the source; the spec's control surface has
    [set_time_offset(offset)] storing the "configurable time offset" that
    the start condition adds, so it is the load of [m_time_offset]. *)
Definition time_offset (s : Stream) : Z := m_time_offset s.

(** [clear_underflow()] *)
Definition clear_underflow (s : Stream) : Stream :=
  set_underflow 0 (set_cmd_underflow 0 s).

(** [states[i] = f(states[i])] *)
Definition upd_state (i : Z) (f : State.T -> State.T) (s : Stream)
  : result Stream :=
  st <- get (m_states s) i ;;
  sts <- set (m_states s) i (f st) ;;
  Ok (set_states sts s).

(** ** The command pipe as the reader sees it *)

(** [get_cmd()] *)
Definition get_cmd (q : list Cmd.T) : option Cmd.T := hd_error q.

(** [cmd_next()] *)
Definition cmd_next (q : list Cmd.T) : list Cmd.T := tl q.

(** [get_cmd_curt()] *)
Definition get_cmd_curt (q : list Cmd.T) (s : Stream) : option Cmd.T :=
  match get_cmd q with
  | Some cmd => if Cmd.t cmd <=? m_cur_t s then Some cmd else None
  | None => None
  end.

(** ** The start trigger ([StreamBase::check_start]) *)

Definition max_phase : Z := 6250000000.

(** [time_offset() + global_time]: [int64_t] plus [uint64_t], computed and
    compared as [uint64_t]. *)
Definition projected_time (s : Stream) : Z :=
  u64 (time_offset s + m_step_t s (m_output_cnt s)).

Definition check_start (t id : Z) (s : Stream) : bool * Stream :=
  let s := set_cur_t t s in
  if m_start_trigger s <? id then (false, set_slow_mode true s)
  else if projected_time s <? m_start_trigger_time s
       then (false, set_slow_mode true s)
       else (true, set_slow_mode false s).

(** ** Adding and removing channels

    The [ModChn] statements, written twice in the source with the same
    text: in the switch of [consume_old_cmds] and in the [ModChn] loop of
    [step]. *)
Definition mod_chn (cmd : Cmd.T) (s : Stream) : result Stream :=
  if Cmd.chn cmd =? Cmd.add_chn then
    sts <- set (m_states s) (m_chns s) (State.mk 0 0 0) ;;
    Ok (set_chns (u32 (m_chns s + 1)) (set_states sts s))
  else
    let s := set_chns (u32 (m_chns s - 1)) s in
    last <- get (m_states s) (m_chns s) ;;
    sts <- set (m_states s) (Cmd.chn cmd) last ;;
    Ok (set_states sts s).

(** ** Catch-up consumption ([StreamBase::consume_old_cmds]) *)

(** A ramp met in the backlog.  [len] in the source is [cmd->len].  The
    result is the value to store in the state field. *)
Definition old_ramp (cmd : Cmd.T) (s : Stream) : result (Stream * Z) :=
  if Cmd.t cmd + Cmd.len cmd >? m_cur_t s then
    a <- new_activeCmd cmd ;;
    '(a', (v, dv)) <- eval a (u32 (m_cur_t s - Cmd.t cmd)) ;;
    Ok (set_active_cmds (active_cmds s ++ [a']) s, i32 (v + dv))
  else Ok (s, Cmd.final_val cmd).

(** The body of the [switch]; the boolean is [false] when the function
    returns [nullptr] from inside the switch (start trigger not met). *)
Definition apply_old (cmd : Cmd.T) (s : Stream) : result (Stream * bool) :=
  match Cmd.op cmd with
  | Some Meta =>
      if is_meta cmd Reset then Ok (set_cur_t 0 s, true)
      else if is_meta cmd ResetAll then
        Ok (set_slow_mode false (set_chns 0 (set_cur_t 0 (clear_underflow s))),
            true)
      else if is_meta cmd TriggerEnd then
        Ok (set_end_trigger_pending (u32 (Cmd.final_val cmd)) s, true)
      else if is_meta cmd TriggerStart then
        Ok (snd (check_start (Cmd.t cmd) (u32 (Cmd.final_val cmd)) s),
            fst (check_start (Cmd.t cmd) (u32 (Cmd.final_val cmd)) s))
      else Ok (s, true)
  | Some AmpSet =>
      s' <- upd_state (Cmd.chn cmd) (State.with_amp (Cmd.final_val cmd)) s ;;
      Ok (s', true)
  | Some FreqSet =>
      s' <- upd_state (Cmd.chn cmd) (State.with_freq (Cmd.final_val cmd)) s ;;
      Ok (s', true)
  | Some AmpFn | Some AmpVecFn =>
      '(s1, v) <- old_ramp cmd s ;;
      s' <- upd_state (Cmd.chn cmd) (State.with_amp v) s1 ;;
      Ok (s', true)
  | Some FreqFn | Some FreqVecFn =>
      '(s1, v) <- old_ramp cmd s ;;
      s' <- upd_state (Cmd.chn cmd) (State.with_freq v) s1 ;;
      Ok (s', true)
  | Some Phase =>
      s' <- upd_state (Cmd.chn cmd) (State.with_phase (Cmd.final_val cmd)) s ;;
      Ok (s', true)
  | Some ModChn =>
      s' <- mod_chn cmd s ;;
      Ok (s', true)
  | None => Ok (s, true)
  end.

(** The [do ... while ((cmd = get_cmd()))] loop.  The result is the pipe,
    the stream and the returned command pointer. *)
Fixpoint consume_loop (q : list Cmd.T) (s : Stream)
  : result (list Cmd.T * Stream * option Cmd.T) :=
  match q with
  | [] => Ok ([], s, None)
  | cmd :: q' =>
      if Cmd.t cmd =? m_cur_t s then Ok (q, s, Some cmd)
      else if Cmd.t cmd >? m_cur_t s then Ok (q, s, None)
      else
        '(s', go) <- apply_old cmd s ;;
        if go : bool then consume_loop q' s' else Ok (q, s', None)
  end.

Definition consume_old_cmds (q : list Cmd.T) (s : Stream)
  : result (list Cmd.T * Stream * option Cmd.T) :=
  match get_cmd q with
  | None => Fault NullDeref
  | Some cmd =>
      let s := if Cmd.t cmd =? 0 then s
               else set_cmd_underflow (u64 (m_cmd_underflow s + 1)) s in
      consume_loop q s
  end.

(** ** The step ([StreamBase::step]) *)

(** The [while (cmd->op() == CmdType::ModChn)] loop; [q] starts with the
    current command. *)
Fixpoint modchn_loop (q : list Cmd.T) (s : Stream)
  : result (list Cmd.T * Stream * option Cmd.T) :=
  match q with
  | [] => Ok ([], s, None)
  | cmd :: q' =>
      if is_op cmd ModChn then
        s' <- mod_chn cmd s ;;
        match get_cmd_curt q' s' with
        | Some _ => modchn_loop q' s'
        | None => Ok (q', s', None)
        end
      else Ok (q, s, Some cmd)
  end.

(** From the label [retry] to the label [cmd_out].  [cmd_t] in the source is
    [cmd->t], and [cmd->i] is the trigger id [cmd->final_val], as in
    [consume_old_cmds].  Every [goto retry] follows a [cmd_next()], so a
    bound above the length of the pipe is never exhausted. *)
Fixpoint fetch (fuel : nat) (q : list Cmd.T) (s : Stream)
  : result (list Cmd.T * Stream * option Cmd.T) :=
  match fuel with
  | O => Fault OutOfFuel
  | S fuel' =>
      match get_cmd_curt q s with
      | None => Ok (q, s, None)
      | Some cmd0 =>
          '(q1, s1, ocmd) <-
             (if Cmd.t cmd0 <? m_cur_t s then consume_old_cmds q s
              else Ok (q, s, Some cmd0)) ;;
          match ocmd with
          | None => Ok (q1, s1, None)
          | Some cmd =>
              if Cmd.t cmd >? m_cur_t s1 then Ok (q1, s1, None)
              else if is_op cmd Meta then
                if is_meta cmd Reset then
                  fetch fuel' (cmd_next q1) (set_cur_t 0 s1)
                else if is_meta cmd ResetAll then
                  fetch fuel' (cmd_next q1)
                    (set_slow_mode false
                       (set_chns 0 (set_cur_t 0 (clear_underflow s1))))
                else if is_meta cmd TriggerEnd then
                  fetch fuel' (cmd_next q1)
                    (set_end_trigger_pending (u32 (Cmd.final_val cmd)) s1)
                else if is_meta cmd TriggerStart then
                  let r := check_start (Cmd.t cmd) (u32 (Cmd.final_val cmd)) s1 in
                  if fst r then fetch fuel' (cmd_next q1) (snd r)
                  else Ok (q1, snd r, None)
                else fetch fuel' (cmd_next q1) s1
              else modchn_loop q1 s1
          end
      end
  end.

(** The end-trigger bookkeeping after [cmd_out]; [out] is the address the
    step writes its output to. *)
Definition end_trigger_step (out : Z) (s : Stream) : Stream :=
  if negb (m_end_trigger_waiting s =? 0) then
    match end_trigger s with
    | None =>
        let s1 := set_end_triggered (m_end_trigger_waiting s) s in
        let s2 := set_end_trigger_waiting (m_end_trigger_pending s1) s1 in
        if negb (m_end_trigger_pending s2 =? 0)
        then set_end_trigger (Some out) s2
        else s2
    | Some _ => s
    end
  else if negb (m_end_trigger_pending s =? 0) then
    let s1 := set_end_trigger_waiting (m_end_trigger_pending s) s in
    let s2 := set_end_trigger_pending 0 s1 in
    set_end_trigger (Some out) s2
  else s.

(** The values one channel hands to the synthesis calls
    [test_compute_single_chn(out1amp, out2amp, amp, damp)] and
    [test_compute_single_chn(out1freq, out2freq, freq, df)]. *)
Record Feed : Type := mk_Feed {
  fed_amp : Z;
  fed_damp : Z;
  fed_freq : Z;
  fed_df : Z
}.

(** The locals [phase], [amp], [damp], [freq], [df] of one channel. *)
Record Locals : Type := mk_Locals {
  l_phase : Z;
  l_amp : Z;
  l_damp : Z;
  l_freq : Z;
  l_df : Z
}.

(** The [while (it != active_cmds.end())] loop over the active ramps for
    channel [i].  [len] in the source is [this_cmd->len] and
    [this_cmd.eval] is the [eval] of the active ramp. *)
Fixpoint scan_active (i cur_t : Z) (acts : list activeCmd) (l : Locals)
  : result (list activeCmd * Locals) :=
  match acts with
  | [] => Ok ([], l)
  | a :: rest =>
      let this_cmd := m_cmd a in
      if Cmd.chn this_cmd =? i then
        if is_amp_ramp this_cmd then
          if Cmd.t this_cmd + Cmd.len this_cmd >? cur_t then
            '(a', (v, dv)) <- eval a (u32 (cur_t - Cmd.t this_cmd)) ;;
            '(rest', l') <- scan_active i cur_t rest
                              (mk_Locals (l_phase l) v dv (l_freq l) (l_df l)) ;;
            Ok (a' :: rest', l')
          else
            scan_active i cur_t rest
              (mk_Locals (l_phase l) (Cmd.final_val this_cmd) (l_damp l)
                         (l_freq l) (l_df l))
        else if is_freq_ramp this_cmd then
          if Cmd.t this_cmd + Cmd.len this_cmd >? cur_t then
            '(a', (v, dv)) <- eval a (u32 (cur_t - Cmd.t this_cmd)) ;;
            '(rest', l') <- scan_active i cur_t rest
                              (mk_Locals (l_phase l) (l_amp l) (l_damp l) v dv) ;;
            Ok (a' :: rest', l')
          else
            scan_active i cur_t rest
              (mk_Locals (l_phase l) (l_amp l) (l_damp l)
                         (Cmd.final_val this_cmd) (l_df l))
        else
          '(rest', l') <- scan_active i cur_t rest l ;;
          Ok (a :: rest', l')
      else
        '(rest', l') <- scan_active i cur_t rest l ;;
        Ok (a :: rest', l')
  end.

(** A ramp that is the current command of the step. *)
Definition new_ramp (cmd : Cmd.T) (s : Stream)
  : result (Stream * option (Z * Z)) :=
  if Cmd.t cmd + Cmd.len cmd >? m_cur_t s then
    a <- new_activeCmd cmd ;;
    '(a', vd) <- eval a (u32 (m_cur_t s - Cmd.t cmd)) ;;
    Ok (set_active_cmds (active_cmds s ++ [a']) s, Some vd)
  else Ok (s, None).

(** The [do ... while (cmd && cmd->chn == i)] loop over the commands due
    for channel [i]; [q] starts with the current command.  The [else] arm
    is the [break] of the source: the command stays in the pipe. *)
Fixpoint apply_due (i : Z) (q : list Cmd.T) (s : Stream) (l : Locals)
  : result (list Cmd.T * Stream * option Cmd.T * Locals) :=
  match q with
  | [] => Ok ([], s, None, l)
  | cmd :: q' =>
      r <- (if is_op cmd FreqSet then
              Ok (Some (s, mk_Locals (l_phase l) (l_amp l) (l_damp l)
                                     (Cmd.final_val cmd) (l_df l)))
            else if is_freq_ramp cmd then
              '(s', o) <- new_ramp cmd s ;;
              match o with
              | Some (v, dv) =>
                  Ok (Some (s', mk_Locals (l_phase l) (l_amp l) (l_damp l) v dv))
              | None =>
                  Ok (Some (s', mk_Locals (l_phase l) (l_amp l) (l_damp l)
                                          (Cmd.final_val cmd) (l_df l)))
              end
            else if is_amp_ramp cmd then
              '(s', o) <- new_ramp cmd s ;;
              match o with
              | Some (v, dv) =>
                  Ok (Some (s', mk_Locals (l_phase l) v dv (l_freq l) (l_df l)))
              | None =>
                  Ok (Some (s', mk_Locals (l_phase l) (Cmd.final_val cmd)
                                          (l_damp l) (l_freq l) (l_df l)))
              end
            else if is_op cmd Phase then
              Ok (Some (s, mk_Locals (Cmd.final_val cmd) (l_amp l) (l_damp l)
                                     (l_freq l) (l_df l)))
            else Ok None) ;;
      match r with
      | None => Ok (q, s, Some cmd, l)
      | Some (s', l') =>
          match get_cmd_curt q' s' with
          | Some c' =>
              if Cmd.chn c' =? i then apply_due i q' s' l'
              else Ok (q', s', Some c', l')
          | None => Ok (q', s', None, l')
          end
      end
  end.

(** The phase wrap-around.  [max_phase] is a [uint64_t], so the [int64_t]
    phase is converted to [uint64_t] in both comparisons and in [%], and
    [-max_phase] is the unsigned negation. *)
Definition wrap_phase (phase : Z) : Z :=
  if (u64 phase >? max_phase) || (u64 phase <? u64 (- max_phase))
  then i64 (u64 phase mod max_phase)
  else phase.

(** One round of the [for (uint32_t i = 0; i < _nchns; i++)] loop. *)
Definition chan_step (i : Z) (q : list Cmd.T) (s : Stream)
                     (cmd : option Cmd.T)
  : result (list Cmd.T * Stream * option Cmd.T * Feed) :=
  state <- get (m_states s) i ;;
  '(acts, l) <- scan_active i (m_cur_t s) (active_cmds s)
                  (mk_Locals (State.phase state) (State.amp state) 0
                             (State.freq state) 0) ;;
  let s := set_active_cmds acts s in
  '(q, s, cmd, l) <-
     match cmd with
     | None => Ok (q, s, cmd, l)
     | Some c =>
         if negb (Cmd.chn c =? i) then Ok (q, s, cmd, l)
         else apply_due i q s l
     end ;;
  s <- upd_state i (State.with_phase (wrap_phase (l_phase l))) s ;;
  Ok (q, s, cmd, mk_Feed (l_amp l) (l_damp l) (l_freq l) (l_df l)).

Fixpoint chan_loop (n : nat) (i : Z) (q : list Cmd.T) (s : Stream)
                   (cmd : option Cmd.T) (fed : list Feed)
  : result (list Cmd.T * Stream * list Feed) :=
  match n with
  | O => Ok (q, s, fed)
  | S n' =>
      '(q', s', cmd', f) <- chan_step i q s cmd ;;
      chan_loop n' (i + 1) q' s' cmd' (fed ++ [f])
  end.

(** [StreamBase::step]: the pipe and the stream after the step, and what
    each live channel fed to the synthesis, in channel order. *)
Definition step (out : Z) (q : list Cmd.T) (s : Stream)
  : result (list Cmd.T * Stream * list Feed) :=
  '(q1, s1, cmd) <- fetch (S (length q)) q s ;;
  let s2 := end_trigger_step out s1 in
  '(q3, s3, fed) <- chan_loop (Z.to_nat (m_chns s2)) 0 q1 s2 cmd [] ;;
  Ok (q3, set_cur_t (u32 (m_cur_t s3 + 1)) s3, fed).

(** Several steps in a row, each on the pipe the previous one left. *)
Fixpoint steps (n : nat) (out : Z) (q : list Cmd.T) (s : Stream)
  : result (list Cmd.T * Stream * list (list Feed)) :=
  match n with
  | O => Ok (q, s, [])
  | S n' =>
      '(q1, s1, fed) <- step out q s ;;
      '(q2, s2, feds) <- steps n' out q1 s1 ;;
      Ok (q2, s2, fed :: feds)
  end.

(** A fresh stream: the member initialisers of [StreamBase] over a state
    table of [max_chns] zeroed entries. *)
Definition init_stream (step_t : Z -> Z) (max_chns : nat) : Stream :=
  mk_Stream true 0 0 0 0 0 step_t 0 0 [] 0 0 None 0 0
            (repeat (State.mk 0 0 0) max_chns).

(** * Notions used by the statements *)

(** The stream without its state table and its active ramps. *)
Definition erase (s : Stream) : Stream := set_states [] (set_active_cmds [] s).

(** Two streams that differ at most in the state table and the active
    ramps. *)
Definition frame (s s' : Stream) : Prop := erase s = erase s'.

(** What a channel with no ramp and no command feeds to the synthesis. *)
Definition idle_feed (st : State.T) : Feed :=
  mk_Feed (State.amp st) 0 (State.freq st) 0.

(** What the live channels feed to the synthesis when no ramp is active
    and no command is applied: their stored amplitude and frequency. *)
Definition live_feed (s : Stream) : list Feed :=
  map idle_feed (firstn (Z.to_nat (m_chns s)) (m_states s)).

Definition is_ResetAll (c : Cmd.T) : bool :=
  is_op c Meta && is_meta c ResetAll.

Definition is_TriggerEnd (c : Cmd.T) : bool :=
  is_op c Meta && is_meta c TriggerEnd.

(** The commands the [do] loop of the step has no arm for: it leaves them
    in the pipe ([break]). *)
Definition live_ignored (cmd : Cmd.T) : bool :=
  negb (is_op cmd FreqSet || is_freq_ramp cmd || is_amp_ramp cmd
        || is_op cmd Phase).

(** [q'] is what is left of the pipe [q] after some commands were read. *)
Definition suffix (q' q : list Cmd.T) : Prop := exists pre, q = pre ++ q'.

(** The end-trigger fields of [s'] against those of [s]: the waiting id,
    the published id and the end pointer are the same, and the pending id
    is the same or the id of a [TriggerEnd] command of [q]. *)
Definition trig_step (q : list Cmd.T) (s s' : Stream) : Prop :=
  m_end_trigger_waiting s' = m_end_trigger_waiting s /\
  m_end_triggered s' = m_end_triggered s /\
  m_end_trigger s' = m_end_trigger s /\
  (m_end_trigger_pending s' = m_end_trigger_pending s \/
   exists c, In c q /\ is_TriggerEnd c = true /\
             m_end_trigger_pending s' = u32 (Cmd.final_val c)).

(** The stream a [TriggerStart] command at the head of the pipe leaves
    when its start check has run: a stale command goes through catch-up
    consumption, which first counts a command underflow unless the
    command's time is 0; [check_start] then sets the current time to the
    command's time and the slow-mode flag to the negated outcome. *)
Definition after_start_check (cmd : Cmd.T) (s : Stream) : Stream :=
  snd (check_start (Cmd.t cmd) (u32 (Cmd.final_val cmd))
         (if (Cmd.t cmd <? m_cur_t s) && negb (Cmd.t cmd =? 0)
          then set_cmd_underflow (u64 (m_cmd_underflow s + 1)) s
          else s)).

(** * Streams and commands used as examples *)

(** The scaling of the output count: one time unit per output. *)
Definition ex_step_t : Z -> Z := fun cnt => cnt.

(** One live channel (phase 0, frequency 2, amplitude 3) in a table of four. *)
Definition ex_one_chn : Stream :=
  mk_Stream true 0 0 1 0 0 ex_step_t 0 0 [] 0 0 None 0 0
    [State.mk 0 2 3; State.mk 0 0 0; State.mk 0 0 0; State.mk 0 0 0].

(** Three live channels with distinct states in a table of four. *)
Definition ex_three_chn : Stream :=
  mk_Stream true 0 0 3 0 0 ex_step_t 0 0 [] 0 0 None 0 0
    [State.mk 1 2 3; State.mk 4 5 6; State.mk 7 8 9; State.mk 0 0 0].

(** Three channels are added and tagged by their phase, then channel 1 is
    removed one step later. *)
Definition ex_lifecycle : list Cmd.T :=
  [Cmd.getAddChn 0; Cmd.getAddChn 0; Cmd.getAddChn 0;
   Cmd.getPhase 0 0 10; Cmd.getPhase 0 1 20; Cmd.getPhase 0 2 30;
   Cmd.getDelChn 1 1].

(** Three stale amplitude settings for channel 0. *)
Definition ex_backlog : list Cmd.T :=
  [Cmd.getAmpSet 1 0 7; Cmd.getAmpSet 2 0 8; Cmd.getAmpSet 3 0 9].

(** A [TriggerStart] command naming the id [id]; [getTriggerStart] itself
    always stores the id 0. *)
Definition ex_trigger_start (t id : Z) : Cmd.T :=
  Cmd.mk t (CmdType_code Meta) (CmdMeta_code TriggerStart) id 0 NullFn.

(** A [TriggerEnd] command carrying the id [id]; [getTriggerEnd] itself
    always stores the id 0. *)
Definition ex_trigger_end (t id : Z) : Cmd.T :=
  Cmd.mk t (CmdType_code Meta) (CmdMeta_code TriggerEnd) id 0 NullFn.

(** A scalar amplitude ramp on channel 0: start 0, length 2, final value
    10, generator [k |-> 5 * k]. *)
Definition ex_ramp : Cmd.T :=
  Cmd.getAmpFn 0 0 10 2 (ScalarFn (fun k => 5 * k)).

(** A vector amplitude ramp on channel 0: start 5, length 3, final value
    10; the generator returns one value per requested step, so the table
    has [len + 1] entries. *)
Definition ex_vec_ramp : Cmd.T :=
  Cmd.mk 5 (CmdType_code AmpVecFn) 0 10 3
    (VectorFn (fun ts => map (fun k => 2 * k) ts)).

(** A command whose opcode field holds 12, which names no [CmdType]. *)
Definition ex_bad_op : Cmd.T := Cmd.mk 0 12 0 9 0 NullFn.

(** A command with an unrecognized opcode, stale at time 5. *)
Definition ex_bad_op_stale : Cmd.T := Cmd.mk 2 12 0 9 0 NullFn.

(** * The rest of the command interface *)

(** ** Comparing commands ([Cmd::operator==])

    [ptr_eq] is the comparison of two generator pointers.  The [Meta] case
    falls through to the ramp case when the command is not a trigger, and
    the ramp case falls through to [default]. *)
Definition Cmd_equal (ptr_eq : FnPtr -> FnPtr -> bool) (this other : Cmd.T)
  : bool :=
  if negb (Cmd.t other =? Cmd.t this) then false
  else if negb (Cmd._op other =? Cmd._op this) then false
  else
    let ramp_case :=
      if (Cmd.final_val other =? Cmd.final_val this)
         && (Cmd.len other =? Cmd.len this)
      then ptr_eq (Cmd.fnptr other) (Cmd.fnptr this)
      else false in
    match Cmd.op this with
    | Some AmpSet | Some FreqSet | Some Phase | Some ModChn =>
        if negb (Cmd.final_val other =? Cmd.final_val this) then false
        else Cmd.chn other =? Cmd.chn this
    | Some Meta =>
        if is_meta this TriggerEnd || is_meta this TriggerStart then
          (Cmd.chn other =? Cmd.chn this)
          && (Cmd.final_val this =? Cmd.final_val other)
        else ramp_case
    | Some AmpFn | Some FreqFn | Some AmpVecFn | Some FreqVecFn => ramp_case
    | None => false
    end.

(** ** The writer's side of the command pipe

    Modelled from the spec: the class [DataPipe] of [m_commands] is not in
    the source.  By section 4.1 of the spec a write reservation
    ([get_write_ptr]) yields a region and the number of slots available in
    it, 0 when the pipe is full, and a commit ([wrote_size]) hands the
    first slots of the region to the reader, in order.  The number a
    reservation would yield is the argument [avail] of the functions that
    may reserve; the slots written and not yet committed are [w_window],
    the committed commands [w_published].  A new reservation starts at the
    first uncommitted slot, so it starts with nothing written. *)
Record Writer : Type := mk_Writer {
  m_cmd_wrote : Z;              (* uint32_t *)
  m_cmd_max_write : Z;          (* uint32_t *)
  w_window : list Cmd.T;        (* m_cmd_write_ptr[0 .. m_cmd_wrote) *)
  w_published : list Cmd.T
}.

(** [m_commands.wrote_size(n)] *)
Definition wrote_size (n : Z) (w : Writer) : Writer :=
  mk_Writer (m_cmd_wrote w) (m_cmd_max_write w)
    (skipn (Z.to_nat n) (w_window w))
    (w_published w ++ firstn (Z.to_nat n) (w_window w)).

(** [probe_cmd_input()] *)
Definition probe_cmd_input (avail : Z) (w : Writer) : bool * Writer :=
  if m_cmd_wrote w =? m_cmd_max_write w then
    let w1 := mk_Writer 0 avail [] (w_published w) in
    if m_cmd_max_write w1 =? 0 then (false, w1) else (true, w1)
  else (true, w).

(** [copy_cmds(cmds, sz)]: the number of commands taken and the writer
    afterwards.  [memcpy] reads [sz] commands from [cmds]. *)
Definition copy_cmds (avail : Z) (cmds : list Cmd.T) (sz : Z) (w : Writer)
  : result (Z * Writer) :=
  if negb (fst (probe_cmd_input avail w)) then
    Ok (0, snd (probe_cmd_input avail w))
  else
    let w1 := snd (probe_cmd_input avail w) in
    let sz := Z.min sz (u32 (m_cmd_max_write w1 - m_cmd_wrote w1)) in
    if Z.of_nat (length cmds) <? sz then Fault OutOfBounds
    else
      let w2 := mk_Writer (u32 (m_cmd_wrote w1 + sz)) (m_cmd_max_write w1)
                  (w_window w1 ++ firstn (Z.to_nat sz) cmds)
                  (w_published w1) in
      if m_cmd_wrote w2 =? m_cmd_max_write w2 then
        let w3 := wrote_size (m_cmd_max_write w2) w2 in
        Ok (sz, mk_Writer 0 0 (w_window w3) (w_published w3))
      else Ok (sz, w2).

(** [try_add_cmd(cmd)] *)
Definition try_add_cmd (avail : Z) (cmd : Cmd.T) (w : Writer)
  : result (bool * Writer) :=
  '(n, w') <- copy_cmds avail [cmd] 1 w ;;
  Ok (negb (n =? 0), w').

(** [add_cmd(cmd)]: one attempt per element of [avails], what the pipe
    would yield at that attempt; [None] while the loop is still spinning
    when they are used up. *)
Fixpoint add_cmd (avails : list Z) (cmd : Cmd.T) (w : Writer)
  : result (option Writer) :=
  match avails with
  | [] => Ok None
  | avail :: rest =>
      '(ok, w') <- try_add_cmd avail cmd w ;;
      if ok : bool then Ok (Some w') else add_cmd rest cmd w'
  end.

(** [flush_cmd()] *)
Definition flush_cmd (w : Writer) : Writer :=
  if negb (m_cmd_wrote w =? 0) then
    let w1 := mk_Writer (m_cmd_wrote w)
                (u32 (m_cmd_max_write w - m_cmd_wrote w))
                (w_window w) (w_published w) in
    let w2 := wrote_size (m_cmd_wrote w1) w1 in
    mk_Writer 0 (m_cmd_max_write w2) (w_window w2) (w_published w2)
  else w.

(** Everything written so far, in the order of the calls. *)
Definition written (w : Writer) : list Cmd.T := w_published w ++ w_window w.

(** The state of the writer between two calls. *)
Definition writer_ok (w : Writer) : Prop :=
  0 <= m_cmd_wrote w /\ m_cmd_max_write w < 2 ^ 32 /\
  Z.of_nat (length (w_window w)) = m_cmd_wrote w /\
  (m_cmd_wrote w < m_cmd_max_write w \/
   (m_cmd_wrote w = 0 /\ m_cmd_max_write w = 0)).

(** The member initialisers of the writer's fields. *)
Definition init_writer : Writer := mk_Writer 0 0 [] [].

(** ** The reader's cursor into the command pipe

    Modelled from the spec: [DataPipe] again; a read reservation
    ([get_read_ptr]) yields the next committed commands and their number,
    0 when the pipe is empty, and [read_size] gives their slots back to
    the writer.  [grant] is the number the reservation would yield,
    [r_batch] the region it handed out, [r_pipe] the committed commands
    behind it and [r_released] the number of slots given back so far. *)
Record Reader : Type := mk_Reader {
  m_cmd_read : Z;               (* uint32_t *)
  m_cmd_max_read : Z;           (* uint32_t *)
  r_batch : list Cmd.T;         (* m_cmd_read_ptr[0 .. m_cmd_max_read) *)
  r_pipe : list Cmd.T;
  r_released : Z
}.

(** [get_cmd()] on the cursor. *)
Definition cursor_get_cmd (grant : Z) (r : Reader)
  : result (option Cmd.T * Reader) :=
  if m_cmd_read r =? m_cmd_max_read r then
    let r1 := mk_Reader 0 grant (firstn (Z.to_nat grant) (r_pipe r))
                (skipn (Z.to_nat grant) (r_pipe r)) (r_released r) in
    if m_cmd_max_read r1 =? 0 then Ok (None, r1)
    else
      c <- get (r_batch r1) (m_cmd_read r1) ;;
      Ok (Some c, r1)
  else
    c <- get (r_batch r) (m_cmd_read r) ;;
    Ok (Some c, r).

(** [cmd_next()] on the cursor. *)
Definition cursor_cmd_next (r : Reader) : Reader :=
  let rd := u32 (m_cmd_read r + 1) in
  mk_Reader rd (m_cmd_max_read r) (r_batch r) (r_pipe r)
    (if rd =? m_cmd_max_read r then r_released r + m_cmd_max_read r
     else r_released r).

(** The commands the reader has not consumed yet: the list that [get_cmd]
    and [cmd_next] of the step work on. *)
Definition unread (r : Reader) : list Cmd.T :=
  skipn (Z.to_nat (m_cmd_read r)) (r_batch r) ++ r_pipe r.

Definition reader_ok (r : Reader) : Prop :=
  0 <= m_cmd_read r <= m_cmd_max_read r /\ m_cmd_max_read r < 2 ^ 32 /\
  Z.of_nat (length (r_batch r)) = m_cmd_max_read r.

(** ** The worker loop

    [Stream::thread_fun]: the loop [while (m_cur_t < 20) step(...)] of the
    worker, without its printing and sleeping.  The result collects what
    each step fed to the synthesis. *)
Fixpoint thread_fun (fuel : nat) (out : Z) (q : list Cmd.T) (s : Stream)
  : result (list Cmd.T * Stream * list (list Feed)) :=
  match fuel with
  | O => Fault OutOfFuel
  | S fuel' =>
      if m_cur_t s <? 20 then
        '(q1, s1, fed) <- step out q s ;;
        '(q2, s2, feds) <- thread_fun fuel' out q1 s1 ;;
        Ok (q2, s2, fed :: feds)
      else Ok (q, s, [])
  end.

(** * Notions used by the further statements *)

(** The cache of a scalar ramp holds the generator's values at 0, 1, ... *)
Definition cache_ok (f : Z -> Z) (a : activeCmd) : Prop :=
  vals a = map (fun k => f (Z.of_nat k)) (seq 0 (length (vals a))).

(** No [Meta] command in the pipe. *)
Definition no_meta (q : list Cmd.T) : Prop :=
  Forall (fun c => is_op c Meta = false) q.

(** The commands [operator==] compares field by field: the settings,
    [ModChn] and the two triggers. *)
Definition exact_like (c : Cmd.T) : bool :=
  is_op c AmpSet || is_op c FreqSet || is_op c Phase || is_op c ModChn
  || (is_op c Meta && (is_meta c TriggerEnd || is_meta c TriggerStart)).

(** The commands that reach the ramp case of [operator==]: the ramps and
    the [Meta] commands that are not triggers. *)
Definition ramp_like (c : Cmd.T) : bool :=
  is_op c AmpFn || is_op c FreqFn || is_op c AmpVecFn || is_op c FreqVecFn
  || (is_op c Meta && negb (is_meta c TriggerEnd || is_meta c TriggerStart)).

(** The room the writer has: what is left of its region, or what a new
    reservation yields when the region is used up. *)
Definition room (avail : Z) (w : Writer) : Z :=
  if m_cmd_wrote w =? m_cmd_max_write w then avail
  else m_cmd_max_write w - m_cmd_wrote w.

(** An active ramp the scan for channel [i] at time [cur] keeps: every
    ramp of another channel, and a ramp of channel [i] whose window is
    still open. *)
Definition ramp_kept (i cur : Z) (c : Cmd.T) : bool :=
  negb ((Cmd.chn c =? i) && (is_amp_ramp c || is_freq_ramp c)
        && negb (Cmd.t c + Cmd.len c >? cur)).

(** What the start check reads besides the command: the output count and
    its scaling, the time offset and the published start trigger. *)
Definition start_gate (s : Stream) : Z * (Z -> Z) * Z * Z * Z :=
  (m_output_cnt s, m_step_t s, m_time_offset s, m_start_trigger s,
   m_start_trigger_time s).

(** The times and lengths for which the window test
    [t + len > m_cur_t] of a ramp, a binary32 comparison in the source, is
    the comparison of the integers: every operand and the sum are
    integers of at most 24 bits, which binary32 holds exactly. *)
Definition window_exact (c : Cmd.T) (cur : Z) : Prop :=
  0 <= Cmd.t c /\ 0 <= Cmd.len c /\ Cmd.t c + Cmd.len c <= 2 ^ 24 /\
  0 <= cur <= 2 ^ 24.

(** A value of type [int32_t]. *)
Definition is_int32 (x : Z) : Prop := - 2 ^ 31 <= x < 2 ^ 31.

(** * Further examples *)

(** Pointer comparison on the handles that can be compared by shape: two
    null pointers are equal, anything else is told apart. *)
Definition ex_ptr_eq (a b : FnPtr) : bool :=
  match a, b with
  | NullFn, NullFn => true
  | _, _ => false
  end.

(** A writer with a region of three slots, one of them written. *)
Definition ex_writer : Writer :=
  mk_Writer 1 3 [Cmd.getAddChn 0] [].

(** A reader that consumed its region of two commands, with three
    committed commands behind it. *)
Definition ex_reader : Reader :=
  mk_Reader 2 2 [Cmd.getAddChn 0; Cmd.getAddChn 0] ex_backlog 2.

(** Two active ramps: the amplitude ramp [ex_ramp] of channel 0 with its
    cache filled, and a frequency ramp of channel 1. *)
Definition ex_active : list activeCmd :=
  [mk_activeCmd ex_ramp [0; 5; 10];
   mk_activeCmd (Cmd.getFreqFn 0 1 4 9 (ScalarFn (fun k => k))) []].

(** ** Proof steps shared by the lemmas *)

Ltac break_in H :=
  match type of H with
  | context [match ?x with _ => _ end] => destruct x eqn:?
  end.

Ltac crunch H :=
  unfold bind in H; repeat (break_in H; try discriminate H).

(** * Properties *)

(** ** Arrays *)

Lemma in_range_spec {A} (l : list A) (i : Z) :
  in_range l i = true <-> 0 <= i < Z.of_nat (length l).
Proof. unfold in_range. rewrite andb_true_iff, Z.leb_le, Z.ltb_lt. tauto. Qed.

Lemma get_Ok {A} (l : list A) (i : Z) (a : A) :
  get l i = Ok a <-> 0 <= i < Z.of_nat (length l) /\ nth_error l (Z.to_nat i) = Some a.
Proof.
  unfold get. destruct (in_range l i) eqn:R.
  - apply in_range_spec in R. destruct (nth_error l (Z.to_nat i)) eqn:E.
    + split; [intros [= ->]; auto | intros [_ [= ->]]; auto].
    + split; [discriminate | intros [_ [=]]].
  - split; [discriminate|]. intros [H _]. apply in_range_spec in H. congruence.
Qed.

Lemma get_in_range {A} (l : list A) (i : Z) :
  0 <= i < Z.of_nat (length l) -> exists a, get l i = Ok a.
Proof.
  intros H. destruct (nth_error l (Z.to_nat i)) eqn:E.
  - exists a. apply get_Ok. auto.
  - apply nth_error_None in E. lia.
Qed.

Lemma set_nth_length {A} (l : list A) n a : length (set_nth l n a) = length l.
Proof. revert n. induction l; destruct n; simpl; auto. Qed.

Lemma nth_error_set_nth_eq {A} (l : list A) n a :
  (n < length l)%nat -> nth_error (set_nth l n a) n = Some a.
Proof. revert n. induction l; destruct n; simpl; intros; try lia; auto. apply IHl. lia. Qed.

Lemma nth_error_set_nth_ne {A} (l : list A) n m a :
  n <> m -> nth_error (set_nth l n a) m = nth_error l m.
Proof. revert n m. induction l; destruct n, m; simpl; intros; try congruence; auto. Qed.

Lemma set_Ok {A} (l : list A) i a :
  0 <= i < Z.of_nat (length l) -> set l i a = Ok (set_nth l (Z.to_nat i) a).
Proof. intros H. unfold set. apply in_range_spec in H. now rewrite H. Qed.

Lemma set_inv {A} (l l' : list A) i a :
  set l i a = Ok l' -> 0 <= i < Z.of_nat (length l) /\ l' = set_nth l (Z.to_nat i) a.
Proof.
  unfold set. destruct (in_range l i) eqn:R; [|discriminate].
  intros [= <-]. apply in_range_spec in R. auto.
Qed.

(** ** Opcodes *)

Lemma CmdType_of_code (o : CmdType) : CmdType_of (CmdType_code o) = Some o.
Proof. destruct o; reflexivity. Qed.

Lemma CmdType_of_inv (z : Z) (o : CmdType) :
  CmdType_of z = Some o -> z = CmdType_code o.
Proof.
  destruct z as [|p|p]; simpl; try discriminate.
  - intros [= <-]. reflexivity.
  - do 4 (try destruct p as [p|p|]); simpl; try discriminate;
      intros [= <-]; reflexivity.
Qed.

Lemma op_is_op (c : Cmd.T) (o : CmdType) :
  Cmd.op c = Some o <-> is_op c o = true.
Proof.
  unfold Cmd.op, is_op. rewrite Z.eqb_eq. split.
  - apply CmdType_of_inv.
  - intros ->. apply CmdType_of_code.
Qed.

(** ** Frames *)

Lemma frame_refl s : frame s s.
Proof. reflexivity. Qed.

Lemma frame_trans s1 s2 s3 : frame s1 s2 -> frame s2 s3 -> frame s1 s3.
Proof. unfold frame. congruence. Qed.

Lemma frame_set_states v s : frame s (set_states v s).
Proof. reflexivity. Qed.

Lemma frame_set_active_cmds v s : frame s (set_active_cmds v s).
Proof. reflexivity. Qed.

Lemma frame_fields s s' :
  frame s s' ->
  m_slow_mode s' = m_slow_mode s /\
  m_end_trigger_pending s' = m_end_trigger_pending s /\
  m_end_trigger_waiting s' = m_end_trigger_waiting s /\
  m_chns s' = m_chns s /\
  m_cur_t s' = m_cur_t s /\
  m_cmd_underflow s' = m_cmd_underflow s /\
  m_end_triggered s' = m_end_triggered s /\
  m_end_trigger s' = m_end_trigger s.
Proof.
  destruct s, s'. unfold frame, erase. simpl. intros [= ]. subst.
  repeat split.
Qed.

Lemma frame_cur_t s s' : frame s s' -> m_cur_t s' = m_cur_t s.
Proof. intros H. apply frame_fields in H. tauto. Qed.

Lemma frame_get_cmd_curt q s s' : frame s s' -> get_cmd_curt q s' = get_cmd_curt q s.
Proof. intros H. unfold get_cmd_curt. now rewrite (frame_cur_t _ _ H). Qed.

Lemma upd_state_inv i f s s' :
  upd_state i f s = Ok s' ->
  exists st, get (m_states s) i = Ok st /\
             s' = set_states (set_nth (m_states s) (Z.to_nat i) (f st)) s.
Proof.
  unfold upd_state. intros H. crunch H.
  apply set_inv in Heqr0. destruct Heqr0 as [_ ->].
  injection H as <-. eauto.
Qed.

Lemma upd_state_frame i f s s' :
  upd_state i f s = Ok s' ->
  frame s s' /\ active_cmds s' = active_cmds s /\
  length (m_states s') = length (m_states s).
Proof.
  intros H. apply upd_state_inv in H. destruct H as (st & _ & ->).
  split; [apply frame_set_states|]. split; [reflexivity|].
  simpl. apply set_nth_length.
Qed.

Lemma new_ramp_frame cmd s s' o :
  new_ramp cmd s = Ok (s', o) -> frame s s' /\ m_states s' = m_states s.
Proof.
  unfold new_ramp. intros H. crunch H; injection H as <- <-;
    split; (reflexivity || apply frame_set_active_cmds).
Qed.

Lemma old_ramp_frame cmd s s' v :
  old_ramp cmd s = Ok (s', v) -> frame s s' /\ m_states s' = m_states s.
Proof.
  unfold old_ramp. intros H. crunch H; injection H as <- <-;
    split; (reflexivity || apply frame_set_active_cmds).
Qed.

Lemma apply_due_frame i q : forall s l q' s' c l',
  apply_due i q s l = Ok (q', s', c, l') ->
  frame s s' /\ m_states s' = m_states s.
Proof.
  induction q as [|cmd q IH]; intros s l q' s' c l' H; simpl in H.
  - injection H as <- <- <- <-. split; reflexivity.
  - unfold bind in H.
    destruct (if is_op cmd FreqSet then _ else _) as [[[s1 l1]|]|] eqn:E;
      try discriminate.
    + assert (F : frame s s1 /\ m_states s1 = m_states s).
      { crunch E; try (injection E as <- <-); try (split; reflexivity);
          eapply new_ramp_frame; eauto. }
      destruct F as [F1 F2].
      destruct (get_cmd_curt q s1) eqn:G.
      * destruct (Cmd.chn t =? i).
        -- apply IH in H. destruct H as [H1 H2]. split.
           ++ eapply frame_trans; eauto.
           ++ congruence.
        -- injection H as <- <- <- <-. auto.
      * injection H as <- <- <- <-. auto.
    + injection H as <- <- <- <-. split; reflexivity.
Qed.

Lemma chan_step_frame i q s cmd q' s' cmd' f :
  chan_step i q s cmd = Ok (q', s', cmd', f) ->
  frame s s' /\ length (m_states s') = length (m_states s).
Proof.
  unfold chan_step. intros H. unfold bind in H.
  destruct (get (m_states s) i) as [state|] eqn:G; try discriminate.
  destruct (scan_active _ _ _ _) as [[acts l]|] eqn:SA; try discriminate.
  match type of H with
  | match ?m with _ => _ end = _ => destruct m as [[[[q1 s1] c1] l1]|] eqn:M
  end; try discriminate.
  destruct (upd_state _ _ s1) as [s2|] eqn:U; try discriminate.
  injection H as <- <- <- <-.
  apply upd_state_frame in U. destruct U as (U1 & _ & U2).
  assert (F : frame (set_active_cmds acts s) s1 /\
              m_states s1 = m_states s).
  { destruct cmd as [c|].
    - destruct (negb (Cmd.chn c =? i)).
      + injection M as <- <- <- <-. split; reflexivity.
      + apply apply_due_frame in M. exact M.
    - injection M as <- <- <- <-. split; reflexivity. }
  destruct F as [F1 F2]. split.
  - eapply frame_trans; [apply (frame_set_active_cmds acts)|].
    eapply frame_trans; eauto.
  - rewrite U2. now rewrite F2.
Qed.

Lemma chan_loop_frame n : forall i q s cmd fed q' s' fed',
  chan_loop n i q s cmd fed = Ok (q', s', fed') ->
  frame s s' /\ length (m_states s') = length (m_states s).
Proof.
  induction n as [|n IH]; intros i q s cmd fed q' s' fed' H; simpl in H.
  - injection H as <- <- <-. split; reflexivity.
  - unfold bind in H.
    destruct (chan_step i q s cmd) as [[[[q1 s1] c1] f1]|] eqn:C;
      try discriminate.
    apply chan_step_frame in C. apply IH in H.
    destruct C as [C1 C2], H as [H1 H2]. split.
    + eapply frame_trans; eauto.
    + congruence.
Qed.

Lemma map_set_nth_same {A B} (f : A -> B) (l : list A) n a a0 :
  nth_error l n = Some a0 -> f a = f a0 ->
  map f (set_nth l n a) = map f l.
Proof.
  revert n. induction l as [|x l IH]; intros n H E.
  - destruct n; discriminate.
  - destruct n as [|n]; simpl in *.
    + injection H as ->. now rewrite E.
    + f_equal. apply IH; assumption.
Qed.

Lemma chan_step_states i q s cmd q' s' cmd' f :
  chan_step i q s cmd = Ok (q', s', cmd', f) ->
  exists st v,
    get (m_states s) i = Ok st /\
    m_states s' = set_nth (m_states s) (Z.to_nat i) (State.with_phase v st).
Proof.
  unfold chan_step. intros H. unfold bind in H.
  destruct (get (m_states s) i) as [state|] eqn:G; try discriminate.
  destruct (scan_active _ _ _ _) as [[acts l]|] eqn:SA; try discriminate.
  match type of H with
  | match ?m with _ => _ end = _ => destruct m as [[[[q1 s1] c1] l1]|] eqn:M
  end; try discriminate.
  destruct (upd_state _ _ s1) as [s2|] eqn:U; try discriminate.
  injection H as <- <- <- <-.
  assert (F : m_states s1 = m_states s).
  { destruct cmd as [c|].
    - destruct (negb (Cmd.chn c =? i)).
      + injection M as <- <- <- <-. reflexivity.
      + apply apply_due_frame in M. apply M.
    - injection M as <- <- <- <-. reflexivity. }
  apply upd_state_inv in U. destruct U as (st & G' & ->).
  rewrite F in G'. rewrite G in G'. injection G' as <-.
  exists state, (wrap_phase (l_phase l1)). split; [reflexivity|].
  simpl. now rewrite F.
Qed.

(** The channel loop of the step stores phases only: no amplitude and no
    frequency of the state table changes, whatever commands and ramps it
    applies. *)
Lemma chan_loop_keeps_amp_freq n : forall i q s cmd fed q' s' fed',
  chan_loop n i q s cmd fed = Ok (q', s', fed') ->
  map State.amp (m_states s') = map State.amp (m_states s) /\
  map State.freq (m_states s') = map State.freq (m_states s).
Proof.
  induction n as [|n IH]; intros i q s cmd fed q' s' fed' H; simpl in H.
  - injection H as <- <- <-. split; reflexivity.
  - unfold bind in H.
    destruct (chan_step i q s cmd) as [[[[q1 s1] c1] f1]|] eqn:C;
      try discriminate.
    apply chan_step_states in C. destruct C as (st & v & G & E).
    apply IH in H. destruct H as [H1 H2]. rewrite H1, H2, E.
    apply get_Ok in G. destruct G as [_ G].
    split; eapply map_set_nth_same; eauto.
Qed.

Lemma skipn_set_nth {A} (l : list A) k m a :
  (k < m)%nat -> skipn m (set_nth l k a) = skipn m l.
Proof.
  revert k m. induction l as [|x l IH]; intros k m H.
  - destruct k; reflexivity.
  - destruct m as [|m]; [lia|]. destruct k as [|k]; simpl; [reflexivity|].
    apply IH. lia.
Qed.

Lemma firstn_skipn_cons {A} (l : list A) k n a :
  nth_error l k = Some a ->
  firstn (S n) (skipn k l) = a :: firstn n (skipn (S k) l).
Proof.
  revert k. induction l as [|x l IH]; intros k H.
  - destruct k; discriminate.
  - destruct k as [|k]; simpl in *.
    + injection H as ->. reflexivity.
    + apply IH in H. exact H.
Qed.

Lemma chan_loop_idle n : forall k q s fed,
  active_cmds s = [] ->
  (k + n <= length (m_states s))%nat ->
  exists s',
    chan_loop n (Z.of_nat k) q s None fed
    = Ok (q, s', fed ++ map idle_feed (firstn n (skipn k (m_states s)))) /\
    frame s s' /\ active_cmds s' = [] /\
    length (m_states s') = length (m_states s).
Proof.
  induction n as [|n IH]; intros k q s fed Ha Hlen.
  - exists s. simpl. rewrite app_nil_r. repeat split; (reflexivity || assumption).
  - assert (Hk : (k < length (m_states s))%nat) by lia.
    destruct (nth_error (m_states s) k) as [st|] eqn:E;
      [|apply nth_error_None in E; lia].
    assert (G : get (m_states s) (Z.of_nat k) = Ok st).
    { apply get_Ok. rewrite Nat2Z.id. split; [lia|exact E]. }
    set (s1 := set_states
                 (set_nth (m_states s) k
                    (State.with_phase (wrap_phase (State.phase st)) st))
                 (set_active_cmds [] s)).
    assert (C : chan_step (Z.of_nat k) q s None = Ok (q, s1, None, idle_feed st)).
    { unfold chan_step. rewrite G. simpl. rewrite Ha. simpl.
      unfold upd_state. simpl. rewrite G. simpl.
      rewrite set_Ok by lia. simpl. rewrite Nat2Z.id. reflexivity. }
    destruct (IH (S k) q s1 (fed ++ [idle_feed st])) as (s' & L & F & A & Len).
    { reflexivity. }
    { unfold s1. simpl. rewrite set_nth_length. lia. }
    exists s'. cbn [chan_loop]. rewrite C. cbn [bind].
    replace (Z.of_nat k + 1) with (Z.of_nat (S k)) by lia.
    rewrite L. split.
    { f_equal. f_equal. rewrite <- app_assoc. f_equal.
      change (m_states s1) with
        (set_nth (m_states s) k
           (State.with_phase (wrap_phase (State.phase st)) st)).
      rewrite skipn_set_nth by lia.
      rewrite (firstn_skipn_cons (m_states s) k n st E). reflexivity. }
    split.
    { eapply frame_trans; [|exact F]. unfold s1. reflexivity. }
    split; [exact A|].
    rewrite Len. unfold s1. simpl. apply set_nth_length.
Qed.

(** ** The start trigger *)

Lemma check_start_ok t id s :
  fst (check_start t id s) = true <->
  id <= m_start_trigger s /\ m_start_trigger_time s <= projected_time s.
Proof.
  unfold check_start. simpl.
  replace (projected_time (set_cur_t t s)) with (projected_time s) by reflexivity.
  destruct (m_start_trigger s <? id) eqn:A.
  - apply Z.ltb_lt in A. simpl. split; [discriminate | lia].
  - apply Z.ltb_ge in A.
    destruct (projected_time s <? m_start_trigger_time s) eqn:B.
    + apply Z.ltb_lt in B. simpl. split; [discriminate | lia].
    + apply Z.ltb_ge in B. simpl. split; auto.
Qed.

Lemma check_start_state t id s :
  snd (check_start t id s)
  = set_slow_mode (negb (fst (check_start t id s))) (set_cur_t t s).
Proof.
  unfold check_start. simpl.
  destruct (m_start_trigger s <? id); [reflexivity|].
  destruct (projected_time (set_cur_t t s) <? m_start_trigger_time s);
    reflexivity.
Qed.

Lemma check_start_underflow t id v s :
  fst (check_start t id (set_cmd_underflow v s)) = fst (check_start t id s).
Proof.
  unfold check_start. simpl.
  change (projected_time (set_cur_t t (set_cmd_underflow v s)))
    with (projected_time (set_cur_t t s)).
  destruct (m_start_trigger s <? id); [reflexivity|].
  destruct (projected_time (set_cur_t t s) <? m_start_trigger_time s);
    reflexivity.
Qed.

Lemma end_trigger_step_keeps out s :
  m_slow_mode (end_trigger_step out s) = m_slow_mode s /\
  m_cur_t (end_trigger_step out s) = m_cur_t s /\
  m_chns (end_trigger_step out s) = m_chns s /\
  m_states (end_trigger_step out s) = m_states s /\
  active_cmds (end_trigger_step out s) = active_cmds s /\
  m_cmd_underflow (end_trigger_step out s) = m_cmd_underflow s.
Proof.
  unfold end_trigger_step.
  destruct (negb (m_end_trigger_waiting s =? 0)).
  - destruct (end_trigger s); simpl; [repeat split|].
    destruct (negb (m_end_trigger_pending s =? 0)); repeat split.
  - destruct (negb (m_end_trigger_pending s =? 0)); repeat split.
Qed.

Lemma is_meta_TriggerStart cmd :
  is_meta cmd TriggerStart = true ->
  is_meta cmd Reset = false /\ is_meta cmd ResetAll = false /\
  is_meta cmd TriggerEnd = false.
Proof. unfold is_meta. rewrite Z.eqb_eq. intros ->. repeat split. Qed.

Lemma step_after_fetch out q s q1 s1 :
  fetch (S (length q)) q s = Ok (q1, s1, None) ->
  active_cmds s1 = [] ->
  0 <= m_chns s1 <= Z.of_nat (length (m_states s1)) ->
  exists s',
    step out q s
    = Ok (q1, s', map idle_feed (firstn (Z.to_nat (m_chns s1)) (m_states s1))) /\
    m_slow_mode s' = m_slow_mode s1 /\
    m_cur_t s' = u32 (m_cur_t s1 + 1) /\
    m_chns s' = m_chns s1 /\
    active_cmds s' = [] /\
    length (m_states s') = length (m_states s1).
Proof.
  intros F Ha Hc.
  destruct (end_trigger_step_keeps out s1) as (K1 & K2 & K3 & K4 & K5 & _).
  destruct (chan_loop_idle (Z.to_nat (m_chns s1)) 0 q1
              (end_trigger_step out s1) [])
    as (s3 & L & Fr & A & Len).
  { rewrite K5. exact Ha. }
  { rewrite K4. lia. }
  apply frame_fields in Fr.
  destruct Fr as (F1 & _ & _ & F4 & F5 & _).
  exists (set_cur_t (u32 (m_cur_t s3 + 1)) s3).
  split.
  - unfold step. rewrite F. cbn [bind]. rewrite K3.
    change (Z.of_nat 0) with 0 in L. rewrite L. cbn [bind].
    rewrite K4. reflexivity.
  - simpl. rewrite F1, F4, F5, K1, K2, K3, Len, K4. auto.
Qed.

Lemma get_set_nth_eq {A} (l : list A) i a :
  0 <= i < Z.of_nat (length l) -> get (set_nth l (Z.to_nat i) a) i = Ok a.
Proof.
  intros H. apply get_Ok. rewrite set_nth_length. split; [exact H|].
  apply nth_error_set_nth_eq. lia.
Qed.

Lemma get_set_nth_ne {A} (l : list A) i j a :
  0 <= i -> j <> i -> get (set_nth l (Z.to_nat i) a) j = get l j.
Proof.
  intros Hi Hne. unfold get, in_range. rewrite set_nth_length.
  destruct ((0 <=? j) && (j <? Z.of_nat (length l))) eqn:R; [|reflexivity].
  apply andb_true_iff in R. destruct R as [R _]. apply Z.leb_le in R.
  rewrite nth_error_set_nth_ne; [reflexivity|]. lia.
Qed.

(** ** Removing a channel *)

Lemma mod_chn_remove cmd s last :
  Cmd.chn cmd <> Cmd.add_chn ->
  1 <= m_chns s < 2 ^ 32 ->
  get (m_states s) (m_chns s - 1) = Ok last ->
  0 <= Cmd.chn cmd < Z.of_nat (length (m_states s)) ->
  mod_chn cmd s
  = Ok (set_states (set_nth (m_states s) (Z.to_nat (Cmd.chn cmd)) last)
          (set_chns (m_chns s - 1) s)).
Proof.
  intros Hne Hc Hlast Hi. unfold mod_chn.
  apply Z.eqb_neq in Hne. rewrite Hne.
  replace (u32 (m_chns s - 1)) with (m_chns s - 1)
    by (unfold u32; rewrite Z.mod_small; lia).
  cbn [m_states m_chns set_chns]. rewrite Hlast. cbn [bind].
  rewrite set_Ok by exact Hi. reflexivity.
Qed.

(** ** The underflow counter in catch-up consumption *)

Lemma mod_chn_underflow cmd s s' :
  mod_chn cmd s = Ok s' -> m_cmd_underflow s' = m_cmd_underflow s.
Proof.
  unfold mod_chn. intros H. crunch H; injection H as <-; reflexivity.
Qed.

Lemma check_start_fields t id s :
  m_cmd_underflow (snd (check_start t id s)) = m_cmd_underflow s /\
  m_end_trigger_pending (snd (check_start t id s)) = m_end_trigger_pending s /\
  m_end_trigger_waiting (snd (check_start t id s)) = m_end_trigger_waiting s /\
  m_end_triggered (snd (check_start t id s)) = m_end_triggered s /\
  m_end_trigger (snd (check_start t id s)) = m_end_trigger s.
Proof. rewrite check_start_state. repeat split. Qed.

Lemma apply_old_underflow cmd s s' b :
  is_ResetAll cmd = false ->
  apply_old cmd s = Ok (s', b) ->
  m_cmd_underflow s' = m_cmd_underflow s.
Proof.
  unfold is_ResetAll, apply_old. intros NR H.
  destruct (Cmd.op cmd) as [o|] eqn:O.
  - assert (Ho := proj1 (op_is_op cmd o) O).
    destruct o; unfold bind in H;
      try (rewrite Ho in NR; simpl in NR; rewrite NR in H);
      repeat match type of H with
        | context [upd_state ?i ?f ?x] =>
            let U := fresh "U" in
            destruct (upd_state i f x) eqn:U; [apply upd_state_frame in U;
              destruct U as (U & _); apply frame_fields in U|discriminate]
        | context [old_ramp ?c ?x] =>
            let U := fresh "R" in
            destruct (old_ramp c x) as [[? ?]|] eqn:U;
              [apply old_ramp_frame in U; destruct U as (U & _);
               apply frame_fields in U|discriminate]
        | context [mod_chn ?c ?x] =>
            let U := fresh "M" in
            destruct (mod_chn c x) eqn:U;
              [apply mod_chn_underflow in U|discriminate]
        | context [if ?c then _ else _] => destruct c
        end;
      try discriminate;
      injection H as <- <-; try reflexivity;
      try (apply check_start_fields);
      try tauto; try (destruct R as (_&_&_&_&_&R&_); destruct U as (_&_&_&_&_&U&_); congruence);
      try assumption.
  - injection H as <- <-. reflexivity.
Qed.

Lemma consume_loop_underflow q : forall s q1 s1 r,
  Forall (fun c => is_ResetAll c = false) q ->
  consume_loop q s = Ok (q1, s1, r) ->
  m_cmd_underflow s1 = m_cmd_underflow s.
Proof.
  induction q as [|cmd q IH]; intros s q1 s1 r Hall H; simpl in H.
  - injection H as <- <- <-. reflexivity.
  - inversion Hall as [|? ? Hc Hq]; subst.
    destruct (Cmd.t cmd =? m_cur_t s); [injection H as <- <- <-; reflexivity|].
    destruct (Cmd.t cmd >? m_cur_t s); [injection H as <- <- <-; reflexivity|].
    unfold bind in H.
    destruct (apply_old cmd s) as [[s' go]|] eqn:A; [|discriminate].
    apply apply_old_underflow in A; [|exact Hc].
    destruct go.
    + apply IH in H; [|exact Hq]. congruence.
    + injection H as <- <- <-. exact A.
Qed.

(** ** What is left of the pipe *)

Lemma suffix_refl q : suffix q q.
Proof. exists []. reflexivity. Qed.

Lemma suffix_tl q' q : suffix q' q -> suffix (tl q') q.
Proof.
  intros [pre ->]. destruct q' as [|c q']; [exists pre; reflexivity|].
  exists (pre ++ [c]). rewrite <- app_assoc. reflexivity.
Qed.

Lemma suffix_cons c q' q : suffix q' q -> suffix q' (c :: q).
Proof. intros [pre ->]. exists (c :: pre). reflexivity. Qed.

Lemma suffix_trans q1 q2 q3 : suffix q1 q2 -> suffix q2 q3 -> suffix q1 q3.
Proof.
  intros [p1 ->] [p2 ->]. exists (p2 ++ p1). now rewrite app_assoc.
Qed.

Lemma suffix_incl q' q : suffix q' q -> incl q' q.
Proof. intros [pre ->] c H. apply in_or_app. auto. Qed.

Lemma suffix_length q' q : suffix q' q -> (length q' <= length q)%nat.
Proof. intros [pre ->]. rewrite length_app. lia. Qed.

Lemma consume_loop_suffix q : forall s q1 s1 r,
  consume_loop q s = Ok (q1, s1, r) -> suffix q1 q.
Proof.
  induction q as [|cmd q IH]; intros s q1 s1 r H; simpl in H.
  - injection H as <- <- <-. apply suffix_refl.
  - destruct (Cmd.t cmd =? m_cur_t s); [injection H as <- <- <-; apply suffix_refl|].
    destruct (Cmd.t cmd >? m_cur_t s); [injection H as <- <- <-; apply suffix_refl|].
    unfold bind in H.
    destruct (apply_old cmd s) as [[s' go]|]; [|discriminate].
    destruct go.
    + apply IH in H. apply suffix_cons. exact H.
    + injection H as <- <- <-. apply suffix_refl.
Qed.

Lemma modchn_loop_suffix q : forall s q1 s1 r,
  modchn_loop q s = Ok (q1, s1, r) -> suffix q1 q.
Proof.
  induction q as [|cmd q IH]; intros s q1 s1 r H; simpl in H.
  - injection H as <- <- <-. apply suffix_refl.
  - destruct (is_op cmd ModChn); [|injection H as <- <- <-; apply suffix_refl].
    unfold bind in H. destruct (mod_chn cmd s) as [s'|]; [|discriminate].
    destruct (get_cmd_curt q s').
    + apply IH in H. apply suffix_cons. exact H.
    + injection H as <- <- <-. apply suffix_cons, suffix_refl.
Qed.

Lemma fetch_suffix fuel : forall q s q1 s1 r,
  fetch fuel q s = Ok (q1, s1, r) -> suffix q1 q.
Proof.
  induction fuel as [|fuel IH]; intros q s q1 s1 r H; simpl in H;
    [discriminate|].
  destruct (get_cmd_curt q s) as [cmd0|]; [|injection H as <- <- <-; apply suffix_refl].
  unfold bind in H.
  destruct (if Cmd.t cmd0 <? m_cur_t s then _ else _)
    as [[[qa sa] oc]|] eqn:E; [|discriminate].
  assert (Sa : suffix qa q).
  { destruct (Cmd.t cmd0 <? m_cur_t s).
    - unfold consume_old_cmds in E. destruct (get_cmd q); [|discriminate].
      apply consume_loop_suffix in E. exact E.
    - injection E as <- <- <-. apply suffix_refl. }
  destruct oc as [cmd|]; [|injection H as <- <- <-; exact Sa].
  destruct (Cmd.t cmd >? m_cur_t sa); [injection H as <- <- <-; exact Sa|].
  destruct (is_op cmd Meta).
  - repeat match type of H with
      | (if ?c then _ else _) = _ => destruct c
      end;
      try (apply IH in H; eapply suffix_trans; [exact H|]; apply suffix_tl; exact Sa).
    injection H as <- <- <-. exact Sa.
  - apply modchn_loop_suffix in H. eapply suffix_trans; eauto.
Qed.

Lemma apply_due_suffix i q : forall s l q' s' c l',
  apply_due i q s l = Ok (q', s', c, l') -> suffix q' q.
Proof.
  induction q as [|cmd q IH]; intros s l q' s' c l' H; simpl in H.
  - injection H as <- <- <- <-. apply suffix_refl.
  - unfold bind in H.
    destruct (if is_op cmd FreqSet then _ else _) as [[[s1 l1]|]|];
      try discriminate.
    + destruct (get_cmd_curt q s1).
      * destruct (Cmd.chn t =? i).
        -- apply IH in H. apply suffix_cons. exact H.
        -- injection H as <- <- <- <-. apply suffix_cons, suffix_refl.
      * injection H as <- <- <- <-. apply suffix_cons, suffix_refl.
    + injection H as <- <- <- <-. apply suffix_refl.
Qed.

Lemma chan_step_suffix i q s cmd q' s' cmd' f :
  chan_step i q s cmd = Ok (q', s', cmd', f) -> suffix q' q.
Proof.
  unfold chan_step. intros H. unfold bind in H.
  destruct (get (m_states s) i) as [state|]; try discriminate.
  destruct (scan_active _ _ _ _) as [[acts l]|]; try discriminate.
  match type of H with
  | match ?m with _ => _ end = _ => destruct m as [[[[q1 s1] c1] l1]|] eqn:M
  end; try discriminate.
  destruct (upd_state _ _ s1) as [s2|]; try discriminate.
  injection H as <- <- <- <-.
  destruct cmd as [c|].
  - destruct (negb (Cmd.chn c =? i)).
    + injection M as <- <- <- <-. apply suffix_refl.
    + apply apply_due_suffix in M. exact M.
  - injection M as <- <- <- <-. apply suffix_refl.
Qed.

Lemma chan_loop_suffix n : forall i q s cmd fed q' s' fed',
  chan_loop n i q s cmd fed = Ok (q', s', fed') -> suffix q' q.
Proof.
  induction n as [|n IH]; intros i q s cmd fed q' s' fed' H; simpl in H.
  - injection H as <- <- <-. apply suffix_refl.
  - unfold bind in H.
    destruct (chan_step i q s cmd) as [[[[q1 s1] c1] f1]|] eqn:C;
      try discriminate.
    apply chan_step_suffix in C. apply IH in H.
    eapply suffix_trans; eauto.
Qed.

Lemma step_suffix out q s q' s' fed :
  step out q s = Ok (q', s', fed) -> suffix q' q.
Proof.
  unfold step. intros H. unfold bind in H.
  destruct (fetch _ q s) as [[[q1 s1] cmd]|] eqn:F; [|discriminate].
  destruct (chan_loop _ _ _ _ _ _) as [[[q3 s3] fed3]|] eqn:C; [|discriminate].
  injection H as <- <- <-.
  apply fetch_suffix in F. apply chan_loop_suffix in C.
  eapply suffix_trans; eauto.
Qed.

(** ** The end-trigger fields *)

Lemma trig_step_refl q s : trig_step q s s.
Proof. unfold trig_step. auto. Qed.

Lemma trig_step_incl q q' s s' :
  incl q q' -> trig_step q s s' -> trig_step q' s s'.
Proof.
  intros I (A & B & C & D). repeat split; auto.
  destruct D as [D|(c & Hc & D)]; [auto|]. right. exists c. auto.
Qed.

Lemma trig_step_trans q s1 s2 s3 :
  trig_step q s1 s2 -> trig_step q s2 s3 -> trig_step q s1 s3.
Proof.
  intros (A & B & C & D) (A' & B' & C' & D').
  repeat split; try congruence.
  destruct D' as [D'|D']; [|right; exact D'].
  destruct D as [D|(c & Hc & T & D)]; [left; congruence|].
  right. exists c. repeat split; auto. congruence.
Qed.

Lemma frame_trig_step q s s' : frame s s' -> trig_step q s s'.
Proof.
  intros F. apply frame_fields in F.
  destruct F as (_ & F2 & F3 & _ & _ & _ & F7 & F8).
  unfold trig_step. auto.
Qed.

Lemma mod_chn_trig_step q cmd s s' :
  mod_chn cmd s = Ok s' -> trig_step q s s'.
Proof.
  unfold mod_chn. intros H.
  crunch H; injection H as <-; unfold trig_step; simpl; auto.
Qed.

Lemma check_start_trig_step q t id s :
  trig_step q s (snd (check_start t id s)).
Proof.
  destruct (check_start_fields t id s) as (_ & A & B & C & D).
  unfold trig_step. auto.
Qed.

Lemma apply_old_trig_step cmd s s' b :
  apply_old cmd s = Ok (s', b) -> trig_step [cmd] s s'.
Proof.
  unfold apply_old. intros H.
  destruct (Cmd.op cmd) as [o|] eqn:O.
  - assert (Ho := proj1 (op_is_op cmd o) O).
    destruct o; unfold bind in H;
      repeat match type of H with
        | context [upd_state ?i ?f ?x] =>
            let U := fresh "U" in
            destruct (upd_state i f x) eqn:U; [apply upd_state_frame in U;
              destruct U as (U & _); apply (frame_trig_step [cmd]) in U|discriminate]
        | context [old_ramp ?c ?x] =>
            let U := fresh "R" in
            destruct (old_ramp c x) as [[? ?]|] eqn:U;
              [apply old_ramp_frame in U; destruct U as (U & _);
               apply (frame_trig_step [cmd]) in U|discriminate]
        | context [mod_chn ?c ?x] =>
            let U := fresh "M" in
            destruct (mod_chn c x) eqn:U;
              [apply (mod_chn_trig_step [cmd]) in U|discriminate]
        | context [if ?c then _ else _] => destruct c eqn:?
        end;
      try discriminate;
      injection H as <- <-;
      try apply trig_step_refl;
      try apply check_start_trig_step;
      try assumption;
      try (eapply trig_step_trans; eassumption);
      try (unfold trig_step; simpl; repeat split; left; reflexivity).
    unfold trig_step. simpl. repeat split. right. exists cmd.
    split; [left; reflexivity|]. split; [|reflexivity].
    unfold is_TriggerEnd. rewrite Ho. simpl. assumption.
  - injection H as <- <-. apply trig_step_refl.
Qed.

Lemma consume_loop_trig_step q : forall s q1 s1 r,
  consume_loop q s = Ok (q1, s1, r) -> trig_step q s s1.
Proof.
  induction q as [|cmd q IH]; intros s q1 s1 r H; simpl in H.
  - injection H as <- <- <-. apply trig_step_refl.
  - destruct (Cmd.t cmd =? m_cur_t s); [injection H as <- <- <-; apply trig_step_refl|].
    destruct (Cmd.t cmd >? m_cur_t s); [injection H as <- <- <-; apply trig_step_refl|].
    unfold bind in H.
    destruct (apply_old cmd s) as [[s' go]|] eqn:A; [|discriminate].
    apply apply_old_trig_step in A.
    apply (trig_step_incl _ (cmd :: q)) in A;
      [|intros c [<-|[]]; left; reflexivity].
    destruct go.
    + apply IH in H. eapply trig_step_trans; [exact A|].
      eapply trig_step_incl; [|exact H]. apply incl_tl, incl_refl.
    + injection H as <- <- <-. exact A.
Qed.

Lemma modchn_loop_trig_step q : forall s q1 s1 r,
  modchn_loop q s = Ok (q1, s1, r) -> trig_step q s s1.
Proof.
  induction q as [|cmd q IH]; intros s q1 s1 r H; simpl in H.
  - injection H as <- <- <-. apply trig_step_refl.
  - destruct (is_op cmd ModChn); [|injection H as <- <- <-; apply trig_step_refl].
    unfold bind in H. destruct (mod_chn cmd s) as [s'|] eqn:M; [|discriminate].
    apply (mod_chn_trig_step (cmd :: q)) in M.
    destruct (get_cmd_curt q s').
    + apply IH in H. eapply trig_step_trans; [exact M|].
      eapply trig_step_incl; [|exact H]. apply incl_tl, incl_refl.
    + injection H as <- <- <-. exact M.
Qed.

Lemma set_pending_trig_step q cmd s :
  In cmd q -> is_op cmd Meta = true -> is_meta cmd TriggerEnd = true ->
  trig_step q s (set_end_trigger_pending (u32 (Cmd.final_val cmd)) s).
Proof.
  intros I O M. unfold trig_step. simpl. repeat split. right.
  exists cmd. unfold is_TriggerEnd. rewrite O, M. auto.
Qed.

Lemma get_cmd_curt_head q s c : get_cmd_curt q s = Some c -> hd_error q = Some c.
Proof.
  unfold get_cmd_curt, get_cmd. destruct (hd_error q); [|discriminate].
  destruct (Cmd.t t <=? m_cur_t s); [auto|discriminate].
Qed.

Lemma consume_loop_head q : forall s q1 s1 c,
  consume_loop q s = Ok (q1, s1, Some c) -> hd_error q1 = Some c.
Proof.
  induction q as [|c0 q IH]; intros s q1 s1 c H; simpl in H; [discriminate|].
  destruct (Cmd.t c0 =? m_cur_t s); [injection H as <- <- <-; reflexivity|].
  destruct (Cmd.t c0 >? m_cur_t s); [discriminate|].
  unfold bind in H. destruct (apply_old c0 s) as [[s' go]|]; [|discriminate].
  destruct go; [|discriminate]. eapply IH. exact H.
Qed.

Lemma hd_error_In {A} (l : list A) a : hd_error l = Some a -> In a l.
Proof. destruct l; [discriminate|]. intros [= ->]. left. reflexivity. Qed.

(** The first phase of [fetch]: the backlog is consumed when the first
    command is stale. *)
Lemma fetch_first q s cmd0 qa sa oc :
  get_cmd_curt q s = Some cmd0 ->
  (if Cmd.t cmd0 <? m_cur_t s then consume_old_cmds q s
   else Ok (q, s, Some cmd0)) = Ok (qa, sa, oc) ->
  suffix qa q /\ trig_step q s sa /\
  (forall c, oc = Some c -> hd_error qa = Some c).
Proof.
  intros G E. destruct (Cmd.t cmd0 <? m_cur_t s).
  - unfold consume_old_cmds in E. destruct (get_cmd q); [|discriminate].
    split; [eapply consume_loop_suffix; eauto|]. split.
    + apply consume_loop_trig_step in E. destruct (Cmd.t t =? 0); exact E.
    + intros c ->. eapply consume_loop_head. exact E.
  - injection E as <- <- <-. split; [apply suffix_refl|].
    split; [apply trig_step_refl|]. intros c [= <-].
    eapply get_cmd_curt_head. exact G.
Qed.

Lemma fetch_trig_step fuel : forall q s q1 s1 r,
  fetch fuel q s = Ok (q1, s1, r) -> trig_step q s s1.
Proof.
  induction fuel as [|fuel IH]; intros q s q1 s1 r H; simpl in H;
    [discriminate|].
  destruct (get_cmd_curt q s) as [cmd0|] eqn:G;
    [|injection H as <- <- <-; apply trig_step_refl].
  unfold bind in H.
  destruct (if Cmd.t cmd0 <? m_cur_t s then _ else _)
    as [[[qa sa] oc]|] eqn:E; [|discriminate].
  destruct (fetch_first q s cmd0 qa sa oc G E) as (Sa & Ta & Ha).
  destruct oc as [cmd|]; [|injection H as <- <- <-; exact Ta].
  specialize (Ha cmd eq_refl).
  assert (Hin : In cmd q).
  { apply (suffix_incl _ _ Sa). apply hd_error_In. exact Ha. }
  assert (Inc : incl (cmd_next qa) q).
  { apply suffix_incl. apply suffix_tl. exact Sa. }
  destruct (Cmd.t cmd >? m_cur_t sa); [injection H as <- <- <-; exact Ta|].
  destruct (is_op cmd Meta) eqn:O.
  - destruct (is_meta cmd Reset).
    { apply IH in H. apply (trig_step_incl _ q) in H; [|exact Inc].
      eapply trig_step_trans; [exact Ta|].
      eapply trig_step_trans; [|exact H].
      unfold trig_step; simpl; auto. }
    destruct (is_meta cmd ResetAll).
    { apply IH in H. apply (trig_step_incl _ q) in H; [|exact Inc].
      eapply trig_step_trans; [exact Ta|].
      eapply trig_step_trans; [|exact H].
      unfold trig_step; simpl; auto. }
    destruct (is_meta cmd TriggerEnd) eqn:M.
    { apply IH in H. apply (trig_step_incl _ q) in H; [|exact Inc].
      eapply trig_step_trans; [exact Ta|].
      eapply trig_step_trans; [|exact H].
      apply set_pending_trig_step; assumption. }
    destruct (is_meta cmd TriggerStart).
    { destruct (fst (check_start _ _ sa)).
      - apply IH in H. apply (trig_step_incl _ q) in H; [|exact Inc].
        eapply trig_step_trans; [exact Ta|].
        eapply trig_step_trans; [|exact H].
        apply check_start_trig_step.
      - injection H as <- <- <-.
        eapply trig_step_trans; [exact Ta|]. apply check_start_trig_step. }
    apply IH in H. apply (trig_step_incl _ q) in H; [|exact Inc].
    eapply trig_step_trans; eauto.
  - apply modchn_loop_trig_step in H.
    eapply trig_step_trans; [exact Ta|].
    eapply trig_step_incl; [|exact H]. apply suffix_incl. exact Sa.
Qed.

Lemma end_trigger_step_fields out s :
  let publish := negb (m_end_trigger_waiting s =? 0) &&
                 match end_trigger s with None => true | Some _ => false end in
  let reload := (m_end_trigger_waiting s =? 0) || publish in
  let s' := end_trigger_step out s in
  m_end_triggered s'
  = (if publish then m_end_trigger_waiting s else m_end_triggered s) /\
  m_end_trigger_waiting s'
  = (if reload then m_end_trigger_pending s else m_end_trigger_waiting s) /\
  m_end_trigger s'
  = (if reload && negb (m_end_trigger_pending s =? 0) then Some out
     else m_end_trigger s) /\
  m_end_trigger_pending s'
  = (if m_end_trigger_waiting s =? 0 then 0 else m_end_trigger_pending s).
Proof.
  unfold end_trigger_step, end_trigger.
  destruct (m_end_trigger_waiting s =? 0) eqn:W; simpl.
  - destruct (m_end_trigger_pending s =? 0) eqn:P; simpl.
    + apply Z.eqb_eq in W, P. repeat split; congruence.
    + repeat split.
  - destruct (m_end_trigger s) eqn:T; simpl.
    + rewrite T. repeat split.
    + destruct (m_end_trigger_pending s =? 0) eqn:P; simpl; rewrite ?T; repeat split.
Qed.

Lemma step_trigger_fields out q s q' s' fed :
  step out q s = Ok (q', s', fed) ->
  exists p1,
    (p1 = m_end_trigger_pending s \/
     exists c, In c q /\ is_TriggerEnd c = true /\ p1 = u32 (Cmd.final_val c)) /\
    let publish := negb (m_end_trigger_waiting s =? 0) &&
                   match end_trigger s with None => true | Some _ => false end in
    let reload := (m_end_trigger_waiting s =? 0) || publish in
    m_end_triggered s'
    = (if publish then m_end_trigger_waiting s else m_end_triggered s) /\
    m_end_trigger_waiting s'
    = (if reload then p1 else m_end_trigger_waiting s) /\
    end_trigger s'
    = (if reload && negb (p1 =? 0) then Some out else end_trigger s) /\
    m_end_trigger_pending s'
    = (if m_end_trigger_waiting s =? 0 then 0 else p1).
Proof.
  unfold step. intros H. unfold bind in H.
  destruct (fetch _ q s) as [[[q1 s1] cmd]|] eqn:F; [|discriminate].
  destruct (chan_loop _ _ _ _ _ _) as [[[q3 s3] fed3]|] eqn:C; [|discriminate].
  injection H as <- <- <-.
  apply fetch_trig_step in F. destruct F as (W & T & E & Pn).
  apply chan_loop_frame in C. destruct C as [C _].
  apply frame_fields in C.
  destruct C as (_ & C2 & C3 & _ & _ & _ & C7 & C8).
  destruct (end_trigger_step_fields out s1) as (A1 & A2 & A3 & A4).
  exists (m_end_trigger_pending s1). split; [exact Pn|].
  unfold end_trigger in *. cbn [m_end_triggered m_end_trigger_waiting
    m_end_trigger m_end_trigger_pending set_cur_t].
  rewrite C2, C3, C7, C8, A1, A2, A3, A4, W, T, E. auto.
Qed.

(** ** Commands the step does not apply *)

Lemma op_None_is_op cmd o : Cmd.op cmd = None -> is_op cmd o = false.
Proof.
  intros H. destruct (is_op cmd o) eqn:E; [|reflexivity].
  apply op_is_op in E. congruence.
Qed.

Lemma op_None_live_ignored cmd : Cmd.op cmd = None -> live_ignored cmd = true.
Proof.
  intros H. unfold live_ignored, is_freq_ramp, is_amp_ramp.
  rewrite !(op_None_is_op cmd _ H). reflexivity.
Qed.

Lemma apply_due_ignored i cmd q' s l :
  live_ignored cmd = true ->
  apply_due i (cmd :: q') s l = Ok (cmd :: q', s, Some cmd, l).
Proof.
  unfold live_ignored. intros H. apply negb_true_iff in H.
  apply orb_false_iff in H. destruct H as [H H4].
  apply orb_false_iff in H. destruct H as [H H3].
  apply orb_false_iff in H. destruct H as [H1 H2].
  cbn [apply_due]. rewrite H1, H2, H3, H4. reflexivity.
Qed.

Lemma chan_step_skip i cmd q' s :
  live_ignored cmd = true \/ Cmd.chn cmd <> i ->
  chan_step i (cmd :: q') s (Some cmd)
  = match chan_step i [] s None with
    | Ok (_, s', _, f) => Ok (cmd :: q', s', Some cmd, f)
    | Fault e => Fault e
    end.
Proof.
  intros H. unfold chan_step.
  destruct (get (m_states s) i) as [state|]; [|reflexivity]. cbn [bind].
  destruct (scan_active _ _ _ _) as [[acts l]|]; [|reflexivity]. cbn [bind].
  destruct (Cmd.chn cmd =? i) eqn:E; cbn [negb].
  - destruct H as [H|H]; [|apply Z.eqb_eq in E; contradiction].
    rewrite apply_due_ignored by exact H. cbn [bind].
    destruct (upd_state _ _ _); reflexivity.
  - cbn [bind]. destruct (upd_state _ _ _); reflexivity.
Qed.

Lemma chan_loop_skip n : forall i cmd q' s fed,
  live_ignored cmd = true \/ ~ (i <= Cmd.chn cmd < i + Z.of_nat n) ->
  chan_loop n i (cmd :: q') s (Some cmd) fed
  = match chan_loop n i [] s None fed with
    | Ok (_, s', fed') => Ok (cmd :: q', s', fed')
    | Fault e => Fault e
    end.
Proof.
  induction n as [|n IH]; intros i cmd q' s fed H; [reflexivity|].
  cbn [chan_loop]. rewrite chan_step_skip.
  - destruct (chan_step i [] s None) as [[[[q1 s1] c1] f1]|] eqn:C;
      [|reflexivity].
    cbn [bind].
    assert (q1 = [] /\ c1 = None) as [-> ->].
    { unfold chan_step in C. unfold bind in C.
      destruct (get (m_states s) i); [|discriminate].
      destruct (scan_active _ _ _ _) as [[acts l]|]; [|discriminate].
      destruct (upd_state _ _ _); [|discriminate].
      injection C as <- _ <- _. auto. }
    apply IH. destruct H as [H|H]; [left; exact H|right; lia].
  - destruct H as [H|H]; [left; exact H|right; lia].
Qed.

(** A command due now that the step neither handles as [Meta] or [ModChn]
    nor applies in the channel loop: the step runs exactly as on an empty
    pipe and the command stays where it is. *)
Lemma step_skip out cmd q' s :
  Cmd.t cmd = m_cur_t s ->
  is_op cmd Meta = false -> is_op cmd ModChn = false ->
  live_ignored cmd = true \/ (0 <= m_chns s /\ m_chns s <= Cmd.chn cmd) ->
  step out (cmd :: q') s
  = match step out [] s with
    | Ok (_, s', fed) => Ok (cmd :: q', s', fed)
    | Fault e => Fault e
    end.
Proof.
  intros Ht NM NC H.
  assert (Sk : live_ignored cmd = true \/
               ~ (0 <= Cmd.chn cmd < 0 + Z.of_nat (Z.to_nat (m_chns s)))).
  { destruct H as [H|[Hc H]]; [left; exact H|].
    right. rewrite Z2Nat.id by exact Hc. lia. }
  unfold step. cbn [length fetch].
  unfold get_cmd_curt. cbn [get_cmd hd_error].
  rewrite Ht, Z.leb_refl. cbv iota. rewrite Ht, Z.ltb_irrefl. cbn [bind].
  rewrite Ht, Z.gtb_ltb, Z.ltb_irrefl, NM. cbn [modchn_loop]. rewrite NC.
  cbn [bind].
  destruct (end_trigger_step_keeps out s) as (_ & _ & K3 & _).
  rewrite chan_loop_skip by (rewrite K3; exact Sk).
  destruct (chan_loop _ _ _ _ _ _) as [[[q3 s3] fed3]|]; reflexivity.
Qed.

(** In particular an amplitude setting due now is not applied by the step,
    whatever channel it addresses. *)
Lemma step_AmpSet_skipped out cmd q' s :
  is_op cmd AmpSet = true -> Cmd.t cmd = m_cur_t s ->
  step out (cmd :: q') s
  = match step out [] s with
    | Ok (_, s', fed) => Ok (cmd :: q', s', fed)
    | Fault e => Fault e
    end.
Proof.
  intros Ho Ht. unfold is_op in Ho. apply Z.eqb_eq in Ho.
  apply step_skip; try exact Ht;
    try (left; unfold live_ignored, is_freq_ramp, is_amp_ramp);
    unfold is_op; rewrite Ho; reflexivity.
Qed.

(** ** The phase wrap-around *)

Lemma wrap_phase_always p :
  - 2 ^ 63 <= p < 2 ^ 63 -> wrap_phase p = i64 (u64 p mod max_phase).
Proof.
  intros H. unfold wrap_phase.
  assert (B : 0 <= u64 p < 2 ^ 64) by (unfold u64; apply Z.mod_pos_bound; lia).
  change (u64 (- max_phase)) with 18446744067459551616.
  unfold max_phase in *.
  destruct (u64 p >? 6250000000) eqn:A; [reflexivity|].
  destruct (u64 p <? 18446744067459551616) eqn:C; [reflexivity|].
  rewrite Z.gtb_ltb in A. apply Z.ltb_ge in A, C. lia.
Qed.

Lemma wrap_phase_nonneg p :
  0 <= p < 2 ^ 63 -> wrap_phase p = p mod max_phase.
Proof.
  intros H. rewrite wrap_phase_always by lia.
  assert (U : u64 p = p) by (unfold u64; apply Z.mod_small; lia).
  rewrite U.
  assert (B : 0 <= p mod max_phase < max_phase)
    by (apply Z.mod_pos_bound; reflexivity).
  unfold max_phase in *. unfold i64. rewrite Z.mod_small; lia.
Qed.

(** ** Vector ramps read inside their table while time runs forward *)

Lemma vec_eval_in_table a cur :
  is_vec (m_cmd a) = true ->
  0 <= Cmd.t (m_cmd a) <= cur -> cur < 2 ^ 32 ->
  (Cmd.t (m_cmd a) + Cmd.len (m_cmd a) >? cur) = true ->
  Cmd.len (m_cmd a) < 2 ^ 32 ->
  Cmd.len (m_cmd a) + 1 <= Z.of_nat (length (vals a)) ->
  exists v0 v1,
    let k := u32 (cur - Cmd.t (m_cmd a)) in
    k <= Cmd.len (m_cmd a) - 1 /\
    get (vals a) k = Ok v0 /\ get (vals a) (k + 1) = Ok v1 /\
    eval a k = Ok (a, (v0, i32 (v1 - v0))).
Proof.
  intros V Ht Hc G Hl L. rewrite Z.gtb_ltb in G. apply Z.ltb_lt in G.
  assert (K : u32 (cur - Cmd.t (m_cmd a)) = cur - Cmd.t (m_cmd a))
    by (unfold u32; apply Z.mod_small; lia).
  destruct (get_in_range (vals a) (cur - Cmd.t (m_cmd a))) as [v0 G0]; [lia|].
  destruct (get_in_range (vals a) (cur - Cmd.t (m_cmd a) + 1)) as [v1 G1]; [lia|].
  exists v0, v1. cbv zeta. rewrite K.
  split; [lia|]. split; [exact G0|]. split; [exact G1|].
  unfold eval. rewrite V, G0. cbn [bind].
  replace (u32 (cur - Cmd.t (m_cmd a) + 1)) with (cur - Cmd.t (m_cmd a) + 1)
    by (unfold u32; rewrite Z.mod_small; lia).
  rewrite G1. reflexivity.
Qed.

(** ** The bound on [retry] is never reached *)

Lemma get_no_fuel {A} (l : list A) i : get l i <> Fault OutOfFuel.
Proof.
  unfold get. destruct (in_range l i); [|discriminate].
  destruct (nth_error l (Z.to_nat i)); discriminate.
Qed.

Lemma set_no_fuel {A} (l : list A) i a : set l i a <> Fault OutOfFuel.
Proof. unfold set. destruct (in_range l i); discriminate. Qed.

Lemma upd_state_no_fuel i f s : upd_state i f s <> Fault OutOfFuel.
Proof.
  unfold upd_state.
  destruct (get (m_states s) i) as [?|[]] eqn:E; cbn [bind]; try discriminate.
  - destruct (set (m_states s) i (f a)) as [?|[]] eqn:E2; cbn [bind];
      try discriminate. exfalso. eapply set_no_fuel; eauto.
  - exfalso. eapply get_no_fuel; eauto.
Qed.

Lemma new_activeCmd_no_fuel cmd : new_activeCmd cmd <> Fault OutOfFuel.
Proof.
  unfold new_activeCmd. destruct (is_vec cmd); [|discriminate].
  destruct (Cmd.fnptr cmd); discriminate.
Qed.

Lemma eval_no_fuel a t : eval a t <> Fault OutOfFuel.
Proof.
  unfold eval. destruct (is_vec (m_cmd a)).
  - destruct (get (vals a) t) as [?|[]] eqn:E; cbn [bind]; try discriminate.
    + destruct (get (vals a) (u32 (t + 1))) as [?|[]] eqn:E2; cbn [bind];
        try discriminate. exfalso. eapply get_no_fuel; eauto.
    + exfalso. eapply get_no_fuel; eauto.
  - destruct (is_scalar (m_cmd a)); [|discriminate].
    destruct (Cmd.fnptr (m_cmd a)); try discriminate.
    match goal with |- bind ?m _ <> _ => destruct m as [?|[]] eqn:E end;
      cbn [bind]; try discriminate.
    + match goal with |- bind ?m _ <> _ => destruct m as [?|[]] eqn:E2 end;
        cbn [bind]; try discriminate. exfalso. eapply get_no_fuel; eauto.
    + exfalso. eapply get_no_fuel; eauto.
Qed.

Lemma ramp_no_fuel cmd s :
  old_ramp cmd s <> Fault OutOfFuel /\ new_ramp cmd s <> Fault OutOfFuel.
Proof.
  unfold old_ramp, new_ramp.
  destruct (Cmd.t cmd + Cmd.len cmd >? m_cur_t s); [|split; discriminate].
  destruct (new_activeCmd cmd) as [a|[]] eqn:N; cbn [bind];
    try (split; discriminate).
  - destruct (eval a (u32 (m_cur_t s - Cmd.t cmd))) as [[a' [v dv]]|[]] eqn:E;
      cbn [bind]; try (split; discriminate).
    exfalso. eapply eval_no_fuel; eauto.
  - exfalso. eapply new_activeCmd_no_fuel; eauto.
Qed.

Lemma mod_chn_no_fuel cmd s : mod_chn cmd s <> Fault OutOfFuel.
Proof.
  unfold mod_chn. destruct (Cmd.chn cmd =? Cmd.add_chn).
  - match goal with |- bind ?m _ <> _ => destruct m as [?|[]] eqn:E end;
      cbn [bind]; try discriminate. exfalso. eapply set_no_fuel; eauto.
  - cbv zeta.
    match goal with |- bind ?m _ <> _ => destruct m as [?|[]] eqn:E end;
      cbn [bind]; try discriminate.
    + match goal with |- bind ?m _ <> _ => destruct m as [?|[]] eqn:E2 end;
        cbn [bind]; try discriminate. exfalso. eapply set_no_fuel; eauto.
    + exfalso. eapply get_no_fuel; eauto.
Qed.

Lemma bind_no_fuel {A B} (m : result A) (k : A -> result B) :
  m <> Fault OutOfFuel -> (forall a, k a <> Fault OutOfFuel) ->
  bind m k <> Fault OutOfFuel.
Proof.
  intros Hm Hk. destruct m as [a|e]; simpl; [apply Hk|].
  intros [= ->]. apply Hm. reflexivity.
Qed.

Lemma apply_old_no_fuel cmd s : apply_old cmd s <> Fault OutOfFuel.
Proof.
  unfold apply_old.
  destruct (Cmd.op cmd) as [[]|];
    repeat first
      [ discriminate
      | apply upd_state_no_fuel
      | apply mod_chn_no_fuel
      | apply (proj1 (ramp_no_fuel _ _))
      | apply bind_no_fuel
      | match goal with
        | |- forall _ : _ * _, _ => intros [? ?]
        | |- forall _ : Stream, _ => intro
        | |- (if ?c then _ else _) <> _ => destruct c
        end ].
Qed.

Lemma consume_loop_no_fuel q : forall s, consume_loop q s <> Fault OutOfFuel.
Proof.
  induction q as [|cmd q IH]; intros s; simpl; [discriminate|].
  destruct (Cmd.t cmd =? m_cur_t s); [discriminate|].
  destruct (Cmd.t cmd >? m_cur_t s); [discriminate|].
  apply bind_no_fuel; [apply apply_old_no_fuel|].
  intros [s' go]. destruct go; [apply IH | discriminate].
Qed.

Lemma consume_old_cmds_no_fuel q s : consume_old_cmds q s <> Fault OutOfFuel.
Proof.
  unfold consume_old_cmds. destruct (get_cmd q); [|discriminate].
  apply consume_loop_no_fuel.
Qed.

Lemma modchn_loop_no_fuel q : forall s, modchn_loop q s <> Fault OutOfFuel.
Proof.
  induction q as [|cmd q IH]; intros s; simpl; [discriminate|].
  destruct (is_op cmd ModChn); [|discriminate].
  apply bind_no_fuel; [apply mod_chn_no_fuel|].
  intros s'. destruct (get_cmd_curt q s'); [apply IH | discriminate].
Qed.

Lemma fetch_no_fuel fuel : forall q s,
  (length q < fuel)%nat -> fetch fuel q s <> Fault OutOfFuel.
Proof.
  induction fuel as [|fuel IH]; intros q s Hlen; [lia|].
  cbn [fetch]. destruct (get_cmd_curt q s) as [cmd0|] eqn:G; [|discriminate].
  destruct (if Cmd.t cmd0 <? m_cur_t s then _ else _)
    as [[[qa sa] oc]|e] eqn:E; cbn [bind].
  - destruct (fetch_first q s cmd0 qa sa oc G E) as (Sa & _ & Ha).
    destruct oc as [cmd|]; [|discriminate].
    specialize (Ha cmd eq_refl).
    assert (L : (length (cmd_next qa) < fuel)%nat).
    { apply suffix_length in Sa. destruct qa; [discriminate|].
      simpl in *. lia. }
    destruct (Cmd.t cmd >? m_cur_t sa); [discriminate|].
    destruct (is_op cmd Meta); [|apply modchn_loop_no_fuel].
    repeat match goal with
      | |- (if ?c then _ else _) <> _ => destruct c
      end; try (apply IH; exact L); discriminate.
  - destruct (Cmd.t cmd0 <? m_cur_t s); [|discriminate].
    intros [= ->]. eapply consume_old_cmds_no_fuel; eauto.
Qed.

Lemma scan_active_no_fuel i cur acts : forall l,
  scan_active i cur acts l <> Fault OutOfFuel.
Proof.
  induction acts as [|a rest IH]; intros l; simpl; [discriminate|].
  repeat first
    [ apply IH
    | discriminate
    | apply eval_no_fuel
    | apply bind_no_fuel
    | match goal with
      | |- forall _ : _ * (_ * _), _ => intros [? [? ?]]
      | |- forall _ : _ * _, _ => intros [? ?]
      | |- (if ?c then _ else _) <> _ => destruct c
      end ].
Qed.

Lemma apply_due_no_fuel i q : forall s l, apply_due i q s l <> Fault OutOfFuel.
Proof.
  induction q as [|cmd q IH]; intros s l; simpl; [discriminate|].
  apply bind_no_fuel.
  - repeat first
      [ discriminate
      | apply (proj2 (ramp_no_fuel _ _))
      | apply bind_no_fuel
      | match goal with
        | |- forall _ : _ * option _, _ => intros [? [[? ?]|]]
        | |- (if ?c then _ else _) <> _ => destruct c
        end ].
  - intros [[s' l']|]; [|discriminate].
    destruct (get_cmd_curt q s'); [|discriminate].
    destruct (Cmd.chn t =? i); [apply IH | discriminate].
Qed.

Lemma chan_step_no_fuel i q s cmd : chan_step i q s cmd <> Fault OutOfFuel.
Proof.
  unfold chan_step.
  apply bind_no_fuel; [apply get_no_fuel|]. intros state.
  apply bind_no_fuel; [apply scan_active_no_fuel|]. intros [acts l].
  apply bind_no_fuel.
  - destruct cmd as [c|]; [|discriminate].
    destruct (negb (Cmd.chn c =? i)); [discriminate | apply apply_due_no_fuel].
  - intros [[[q1 s1] c1] l1].
    apply bind_no_fuel; [apply upd_state_no_fuel | discriminate].
Qed.

Lemma chan_loop_no_fuel n : forall i q s cmd fed,
  chan_loop n i q s cmd fed <> Fault OutOfFuel.
Proof.
  induction n as [|n IH]; intros i q s cmd fed; simpl; [discriminate|].
  apply bind_no_fuel; [apply chan_step_no_fuel|].
  intros [[[q1 s1] c1] f1]. apply IH.
Qed.

(** The steps of the model never stop for lack of fuel: [step] is the
    source's [step] on every input, up to the faults that stand for
    undefined behaviour. *)
Lemma step_no_fuel out q s : step out q s <> Fault OutOfFuel.
Proof.
  unfold step. apply bind_no_fuel; [apply fetch_no_fuel; lia|].
  intros [[q1 s1] cmd].
  apply bind_no_fuel; [apply chan_loop_no_fuel|].
  intros [[q3 s3] fed]. discriminate.
Qed.

Lemma old_ramp_elapsed cmd s :
  Cmd.t cmd + Cmd.len cmd <= m_cur_t s ->
  old_ramp cmd s = Ok (s, Cmd.final_val cmd) /\ new_ramp cmd s = Ok (s, None).
Proof.
  intros H. unfold old_ramp, new_ramp.
  assert (E : (Cmd.t cmd + Cmd.len cmd >? m_cur_t s) = false).
  { rewrite Z.gtb_ltb. apply Z.ltb_ge. exact H. }
  rewrite E. split; reflexivity.
Qed.

(** ** Steps that apply no command *)

Lemma chan_step_None i q s :
  chan_step i q s None
  = match chan_step i [] s None with
    | Ok (_, s', _, f) => Ok (q, s', None, f)
    | Fault e => Fault e
    end.
Proof.
  unfold chan_step.
  destruct (get (m_states s) i) as [state|]; [|reflexivity]. cbn [bind].
  destruct (scan_active _ _ _ _) as [[acts l]|]; [|reflexivity]. cbn [bind].
  destruct (upd_state _ _ _); reflexivity.
Qed.

Lemma chan_loop_None n : forall i q s fed,
  chan_loop n i q s None fed
  = match chan_loop n i [] s None fed with
    | Ok (_, s', fed') => Ok (q, s', fed')
    | Fault e => Fault e
    end.
Proof.
  induction n as [|n IH]; intros i q s fed; [reflexivity|].
  cbn [chan_loop]. rewrite chan_step_None.
  destruct (chan_step i [] s None) as [[[[q1 s1] c1] f1]|] eqn:C;
    [|reflexivity].
  cbn [bind].
  assert (q1 = [] /\ c1 = None) as [-> ->].
  { unfold chan_step in C. unfold bind in C.
    destruct (get (m_states s) i); [|discriminate].
    destruct (scan_active _ _ _ _) as [[acts l]|]; [|discriminate].
    destruct (upd_state _ _ _); [|discriminate].
    injection C as <- _ <- _. auto. }
  apply IH.
Qed.

(** ** The bound on the [retry] jumps does not matter *)

Lemma fetch_fuel fuel : forall fuel' q s,
  (length q < fuel)%nat -> (length q < fuel')%nat ->
  fetch fuel q s = fetch fuel' q s.
Proof.
  induction fuel as [|fuel IH]; intros fuel' q s Hlen Hlen'; [lia|].
  destruct fuel' as [|fuel']; [lia|].
  cbn [fetch]. destruct (get_cmd_curt q s) as [cmd0|] eqn:G; [|reflexivity].
  destruct (if Cmd.t cmd0 <? m_cur_t s then _ else _)
    as [[[qa sa] oc]|e] eqn:E; cbn [bind]; [|reflexivity].
  destruct (fetch_first q s cmd0 qa sa oc G E) as (Sa & _ & Ha).
  destruct oc as [cmd|]; [|reflexivity].
  specialize (Ha cmd eq_refl).
  assert (L : (length (cmd_next qa) < fuel)%nat /\
              (length (cmd_next qa) < fuel')%nat).
  { apply suffix_length in Sa. destruct qa; [discriminate|].
    simpl in *. lia. }
  destruct L as [L L'].
  destruct (Cmd.t cmd >? m_cur_t sa); [reflexivity|].
  destruct (is_op cmd Meta); [|reflexivity].
  repeat match goal with
    | |- (if ?c then _ else _) = _ => destruct c
    end; try (apply IH; assumption); reflexivity.
Qed.

(** ** The start check at the head of the pipe *)

Lemma after_start_check_fields cmd s :
  let ok := fst (check_start (Cmd.t cmd) (u32 (Cmd.final_val cmd)) s) in
  m_cur_t (after_start_check cmd s) = Cmd.t cmd /\
  m_slow_mode (after_start_check cmd s) = negb ok /\
  m_chns (after_start_check cmd s) = m_chns s /\
  m_states (after_start_check cmd s) = m_states s /\
  active_cmds (after_start_check cmd s) = active_cmds s.
Proof.
  cbv zeta. unfold after_start_check. rewrite check_start_state.
  destruct ((Cmd.t cmd <? m_cur_t s) && negb (Cmd.t cmd =? 0)).
  - rewrite check_start_underflow. repeat split.
  - repeat split.
Qed.

Lemma apply_old_TriggerStart cmd s :
  is_op cmd Meta = true -> is_meta cmd TriggerStart = true ->
  apply_old cmd s
  = Ok (snd (check_start (Cmd.t cmd) (u32 (Cmd.final_val cmd)) s),
        fst (check_start (Cmd.t cmd) (u32 (Cmd.final_val cmd)) s)).
Proof.
  intros Hop Hm. destruct (is_meta_TriggerStart cmd Hm) as (M1 & M2 & M3).
  assert (Hop' : Cmd.op cmd = Some Meta) by (apply op_is_op; exact Hop).
  unfold apply_old. rewrite Hop', M1, M2, M3, Hm. reflexivity.
Qed.

(** The part of a step up to [cmd_out] when the first command is a start
    trigger that is due or stale and its check fails. *)
Lemma fetch_start_fails fuel cmd q' s :
  is_op cmd Meta = true -> is_meta cmd TriggerStart = true ->
  Cmd.t cmd <= m_cur_t s ->
  fst (check_start (Cmd.t cmd) (u32 (Cmd.final_val cmd)) s) = false ->
  fetch (S fuel) (cmd :: q') s = Ok (cmd :: q', after_start_check cmd s, None).
Proof.
  intros Hop Hm Ht Hf.
  destruct (is_meta_TriggerStart cmd Hm) as (M1 & M2 & M3).
  assert (G : get_cmd_curt (cmd :: q') s = Some cmd).
  { unfold get_cmd_curt. cbn [get_cmd hd_error].
    destruct (Cmd.t cmd <=? m_cur_t s) eqn:E; [reflexivity|].
    apply Z.leb_gt in E. lia. }
  cbn [fetch]. rewrite G. unfold after_start_check.
  destruct (Cmd.t cmd <? m_cur_t s) eqn:Stale; cbn [andb].
  - apply Z.ltb_lt in Stale.
    unfold consume_old_cmds. cbn [get_cmd hd_error].
    set (su := if Cmd.t cmd =? 0 then s
               else set_cmd_underflow (u64 (m_cmd_underflow s + 1)) s).
    assert (Hcur : m_cur_t su = m_cur_t s)
      by (unfold su; destruct (Cmd.t cmd =? 0); reflexivity).
    assert (FS : fst (check_start (Cmd.t cmd) (u32 (Cmd.final_val cmd)) su)
                 = false).
    { unfold su. destruct (Cmd.t cmd =? 0); [exact Hf|].
      rewrite check_start_underflow. exact Hf. }
    assert (E1 : (Cmd.t cmd =? m_cur_t su) = false) by (apply Z.eqb_neq; lia).
    assert (E2 : (Cmd.t cmd >? m_cur_t su) = false).
    { rewrite Z.gtb_ltb. apply Z.ltb_ge. lia. }
    cbn [consume_loop]. rewrite E1, E2, apply_old_TriggerStart by assumption.
    cbn [bind]. rewrite FS. cbn [bind].
    unfold su. destruct (Cmd.t cmd =? 0); reflexivity.
  - apply Z.ltb_ge in Stale. cbn [bind].
    assert (E2 : (Cmd.t cmd >? m_cur_t s) = false).
    { rewrite Z.gtb_ltb. apply Z.ltb_ge. lia. }
    rewrite E2, Hop, M1, M2, M3, Hm. cbv zeta. rewrite Hf. reflexivity.
Qed.

Lemma fetch_S fuel q s :
  fetch (S fuel) q s
  = match get_cmd_curt q s with
    | None => Ok (q, s, None)
    | Some cmd0 =>
        '(q1, s1, ocmd) <-
           (if Cmd.t cmd0 <? m_cur_t s then consume_old_cmds q s
            else Ok (q, s, Some cmd0)) ;;
        match ocmd with
        | None => Ok (q1, s1, None)
        | Some cmd =>
            if Cmd.t cmd >? m_cur_t s1 then Ok (q1, s1, None)
            else if is_op cmd Meta then
              if is_meta cmd Reset then
                fetch fuel (cmd_next q1) (set_cur_t 0 s1)
              else if is_meta cmd ResetAll then
                fetch fuel (cmd_next q1)
                  (set_slow_mode false
                     (set_chns 0 (set_cur_t 0 (clear_underflow s1))))
              else if is_meta cmd TriggerEnd then
                fetch fuel (cmd_next q1)
                  (set_end_trigger_pending (u32 (Cmd.final_val cmd)) s1)
              else if is_meta cmd TriggerStart then
                let r := check_start (Cmd.t cmd) (u32 (Cmd.final_val cmd)) s1 in
                if fst r then fetch fuel (cmd_next q1) (snd r)
                else Ok (q1, snd r, None)
              else fetch fuel (cmd_next q1) s1
            else modchn_loop q1 s1
        end
    end.
Proof. reflexivity. Qed.

(** The same when the check succeeds and the next command, if any, is not
    older than the trigger: the command is consumed and the commands
    behind it are read from the state the check leaves. *)
Lemma fetch_start_succeeds cmd q' s :
  is_op cmd Meta = true -> is_meta cmd TriggerStart = true ->
  Cmd.t cmd <= m_cur_t s ->
  fst (check_start (Cmd.t cmd) (u32 (Cmd.final_val cmd)) s) = true ->
  (forall c, hd_error q' = Some c -> Cmd.t cmd <= Cmd.t c) ->
  fetch (S (S (length q'))) (cmd :: q') s
  = fetch (S (length q')) q' (after_start_check cmd s).
Proof.
  intros Hop Hm Ht Hok Hd.
  destruct (is_meta_TriggerStart cmd Hm) as (M1 & M2 & M3).
  assert (G : get_cmd_curt (cmd :: q') s = Some cmd).
  { unfold get_cmd_curt. cbn [get_cmd hd_error].
    destruct (Cmd.t cmd <=? m_cur_t s) eqn:E; [reflexivity|].
    apply Z.leb_gt in E. lia. }
  pose proof (after_start_check_fields cmd s) as (T & _).
  set (sw := after_start_check cmd s) in *.
  destruct (Cmd.t cmd <? m_cur_t s) eqn:Stale.
  - (* stale: catch-up consumption applies the command and reads on *)
    apply Z.ltb_lt in Stale.
    set (su := if Cmd.t cmd =? 0 then s
               else set_cmd_underflow (u64 (m_cmd_underflow s + 1)) s).
    assert (Hcur : m_cur_t su = m_cur_t s)
      by (unfold su; destruct (Cmd.t cmd =? 0); reflexivity).
    assert (FS : fst (check_start (Cmd.t cmd) (u32 (Cmd.final_val cmd)) su)
                 = true).
    { unfold su. destruct (Cmd.t cmd =? 0); [exact Hok|].
      rewrite check_start_underflow. exact Hok. }
    assert (SW : snd (check_start (Cmd.t cmd) (u32 (Cmd.final_val cmd)) su) = sw).
    { unfold sw, after_start_check, su.
      assert (L : (Cmd.t cmd <? m_cur_t s) = true) by (apply Z.ltb_lt; lia).
      rewrite L. cbn [andb]. destruct (Cmd.t cmd =? 0); reflexivity. }
    assert (E1 : (Cmd.t cmd =? m_cur_t su) = false) by (apply Z.eqb_neq; lia).
    assert (E2 : (Cmd.t cmd >? m_cur_t su) = false).
    { rewrite Z.gtb_ltb. apply Z.ltb_ge. lia. }
    assert (C : consume_old_cmds (cmd :: q') s = consume_loop q' sw).
    { unfold consume_old_cmds. cbn [get_cmd hd_error]. fold su.
      cbn [consume_loop]. rewrite E1, E2, apply_old_TriggerStart by assumption.
      cbn [bind]. rewrite FS, SW. reflexivity. }
    rewrite fetch_S, G.
    assert (L : (Cmd.t cmd <? m_cur_t s) = true) by (apply Z.ltb_lt; lia).
    rewrite L, C.
    destruct q' as [|c q''].
    + reflexivity.
    + specialize (Hd c eq_refl).
      rewrite fetch_S. cbn [consume_loop]. unfold get_cmd_curt.
      cbn [get_cmd hd_error]. rewrite T.
      destruct (Cmd.t c =? Cmd.t cmd) eqn:Eq.
      * apply Z.eqb_eq in Eq. cbn [bind].
        assert (L1 : (Cmd.t c <=? Cmd.t cmd) = true) by (apply Z.leb_le; lia).
        assert (L2 : (Cmd.t c <? Cmd.t cmd) = false) by (apply Z.ltb_ge; lia).
        rewrite L1, L2. cbn [bind]. rewrite T. cbv zeta.
        repeat match goal with
          | |- (if ?b then _ else _) = _ => destruct b
          end; try reflexivity; apply fetch_fuel; cbn [cmd_next tl length]; lia.
      * apply Z.eqb_neq in Eq.
        assert (L1 : (Cmd.t c >? Cmd.t cmd) = true).
        { rewrite Z.gtb_ltb. apply Z.ltb_lt. lia. }
        assert (L2 : (Cmd.t c <=? Cmd.t cmd) = false) by (apply Z.leb_gt; lia).
        rewrite L1, L2. reflexivity.
  - (* due now *)
    apply Z.ltb_ge in Stale.
    assert (SW : snd (check_start (Cmd.t cmd) (u32 (Cmd.final_val cmd)) s) = sw).
    { unfold sw, after_start_check.
      assert (L : (Cmd.t cmd <? m_cur_t s) = false) by (apply Z.ltb_ge; lia).
      rewrite L. reflexivity. }
    assert (E2 : (Cmd.t cmd >? m_cur_t s) = false).
    { rewrite Z.gtb_ltb. apply Z.ltb_ge. lia. }
    rewrite fetch_S, G.
    assert (L : (Cmd.t cmd <? m_cur_t s) = false) by (apply Z.ltb_ge; lia).
    rewrite L. cbn [bind]. rewrite E2, Hop, M1, M2, M3, Hm. cbv zeta.
    rewrite Hok, SW. cbn [cmd_next tl]. reflexivity.
Qed.

Lemma step_empty_fields out s q s' fed :
  step out [] s = Ok (q, s', fed) ->
  q = [] /\ m_cur_t s' = u32 (m_cur_t s + 1) /\
  m_slow_mode s' = m_slow_mode s.
Proof.
  intros H. unfold step in H.
  cbn [length fetch get_cmd_curt get_cmd hd_error bind] in H.
  destruct (chan_loop _ _ _ _ _ _) as [[[q3 s3] fed3]|] eqn:L;
    cbn [bind] in H; [|discriminate].
  injection H as <- <- <-.
  pose proof (chan_loop_suffix _ _ _ _ _ _ _ _ _ L) as [pre Sx].
  apply chan_loop_frame in L. destruct L as [Fr _].
  apply frame_fields in Fr. destruct Fr as (F1 & _ & _ & _ & F5 & _).
  destruct (end_trigger_step_keeps out s) as (K1 & K2 & _).
  split.
  - destruct pre; [symmetry; exact Sx | discriminate Sx].
  - cbn [m_cur_t m_slow_mode set_cur_t]. rewrite F5, K2, F1, K1. auto.
Qed.

(** ** The underflow counter in catch-up consumption, with [ResetAll] *)

Lemma apply_old_ResetAll cmd s :
  is_ResetAll cmd = true ->
  apply_old cmd s
  = Ok (set_slow_mode false (set_chns 0 (set_cur_t 0 (clear_underflow s))),
        true).
Proof.
  unfold is_ResetAll. intros H. apply andb_true_iff in H. destruct H as [Ho Hm].
  assert (O : Cmd.op cmd = Some Meta) by (apply op_is_op; exact Ho).
  assert (R : is_meta cmd Reset = false).
  { unfold is_meta in *. apply Z.eqb_eq in Hm. rewrite Hm. reflexivity. }
  unfold apply_old. rewrite O, R, Hm. reflexivity.
Qed.

Lemma consume_loop_underflow_all q : forall s q1 s1 r,
  consume_loop q s = Ok (q1, s1, r) ->
  exists pre,
    q = pre ++ q1 /\
    m_cmd_underflow s1
    = if existsb is_ResetAll pre then 0 else m_cmd_underflow s.
Proof.
  induction q as [|cmd q IH]; intros s q1 s1 r H; simpl in H.
  - injection H as <- <- <-. exists []. split; reflexivity.
  - destruct (Cmd.t cmd =? m_cur_t s);
      [injection H as <- <- <-; exists []; split; reflexivity|].
    destruct (Cmd.t cmd >? m_cur_t s);
      [injection H as <- <- <-; exists []; split; reflexivity|].
    unfold bind in H.
    destruct (is_ResetAll cmd) eqn:RA.
    + rewrite (apply_old_ResetAll cmd s RA) in H.
      apply IH in H. destruct H as (pre & -> & U).
      exists (cmd :: pre). split; [reflexivity|].
      cbn [existsb]. rewrite RA. cbn [orb].
      rewrite U. destruct (existsb is_ResetAll pre); reflexivity.
    + destruct (apply_old cmd s) as [[s' go]|] eqn:A; [|discriminate].
      apply apply_old_underflow in A; [|exact RA].
      destruct go.
      * apply IH in H. destruct H as (pre & -> & U).
        exists (cmd :: pre). split; [reflexivity|].
        cbn [existsb]. rewrite RA. cbn [orb]. rewrite U, A. reflexivity.
      * injection H as <- <- <-. exists []. split; [reflexivity | exact A].
Qed.

Lemma i32_small x : is_int32 x -> i32 x = x.
Proof. unfold is_int32, i32. intros H. rewrite Z.mod_small; lia. Qed.

(** * The properties C1 to C10 *)

(** C1.  A Set command due at the current step for a live channel should
    be applied before synthesis: the state field overwritten and the new
    value fed.  The step misses this for [AmpSet]: its command loop has no
    arm for it, so on one live channel (phase 0, frequency 2, amplitude 3)
    the amplitude setting 7 stays in the pipe, the old amplitude 3 is fed
    and the state keeps it.  A [FreqSet] to 9 is fed to the synthesis, yet
    the channel state still holds frequency 2 after the step. *)
Theorem C1_live_amp_set_skipped :
  live_ignored (Cmd.getAmpSet 0 0 7) = true /\
  step 0 [Cmd.getAmpSet 0 0 7] ex_one_chn
  = Ok ([Cmd.getAmpSet 0 0 7], set_cur_t 1 ex_one_chn, [mk_Feed 3 0 2 0]) /\
  step 0 [Cmd.getFreqSet 0 0 9] ex_one_chn
  = Ok ([], set_cur_t 1 ex_one_chn, [mk_Feed 3 0 9 0]) /\
  get (m_states (set_cur_t 1 ex_one_chn)) 0 = Ok (State.mk 0 2 3).
Proof. repeat split; reflexivity. Qed.

(** C2, as first stated, fails on one live channel: the start trigger 1 is
    not published, the flag is set, and the step nevertheless runs the
    channel loop and feeds the channel's amplitude 3 and frequency 2 to
    the synthesis. *)
Lemma C2_counterexample :
  fst (check_start 0 (u32 1) ex_one_chn) = false /\
  exists s' fed,
    step 0 [ex_trigger_start 0 1] ex_one_chn
    = Ok ([ex_trigger_start 0 1], s', fed) /\
    slow_mode s' = true /\
    fed = [mk_Feed 3 0 2 0] /\ fed <> [].
Proof.
  split; [reflexivity|]. eexists. eexists.
  split; [vm_compute; reflexivity|].
  split; [reflexivity|]. split; [reflexivity | discriminate].
Qed.

(** C2 (amended).  When a [TriggerStart] command naming the id [K] is
    processed, due or stale, the start check succeeds exactly when the
    published start-trigger id is at least [K] and the projected global
    time (time offset plus the scaled output count, as a [uint64_t]) has
    reached the published start-trigger time; the check sets the current
    time to the command's time and the slow-mode flag to the negation of
    the outcome.  While the check fails the step runs exactly as a step
    on an empty pipe from the state the check leaves: the flag is set, the
    command stays at the head of the pipe, where the next step finds it
    again, and output is generated, each live channel feeding its stored
    amplitude and frequency when no ramp is active.  When the check
    succeeds the command is consumed and the step goes on with the
    commands behind it, the flag cleared. *)
Theorem C2_start_trigger_gate out cmd q' s :
  is_op cmd Meta = true -> is_meta cmd TriggerStart = true ->
  0 <= Cmd.t cmd <= m_cur_t s -> Cmd.t cmd + 1 < 2 ^ 32 ->
  let id := u32 (Cmd.final_val cmd) in
  let ok := fst (check_start (Cmd.t cmd) id s) in
  let sw := after_start_check cmd s in
  (ok = true <->
   id <= m_start_trigger s /\ m_start_trigger_time s <= projected_time s) /\
  slow_mode sw = negb ok /\ m_cur_t sw = Cmd.t cmd /\
  (ok = false ->
   step out (cmd :: q') s
   = match step out [] sw with
     | Ok (_, s', fed) => Ok (cmd :: q', s', fed)
     | Fault e => Fault e
     end /\
   (forall q1 s' fed,
      step out (cmd :: q') s = Ok (q1, s', fed) ->
      q1 = cmd :: q' /\ slow_mode s' = true /\
      m_cur_t s' = Cmd.t cmd + 1 /\
      get_cmd_curt q1 s' = Some cmd) /\
   (active_cmds s = [] ->
    0 <= m_chns s <= Z.of_nat (length (m_states s)) ->
    exists s', step out (cmd :: q') s = Ok (cmd :: q', s', live_feed s))) /\
  (ok = true ->
   (forall c, hd_error q' = Some c -> Cmd.t cmd <= Cmd.t c) ->
   step out (cmd :: q') s = step out q' sw).
Proof.
  intros Hop Hm Ht Hlt id ok sw.
  pose proof (after_start_check_fields cmd s) as (T & Sl & N & St & A).
  fold sw in T, Sl, N, St, A. cbv zeta in Sl. fold id in Sl. fold ok in Sl.
  split; [apply check_start_ok|].
  split; [exact Sl|]. split; [exact T|].
  split; intros Hok.
  - pose proof (fetch_start_fails (S (length q')) cmd q' s Hop Hm (proj2 Ht) Hok)
      as F. fold sw in F.
    assert (E : step out (cmd :: q') s
                = match step out [] sw with
                  | Ok (_, s', fed) => Ok (cmd :: q', s', fed)
                  | Fault e => Fault e
                  end).
    { unfold step. cbn [length]. rewrite F. cbn [bind].
      rewrite chan_loop_None.
      cbn [fetch get_cmd_curt get_cmd hd_error bind].
      destruct (chan_loop _ _ _ _ _ _) as [[[q3 s3] fed3]|]; reflexivity. }
    split; [exact E|]. split.
    + intros q1 s' fed H. rewrite E in H.
      destruct (step out [] sw) as [[[q0 s0] fed0]|] eqn:E0; [|discriminate].
      injection H as <- <- <-.
      apply step_empty_fields in E0. destruct E0 as (_ & T0 & S0).
      rewrite T in T0. rewrite Sl, Hok in S0. cbn [negb] in S0.
      assert (T1 : m_cur_t s0 = Cmd.t cmd + 1).
      { rewrite T0. unfold u32. apply Z.mod_small. lia. }
      split; [reflexivity|]. split; [exact S0|]. split; [exact T1|].
      unfold get_cmd_curt. cbn [get_cmd hd_error]. rewrite T1.
      destruct (Cmd.t cmd <=? Cmd.t cmd + 1) eqn:L; [reflexivity|].
      apply Z.leb_gt in L. lia.
    + intros Ha Hc.
      destruct (step_after_fetch out (cmd :: q') s _ _ F)
        as (s' & Stp & _).
      { fold sw. congruence. }
      { fold sw. rewrite N, St. exact Hc. }
      exists s'. rewrite Stp. fold sw. unfold live_feed. rewrite N, St.
      reflexivity.
  - intros Hd. unfold step. cbn [length].
    rewrite (fetch_start_succeeds cmd q' s Hop Hm (proj2 Ht) Hok Hd).
    reflexivity.
Qed.

(** C2 (amended) at a stream with one live channel and no published
    trigger, and at the same stream with the amplitude ramp [ex_ramp] in
    flight, whose value is then what the channel feeds. *)
Lemma C2_start_trigger_gate_witness :
  fst (check_start 0 (u32 1) ex_one_chn) = false /\
  (exists s',
     step 0 [ex_trigger_start 0 1] ex_one_chn
     = Ok ([ex_trigger_start 0 1], s', live_feed ex_one_chn) /\
     slow_mode s' = true /\
     get_cmd_curt [ex_trigger_start 0 1] s' = Some (ex_trigger_start 0 1)) /\
  exists s',
    step 0 [ex_trigger_start 0 1]
         (set_active_cmds [mk_activeCmd ex_ramp []] ex_one_chn)
    = Ok ([ex_trigger_start 0 1], s', [mk_Feed 0 5 2 0]).
Proof.
  split; [reflexivity|].
  destruct (C2_start_trigger_gate 0 (ex_trigger_start 0 1) [] ex_one_chn)
    as (_ & _ & _ & F & _);
    [ reflexivity | reflexivity | vm_compute; split; discriminate
    | vm_compute; reflexivity | ].
  destruct (F eq_refl) as (_ & R & L).
  split.
  - destruct L as (s' & St);
      [ reflexivity | vm_compute; split; discriminate | ].
    destruct (R _ _ _ St) as (_ & S & _ & G).
    exists s'. split; [exact St|]. split; [exact S | exact G].
  - destruct (C2_start_trigger_gate 0 (ex_trigger_start 0 1) []
                (set_active_cmds [mk_activeCmd ex_ramp []] ex_one_chn))
      as (_ & _ & _ & F' & _);
      [ reflexivity | reflexivity | vm_compute; split; discriminate
      | vm_compute; reflexivity | ].
    rewrite (proj1 (F' eq_refl)). eexists. vm_compute. reflexivity.
Defined.

(** C3.  An amplitude ramp from step 0 over 2 steps to the final value 10
    should leave the amplitude at 10 from step 2 on.  The step feeds 0, 5
    and then the final value 10 and drops the active ramp, but it never
    stores the amplitude in the channel state: at step 3 the channel is
    back at its old amplitude 3. *)
Theorem C3_ramp_end_not_stored :
  exists s4,
    steps 4 0 [ex_ramp] ex_one_chn
    = Ok ([], s4, [[mk_Feed 0 5 2 0]; [mk_Feed 5 5 2 0];
                   [mk_Feed 10 0 2 0]; [mk_Feed 3 0 2 0]]) /\
    active_cmds s4 = [] /\ m_cur_t s4 = 4 /\
    get (m_states s4) 0 = Ok (State.mk 0 2 3).
Proof.
  eexists. split; [vm_compute; reflexivity|]. repeat split; reflexivity.
Qed.

(** C4. Removing channel [i] (a [ModChn] command whose [chn] is not the
    add sentinel) while [c >= 1] channels are live stores the state of
    channel [c-1] in slot [i] and leaves [c-1] live channels, in catch-up
    consumption and in the step alike; every other slot is untouched.  In
    particular three live channels [a], [b], [c] become the two channels
    [a], [c] when index 1 is removed, and the run that adds three
    channels, tags them and removes index 1 ends with the tags of
    channels 0 and 2. *)
Theorem C4_remove_moves_last cmd s last :
  is_op cmd ModChn = true ->
  Cmd.chn cmd <> Cmd.add_chn ->
  1 <= m_chns s < 2 ^ 32 ->
  get (m_states s) (m_chns s - 1) = Ok last ->
  0 <= Cmd.chn cmd < Z.of_nat (length (m_states s)) ->
  (exists s',
     apply_old cmd s = Ok (s', true) /\
     modchn_loop [cmd] s = Ok ([], s', None) /\
     m_chns s' = m_chns s - 1 /\
     get (m_states s') (Cmd.chn cmd) = Ok last /\
     (forall j, j <> Cmd.chn cmd ->
                get (m_states s') j = get (m_states s) j) /\
     (forall a b c rest,
        m_states s = a :: b :: c :: rest -> m_chns s = 3 -> Cmd.chn cmd = 1 ->
        m_chns s' = 2 /\ firstn 2 (m_states s') = [a; c])) /\
  (exists s2 feds,
     steps 2 0 ex_lifecycle (init_stream ex_step_t 4) = Ok ([], s2, feds) /\
     m_chns s2 = 2 /\
     firstn 2 (m_states s2) = [State.mk 10 0 0; State.mk 30 0 0]).
Proof.
  intros Hop Hne Hc Hlast Hi. split.
  - pose proof (mod_chn_remove cmd s last Hne Hc Hlast Hi) as M.
    eexists. split; [|split; [|split; [|split; [|split]]]].
    + unfold apply_old. apply op_is_op in Hop. rewrite Hop, M. reflexivity.
    + cbn [modchn_loop]. rewrite Hop, M. reflexivity.
    + reflexivity.
    + cbn [m_states set_states]. apply get_set_nth_eq. exact Hi.
    + intros j Hj. cbn [m_states set_states set_chns].
      apply get_set_nth_ne; [lia | exact Hj].
    + intros a b c rest Hs H3 H1. split; [cbn [m_chns set_states set_chns]; lia|].
      cbn [m_states set_states set_chns]. rewrite H1.
      rewrite Hs, H3 in Hlast. apply get_Ok in Hlast.
      destruct Hlast as [_ Hlast].
      change (Z.to_nat (3 - 1)) with 2%nat in Hlast. simpl in Hlast.
      injection Hlast as <-. rewrite Hs. reflexivity.
  - eexists. eexists. split; [vm_compute; reflexivity|]. split; reflexivity.
Qed.

(** C4 on three live channels, removing index 1. *)
Lemma C4_remove_moves_last_witness :
  get (m_states ex_three_chn) (m_chns ex_three_chn - 1)
  = Ok (State.mk 7 8 9) /\
  exists s',
    apply_old (Cmd.getDelChn 0 1) ex_three_chn = Ok (s', true) /\
    firstn 2 (m_states s') = [State.mk 1 2 3; State.mk 7 8 9].
Proof.
  split; [reflexivity|].
  destruct (C4_remove_moves_last (Cmd.getDelChn 0 1) ex_three_chn
              (State.mk 7 8 9)) as [(s' & A & _ & _ & _ & _ & P) _].
  - reflexivity.
  - vm_compute. discriminate.
  - vm_compute. split; [discriminate | reflexivity].
  - reflexivity.
  - vm_compute. split; [discriminate | reflexivity].
  - exists s'. split; [exact A|].
    apply (P (State.mk 1 2 3) (State.mk 4 5 6) (State.mk 7 8 9) [State.mk 0 0 0]);
      reflexivity.
Defined.

(** C5, as first stated, fails on a backlog of one stale command with
    time 0: it is consumed and the counter is not incremented. *)
Lemma C5_counterexample :
  exists s1,
    consume_old_cmds [Cmd.getAmpSet 0 0 7] (set_cur_t 1 ex_one_chn)
    = Ok ([], s1, None) /\
    get (m_states s1) 0 = Ok (State.mk 0 2 7) /\
    m_cmd_underflow s1 = m_cmd_underflow (set_cur_t 1 ex_one_chn) /\
    m_cmd_underflow s1 <> u64 (m_cmd_underflow (set_cur_t 1 ex_one_chn) + 1).
Proof.
  eexists. split; [vm_compute; reflexivity|].
  split; [reflexivity|]. split; [reflexivity|]. vm_compute. discriminate.
Qed.

(** C5 (amended).  One call of catch-up consumption adds one to the
    command-underflow counter when the first command it reads has a
    non-zero time, and nothing when that time is zero, however many stale
    commands it consumes; when a [ResetAll] is among the commands it
    consumes the counter is 0 at the end of the call. *)
Theorem C5_underflow_once_per_call cmd q' s q1 s1 r :
  consume_old_cmds (cmd :: q') s = Ok (q1, s1, r) ->
  exists pre,
    cmd :: q' = pre ++ q1 /\
    m_cmd_underflow s1
    = if existsb is_ResetAll pre then 0
      else if Cmd.t cmd =? 0 then m_cmd_underflow s
      else u64 (m_cmd_underflow s + 1).
Proof.
  intros H. unfold consume_old_cmds in H. cbn [get_cmd hd_error] in H.
  apply consume_loop_underflow_all in H. destruct H as (pre & E & U).
  exists pre. split; [exact E|]. rewrite U.
  destruct (existsb is_ResetAll pre); [reflexivity|].
  destruct (Cmd.t cmd =? 0); reflexivity.
Qed.

(** C5 (amended) on a backlog of three stale commands, the first with a
    non-zero time: the counter goes from 0 to 1; and on a backlog with a
    [ResetAll] behind a stale command, from a counter at 4: it ends at 0. *)
Lemma C5_underflow_once_per_call_witness :
  (exists s1,
     consume_old_cmds ex_backlog (set_cur_t 5 ex_one_chn) = Ok ([], s1, None) /\
     m_cmd_underflow s1 = 1) /\
  (exists s1,
     consume_old_cmds [Cmd.getAmpSet 1 0 7; Cmd.getResetAll 2]
       (set_cmd_underflow 4 (set_cur_t 5 ex_one_chn))
     = Ok ([], s1, None) /\
     m_cmd_underflow s1 = 0).
Proof.
  split.
  - assert (E : exists s1,
               consume_old_cmds ex_backlog (set_cur_t 5 ex_one_chn)
               = Ok ([], s1, None))
      by (eexists; vm_compute; reflexivity).
    destruct E as (s1 & E). exists s1. split; [exact E|].
    destruct (C5_underflow_once_per_call _ _ _ _ _ _ E) as (pre & P & U).
    rewrite app_nil_r in P. subst pre. exact U.
  - assert (E : exists s1,
               consume_old_cmds [Cmd.getAmpSet 1 0 7; Cmd.getResetAll 2]
                 (set_cmd_underflow 4 (set_cur_t 5 ex_one_chn))
               = Ok ([], s1, None))
      by (eexists; vm_compute; reflexivity).
    destruct E as (s1 & E). exists s1. split; [exact E|].
    destruct (C5_underflow_once_per_call _ _ _ _ _ _ E) as (pre & P & U).
    rewrite app_nil_r in P. subst pre. exact U.
Defined.

(** C6, as first stated, fails on a fresh stream: the end pointer is null
    and was never set, and the step that reads the [TriggerEnd] with id 7
    promotes 7 to waiting and sets the pointer itself. *)
Lemma C6_counterexample :
  end_trigger (init_stream ex_step_t 4) = None /\
  m_end_trigger_waiting (init_stream ex_step_t 4) = 0 /\
  exists s1 fed,
    step 64 [ex_trigger_end 0 7] (init_stream ex_step_t 4) = Ok ([], s1, fed) /\
    m_end_trigger_waiting s1 = 7 /\ end_trigger s1 = Some 64.
Proof.
  split; [reflexivity|]. split; [reflexivity|].
  eexists. eexists. split; [vm_compute; reflexivity|]. split; reflexivity.
Qed.

(** C6 (amended).  In every step the published end-trigger id changes
    only to the id that was waiting when the step began, and does so
    exactly when that id is non-zero and the end pointer is null; the
    waiting id changes only to the pending id, which is the old pending id
    or the id of a [TriggerEnd] command of the pipe.  A pending id is
    promoted to waiting in the first step that finds no id waiting,
    whatever the end pointer holds, and the promotion itself stamps the end
    pointer with the output address of the step; when the waiting id is
    published, the pending id is promoted in the same step and, if it is
    non-zero, the pointer stamped again.  Hence over any number of steps
    the pending, waiting and published ids are ids of [TriggerEnd] commands
    (or values they held at the start). *)
Theorem C6_end_trigger_protocol :
  (forall out q s q' s' fed,
     step out q s = Ok (q', s', fed) ->
     exists p1,
       (p1 = m_end_trigger_pending s \/
        exists c, In c q /\ is_TriggerEnd c = true /\
                  p1 = u32 (Cmd.final_val c)) /\
       let publish :=
         negb (m_end_trigger_waiting s =? 0) &&
         match end_trigger s with None => true | Some _ => false end in
       let reload := (m_end_trigger_waiting s =? 0) || publish in
       end_triggered s'
       = (if publish then m_end_trigger_waiting s else end_triggered s) /\
       m_end_trigger_waiting s'
       = (if reload then p1 else m_end_trigger_waiting s) /\
       end_trigger s'
       = (if reload && negb (p1 =? 0) then Some out else end_trigger s) /\
       m_end_trigger_pending s'
       = (if m_end_trigger_waiting s =? 0 then 0 else p1)) /\
  (forall (P : Z -> Prop) n out q s q' s' feds,
     steps n out q s = Ok (q', s', feds) ->
     P 0 ->
     (forall c, In c q -> is_TriggerEnd c = true -> P (u32 (Cmd.final_val c))) ->
     P (m_end_trigger_pending s) -> P (m_end_trigger_waiting s) ->
     P (end_triggered s) ->
     P (m_end_trigger_pending s') /\ P (m_end_trigger_waiting s') /\
     P (end_triggered s')).
Proof.
  split; [exact step_trigger_fields|].
  intros P n. induction n as [|n IH]; intros out q s q' s' feds H P0 Pq Pp Pw Pt.
  - simpl in H. injection H as <- <- <-. auto.
  - simpl in H. unfold bind in H.
    destruct (step out q s) as [[[q1 s1] fed]|] eqn:S; [|discriminate].
    destruct (steps n out q1 s1) as [[[q2 s2] feds2]|] eqn:Ss; [|discriminate].
    injection H as <- <- <-.
    pose proof (step_suffix _ _ _ _ _ _ S) as Sx.
    destruct (step_trigger_fields _ _ _ _ _ _ S) as (p1 & Hp1 & A1 & A2 & A3 & A4).
    assert (Pp1 : P p1).
    { destruct Hp1 as [->|(c & Hc & Tc & ->)]; auto. }
    apply (IH _ _ _ _ _ _ Ss P0).
    + intros c Hc. apply Pq. apply (suffix_incl _ _ Sx). exact Hc.
    + rewrite A4. destruct (m_end_trigger_waiting s =? 0); assumption.
    + rewrite A2. destruct (_ || _); assumption.
    + unfold end_triggered in *. rewrite A1. destruct (_ && _); assumption.
Qed.

(** C6 (amended) on three steps after a [TriggerEnd] with id 7. *)
Lemma C6_end_trigger_protocol_witness :
  exists q' s' feds,
    steps 3 64 [ex_trigger_end 0 7] (init_stream ex_step_t 4)
    = Ok (q', s', feds) /\
    (m_end_trigger_pending s' = 0 \/ m_end_trigger_pending s' = 7) /\
    (m_end_trigger_waiting s' = 0 \/ m_end_trigger_waiting s' = 7) /\
    (end_triggered s' = 0 \/ end_triggered s' = 7).
Proof.
  eexists. eexists. eexists. split; [vm_compute; reflexivity|].
  eapply (proj2 C6_end_trigger_protocol (fun id => id = 0 \/ id = 7) 3%nat 64
            [ex_trigger_end 0 7] (init_stream ex_step_t 4)).
  - vm_compute. reflexivity.
  - left. reflexivity.
  - intros c [<-|[]] _. right. reflexivity.
  - left. reflexivity.
  - left. reflexivity.
  - left. reflexivity.
Defined.

(** C7.  A phase within [-max_phase, max_phase] should be stored
    unchanged, and a reduced phase should be equivalent to the original
    modulo [max_phase].  [max_phase] is unsigned, so the step compares and
    reduces the phase as a [uint64_t]: the phase -1, set by a [Phase]
    command, is stored as 4959551615, which differs from -1 by 4959551616,
    not by a multiple of [max_phase]. *)
Theorem C7_negative_phase_not_reduced :
  - max_phase <= -1 <= max_phase /\
  wrap_phase (-1) = 4959551615 /\
  (4959551615 - -1) mod max_phase = 4959551616 /\
  exists s',
    step 0 [Cmd.getPhase 0 0 (-1)] ex_one_chn = Ok ([], s', [mk_Feed 3 0 2 0]) /\
    get (m_states s') 0 = Ok (State.mk 4959551615 2 3).
Proof.
  split; [vm_compute; split; discriminate|].
  split; [reflexivity|]. split; [reflexivity|].
  eexists. split; [vm_compute; reflexivity|]. reflexivity.
Qed.

(** C8 is about the object representation of [struct Cmd], its size and
    the bytes of its members: the compiler's ABI fixes it, and no function
    of the source computes it ([copy_cmds] copies [sizeof(Cmd)] bytes as
    they are).  It has no statement over the embedding. *)

(** C9, as first stated, fails for a remove: with three live channels,
    removing index 3 (at the live count) lowers the count to 2 and
    overwrites slot 3. *)
Lemma C9_counterexample :
  m_chns ex_three_chn <= Cmd.chn (Cmd.getDelChn 0 3) /\
  Cmd.chn (Cmd.getDelChn 0 3) <> Cmd.add_chn /\
  exists s' fed,
    step 0 [Cmd.getDelChn 0 3] ex_three_chn = Ok ([], s', fed) /\
    m_chns ex_three_chn = 3 /\ m_chns s' = 2 /\
    m_chns s' <> m_chns ex_three_chn /\
    get (m_states ex_three_chn) 3 = Ok (State.mk 0 0 0) /\
    get (m_states s') 3 = Ok (State.mk 7 8 9).
Proof.
  split; [vm_compute; discriminate|]. split; [vm_compute; discriminate|].
  eexists. eexists. split; [vm_compute; reflexivity|].
  split; [reflexivity|]. split; [reflexivity|].
  split; [vm_compute; discriminate|]. split; reflexivity.
Qed.

(** C9 (amended).  A command with an unrecognized opcode is never applied
    and raises no failure.  Catch-up consumption drops it and reads on
    with the stream as it is; only the call that reads it as its first
    command counts its one command underflow, as for any first command
    with a non-zero time.  The step, when the command is due, runs
    exactly as on an empty pipe and leaves the command in the pipe.  The
    step treats in the same way a command due now that is neither [Meta]
    nor [ModChn] and addresses a channel at or beyond the live count. *)
Theorem C9_unapplied_commands :
  (forall cmd q' s,
     Cmd.op cmd = None -> Cmd.t cmd < m_cur_t s ->
     consume_loop (cmd :: q') s = consume_loop q' s /\
     consume_old_cmds (cmd :: q') s
     = consume_loop q'
         (if Cmd.t cmd =? 0 then s
          else set_cmd_underflow (u64 (m_cmd_underflow s + 1)) s) /\
     exists s1,
       consume_old_cmds [cmd] s = Ok ([], s1, None) /\
       set_cmd_underflow (m_cmd_underflow s) s1 = s /\
       m_cmd_underflow s1
       = (if Cmd.t cmd =? 0 then m_cmd_underflow s
          else u64 (m_cmd_underflow s + 1))) /\
  (forall out cmd q' s,
     Cmd.t cmd = m_cur_t s ->
     0 <= m_chns s ->
     Cmd.op cmd = None \/
     (is_op cmd Meta = false /\ is_op cmd ModChn = false /\
      m_chns s <= Cmd.chn cmd) ->
     step out (cmd :: q') s
     = match step out [] s with
       | Ok (_, s', fed) => Ok (cmd :: q', s', fed)
       | Fault e => Fault e
       end).
Proof.
  split.
  - intros cmd q' s H Lt.
    assert (L : forall s0, m_cur_t s0 = m_cur_t s ->
                consume_loop (cmd :: q') s0 = consume_loop q' s0).
    { intros s0 E0. cbn [consume_loop]. rewrite E0.
      assert (E1 : (Cmd.t cmd =? m_cur_t s) = false) by (apply Z.eqb_neq; lia).
      assert (E2 : (Cmd.t cmd >? m_cur_t s) = false).
      { rewrite Z.gtb_ltb. apply Z.ltb_ge. lia. }
      rewrite E1, E2. unfold apply_old. rewrite H. reflexivity. }
    split; [apply L; reflexivity|].
    assert (C : forall q0,
              consume_old_cmds (cmd :: q0) s
              = consume_loop (cmd :: q0)
                  (if Cmd.t cmd =? 0 then s
                   else set_cmd_underflow (u64 (m_cmd_underflow s + 1)) s))
      by reflexivity.
    assert (K : m_cur_t (if Cmd.t cmd =? 0 then s
                         else set_cmd_underflow (u64 (m_cmd_underflow s + 1)) s)
                = m_cur_t s) by (destruct (Cmd.t cmd =? 0); reflexivity).
    split.
    + rewrite C. cbn [consume_loop]. rewrite K.
      assert (E1 : (Cmd.t cmd =? m_cur_t s) = false) by (apply Z.eqb_neq; lia).
      assert (E2 : (Cmd.t cmd >? m_cur_t s) = false).
      { rewrite Z.gtb_ltb. apply Z.ltb_ge. lia. }
      rewrite E1, E2. unfold apply_old. rewrite H. reflexivity.
    + eexists. split.
      * rewrite C. cbn [consume_loop]. rewrite K.
        assert (E1 : (Cmd.t cmd =? m_cur_t s) = false) by (apply Z.eqb_neq; lia).
        assert (E2 : (Cmd.t cmd >? m_cur_t s) = false).
        { rewrite Z.gtb_ltb. apply Z.ltb_ge. lia. }
        rewrite E1, E2. unfold apply_old. rewrite H. reflexivity.
      * destruct (Cmd.t cmd =? 0); split; try reflexivity;
          destruct s; reflexivity.
  - intros out cmd q' s Ht Hc H.
    destruct H as [H|(NM & NC & H)].
    + apply step_skip; try exact Ht; try (apply op_None_is_op; exact H).
      left. apply op_None_live_ignored. exact H.
    + apply step_skip; try assumption. right. split; assumption.
Qed.

(** C9 (amended) on commands with opcode 12: one stale at a non-zero
    time, consumed by catch-up with the one command underflow of the call
    as the only change, and one due now, which the step leaves in the
    pipe. *)
Lemma C9_unapplied_commands_witness :
  Cmd.op ex_bad_op_stale = None /\
  consume_old_cmds [ex_bad_op_stale] (set_cur_t 5 ex_one_chn)
  = Ok ([], set_cmd_underflow 1 (set_cur_t 5 ex_one_chn), None) /\
  step 0 [ex_bad_op] ex_one_chn
  = Ok ([ex_bad_op], set_cur_t 1 ex_one_chn, [mk_Feed 3 0 2 0]).
Proof.
  split; [reflexivity|]. split.
  - destruct (proj1 C9_unapplied_commands ex_bad_op_stale []
                (set_cur_t 5 ex_one_chn))
      as (_ & E & _); [reflexivity | vm_compute; reflexivity |].
    rewrite E. reflexivity.
  - rewrite (proj2 C9_unapplied_commands 0 ex_bad_op [] ex_one_chn).
    + reflexivity.
    + reflexivity.
    + simpl. lia.
    + left. reflexivity.
Defined.

(** C10.  The step should call [eval] of an active vector ramp only with
    a relative time inside the precomputed table.  After a [Reset] the
    current time lies before the start of the ramp, the window test
    [t + len > m_cur_t] still passes, and the unsigned difference
    [m_cur_t - t] wraps: a ramp starting at 5 with a table of [len + 1 = 4]
    values is evaluated at 4294967291, outside its table. *)
Theorem C10_vector_eval_after_reset :
  exists s1 a,
    step 0 [ex_vec_ramp; Cmd.getReset 6] (set_cur_t 5 ex_one_chn)
    = Ok ([Cmd.getReset 6], s1, [mk_Feed 0 2 2 0]) /\
    active_cmds s1 = [a] /\ m_cmd a = ex_vec_ramp /\
    vals a = [0; 2; 4; 6] /\
    Z.of_nat (length (vals a)) = Cmd.len ex_vec_ramp + 1 /\
    m_cur_t s1 = 6 /\
    (Cmd.t ex_vec_ramp + Cmd.len ex_vec_ramp >? 0) = true /\
    u32 (0 - Cmd.t ex_vec_ramp) = 4294967291 /\
    eval a (u32 (0 - Cmd.t ex_vec_ramp)) = Fault OutOfBounds /\
    step 0 [Cmd.getReset 6] s1 = Fault OutOfBounds.
Proof.
  eexists. eexists. split; [vm_compute; reflexivity|].
  repeat split; reflexivity.
Qed.

(** * Further properties of the code *)

(** ** Comparing commands *)

Lemma Cmd_equal_head ptr_eq this other :
  Cmd_equal ptr_eq this other = true ->
  Cmd.t other = Cmd.t this /\ Cmd._op other = Cmd._op this.
Proof.
  unfold Cmd_equal. intros H.
  destruct (Cmd.t other =? Cmd.t this) eqn:T; cbn [negb] in H;
    [|discriminate].
  destruct (Cmd._op other =? Cmd._op this) eqn:P; cbn [negb] in H;
    [|discriminate].
  apply Z.eqb_eq in T, P. auto.
Qed.

Lemma Cmd_equal_body ptr_eq this other :
  Cmd.t other = Cmd.t this -> Cmd._op other = Cmd._op this ->
  Cmd_equal ptr_eq this other
  = match Cmd.op this with
    | Some AmpSet | Some FreqSet | Some Phase | Some ModChn =>
        (Cmd.final_val other =? Cmd.final_val this)
        && (Cmd.chn other =? Cmd.chn this)
    | Some Meta =>
        if is_meta this TriggerEnd || is_meta this TriggerStart then
          (Cmd.chn other =? Cmd.chn this)
          && (Cmd.final_val this =? Cmd.final_val other)
        else
          (Cmd.final_val other =? Cmd.final_val this)
          && (Cmd.len other =? Cmd.len this)
          && ptr_eq (Cmd.fnptr other) (Cmd.fnptr this)
    | Some AmpFn | Some FreqFn | Some AmpVecFn | Some FreqVecFn =>
        (Cmd.final_val other =? Cmd.final_val this)
        && (Cmd.len other =? Cmd.len this)
        && ptr_eq (Cmd.fnptr other) (Cmd.fnptr this)
    | None => false
    end.
Proof.
  intros T P. unfold Cmd_equal. rewrite T, P, !Z.eqb_refl. cbn [negb].
  destruct (Cmd.op this) as [[]|]; cbv zeta;
    repeat match goal with
      | |- context [?a =? ?b] => destruct (a =? b)
      end; cbn [andb negb];
    repeat match goal with
      | |- context [if ?c then _ else _] => destruct c
      end; reflexivity.
Qed.

(** X1.  [Cmd::operator==] on a setting, a [Phase] or [ModChn] command or
    a trigger: the two commands are equal exactly when their time, opcode,
    channel field and final value agree.  The length and the generator
    pointer are not looked at. *)
Theorem X1_equal_exact ptr_eq this other :
  exact_like this = true ->
  (Cmd_equal ptr_eq this other = true <->
   Cmd.t other = Cmd.t this /\ Cmd._op other = Cmd._op this /\
   Cmd.chn other = Cmd.chn this /\ Cmd.final_val other = Cmd.final_val this).
Proof.
  intros H. split.
  - intros E. destruct (Cmd_equal_head _ _ _ E) as [T P].
    rewrite (Cmd_equal_body _ _ _ T P) in E.
    split; [exact T|]. split; [exact P|].
    unfold exact_like in H.
    repeat (apply orb_true_iff in H; destruct H as [H|H]);
      try (apply op_is_op in H; rewrite H in E;
           apply andb_true_iff in E; destruct E as [E1 E2];
           apply Z.eqb_eq in E1, E2; auto).
    apply andb_true_iff in H. destruct H as [H1 H2].
    apply op_is_op in H1. rewrite H1, H2 in E.
    apply andb_true_iff in E. destruct E as [E1 E2].
    apply Z.eqb_eq in E1, E2. auto.
  - intros (T & P & C & F). rewrite (Cmd_equal_body _ _ _ T P).
    rewrite C, F, !Z.eqb_refl. unfold exact_like in H.
    repeat (apply orb_true_iff in H; destruct H as [H|H]);
      try (apply op_is_op in H; rewrite H; reflexivity).
    apply andb_true_iff in H. destruct H as [H1 H2].
    apply op_is_op in H1. rewrite H1, H2. reflexivity.
Qed.

Lemma X1_equal_exact_witness :
  exact_like (Cmd.getAmpSet 3 1 7) = true /\
  Cmd_equal ex_ptr_eq (Cmd.getAmpSet 3 1 7) (Cmd.getAmpSet 3 1 7) = true /\
  Cmd_equal ex_ptr_eq (Cmd.getAmpSet 3 1 7) (Cmd.getAmpSet 3 2 7) = false.
Proof.
  split; [reflexivity|]. split.
  - apply (X1_equal_exact ex_ptr_eq (Cmd.getAmpSet 3 1 7)); [reflexivity|].
    repeat split.
  - destruct (Cmd_equal ex_ptr_eq (Cmd.getAmpSet 3 1 7) (Cmd.getAmpSet 3 2 7))
      eqn:E; [|reflexivity].
    apply (X1_equal_exact ex_ptr_eq (Cmd.getAmpSet 3 1 7)) in E;
      [|reflexivity].
    destruct E as (_ & _ & C & _). vm_compute in C. discriminate.
Defined.

(** X2.  [Cmd::operator==] on a ramp, and on a [Reset] or [ResetAll]
    command, which falls through from the [Meta] case into the ramp case:
    the two commands are equal exactly when time, opcode, final value and
    length agree and the generator pointers are equal.  The channel field
    is not compared, so the same ramp on two channels compares equal, and
    so do a [Reset] and a [ResetAll] of the same time. *)
Theorem X2_equal_ignores_channel ptr_eq this other :
  ramp_like this = true ->
  (Cmd_equal ptr_eq this other = true <->
   Cmd.t other = Cmd.t this /\ Cmd._op other = Cmd._op this /\
   Cmd.final_val other = Cmd.final_val this /\
   Cmd.len other = Cmd.len this /\
   ptr_eq (Cmd.fnptr other) (Cmd.fnptr this) = true).
Proof.
  intros H.
  assert (B : Cmd.t other = Cmd.t this -> Cmd._op other = Cmd._op this ->
              Cmd_equal ptr_eq this other
              = (Cmd.final_val other =? Cmd.final_val this)
                && (Cmd.len other =? Cmd.len this)
                && ptr_eq (Cmd.fnptr other) (Cmd.fnptr this)).
  { intros T P. rewrite (Cmd_equal_body _ _ _ T P). unfold ramp_like in H.
    repeat (apply orb_true_iff in H; destruct H as [H|H]);
      try (apply op_is_op in H; rewrite H; reflexivity).
    apply andb_true_iff in H. destruct H as [H1 H2].
    apply op_is_op in H1. apply negb_true_iff in H2. rewrite H1, H2.
    reflexivity. }
  split.
  - intros E. destruct (Cmd_equal_head _ _ _ E) as [T P].
    rewrite (B T P) in E.
    apply andb_true_iff in E. destruct E as [E E3].
    apply andb_true_iff in E. destruct E as [E1 E2].
    apply Z.eqb_eq in E1, E2. auto.
  - intros (T & P & F & L & Q). rewrite (B T P), F, L, !Z.eqb_refl, Q.
    reflexivity.
Qed.

Lemma X2_equal_ignores_channel_witness :
  ramp_like (Cmd.getReset 4) = true /\
  Cmd.chn (Cmd.getReset 4) <> Cmd.chn (Cmd.getResetAll 4) /\
  Cmd_equal ex_ptr_eq (Cmd.getReset 4) (Cmd.getResetAll 4) = true.
Proof.
  split; [reflexivity|]. split; [vm_compute; discriminate|].
  apply (X2_equal_ignores_channel ex_ptr_eq (Cmd.getReset 4));
    [reflexivity|]. repeat split.
Defined.

(** X3.  [Cmd::operator==] is not an equivalence.  With null pointers
    comparing equal, a [Reset] equals the [TriggerEnd] of the same time
    but not the other way round (the case is chosen by the left operand
    alone), and a command whose opcode field names no [CmdType] is not
    equal to itself. *)
Theorem X3_equal_not_an_equivalence ptr_eq :
  ptr_eq NullFn NullFn = true ->
  (forall t,
     Cmd_equal ptr_eq (Cmd.getReset t) (Cmd.getTriggerEnd t) = true /\
     Cmd_equal ptr_eq (Cmd.getTriggerEnd t) (Cmd.getReset t) = false) /\
  (forall c, Cmd.op c = None -> Cmd_equal ptr_eq c c = false).
Proof.
  intros N. split.
  - intros t. split.
    + unfold Cmd_equal. cbn. rewrite Z.eqb_refl. cbn. exact N.
    + unfold Cmd_equal. cbn. rewrite Z.eqb_refl. reflexivity.
  - intros c O. rewrite Cmd_equal_body by reflexivity. rewrite O.
    reflexivity.
Qed.

Lemma X3_equal_not_an_equivalence_witness :
  Cmd_equal ex_ptr_eq (Cmd.getReset 0) (Cmd.getTriggerEnd 0) = true /\
  Cmd_equal ex_ptr_eq (Cmd.getTriggerEnd 0) (Cmd.getReset 0) = false /\
  Cmd_equal ex_ptr_eq ex_bad_op ex_bad_op = false.
Proof.
  destruct (X3_equal_not_an_equivalence ex_ptr_eq eq_refl) as [A B].
  destruct (A 0) as [A1 A2].
  split; [exact A1|]. split; [exact A2|]. apply B. reflexivity.
Defined.

(** ** The writer's side of the pipe *)

Lemma u32_small x : 0 <= x < 2 ^ 32 -> u32 x = x.
Proof. intros H. unfold u32. apply Z.mod_small. exact H. Qed.

Lemma skipn_all_len {A} (l : list A) n : n = length l -> skipn n l = [].
Proof. intros ->. apply skipn_all. Qed.

Lemma firstn_all_len {A} (l : list A) n : n = length l -> firstn n l = l.
Proof. intros ->. apply firstn_all. Qed.

Lemma window_nil w :
  writer_ok w -> m_cmd_wrote w = 0 -> w_window w = [].
Proof.
  intros (_ & _ & L & _) H. rewrite H in L.
  destruct (w_window w); [reflexivity | simpl in L; lia].
Qed.

(** What [copy_cmds] does on a writer at rest. *)
Lemma copy_cmds_spec avail cmds sz w :
  writer_ok w -> 0 <= avail < 2 ^ 32 ->
  0 <= sz <= Z.of_nat (length cmds) ->
  let k := Z.min sz (room avail w) in
  exists w',
    copy_cmds avail cmds sz w = Ok (k, w') /\
    writer_ok w' /\
    written w' = written w ++ firstn (Z.to_nat k) cmds /\
    (0 < k -> k = room avail w ->
     w_window w' = [] /\ m_cmd_max_write w' = 0) /\
    (k < room avail w ->
     w_published w' = w_published w /\
     m_cmd_max_write w' - m_cmd_wrote w' = room avail w - k).
Proof.
  intros Ok0 Ha Hs k.
  pose proof Ok0 as (W0 & M32 & L & D).
  (* the writer after the probe *)
  set (w1 := snd (probe_cmd_input avail w)).
  assert (P : (fst (probe_cmd_input avail w) = negb (room avail w =? 0)) /\
              w_published w1 = w_published w /\
              w_window w1 = w_window w /\
              m_cmd_max_write w1 - m_cmd_wrote w1 = room avail w /\
              0 <= m_cmd_wrote w1 /\ m_cmd_max_write w1 < 2 ^ 32 /\
              Z.of_nat (length (w_window w1)) = m_cmd_wrote w1 /\
              0 <= room avail w).
  { unfold w1, probe_cmd_input, room.
    destruct (m_cmd_wrote w =? m_cmd_max_write w) eqn:E.
    - apply Z.eqb_eq in E.
      assert (Z0 : m_cmd_wrote w = 0) by lia.
      rewrite (window_nil w Ok0 Z0).
      cbn [m_cmd_max_write]. destruct (avail =? 0) eqn:A; cbn;
        repeat split; try lia; reflexivity.
    - apply Z.eqb_neq in E.
      destruct (m_cmd_max_write w - m_cmd_wrote w =? 0) eqn:A.
      + apply Z.eqb_eq in A. lia.
      + cbn. repeat split; try lia. }
  destruct P as (Pf & Pp & Pw & Pr & P0 & P32 & PL & R0).
  unfold copy_cmds. fold w1. rewrite Pf, negb_involutive.
  destruct (room avail w =? 0) eqn:RZ.
  - (* no room *)
    apply Z.eqb_eq in RZ.
    assert (K : k = 0) by (unfold k; lia).
    exists w1. rewrite K.
    assert (W1 : m_cmd_wrote w1 = 0 /\ m_cmd_max_write w1 = 0).
    { unfold w1, probe_cmd_input, room in *.
      destruct (m_cmd_wrote w =? m_cmd_max_write w) eqn:E.
      - subst avail. cbn. auto.
      - apply Z.eqb_neq in E. lia. }
    destruct W1 as [W1a W1b].
    split; [reflexivity|]. split.
    { unfold writer_ok. rewrite W1a, W1b, PL, W1a. repeat split; lia. }
    split.
    { unfold written. rewrite Pp, Pw, app_nil_r. reflexivity. }
    split; intros; lia.
  - apply Z.eqb_neq in RZ. cbv zeta.
    rewrite Pr, (u32_small (room avail w)) by lia. fold k.
    assert (Kb : 0 <= k <= room avail w) by (unfold k; lia).
    assert (Kl : k <= Z.of_nat (length cmds)) by (unfold k; lia).
    destruct (Z.of_nat (length cmds) <? k) eqn:OOB;
      [apply Z.ltb_lt in OOB; lia|].
    cbn [m_cmd_wrote m_cmd_max_write].
    rewrite (u32_small (m_cmd_wrote w1 + k)) by lia.
    assert (FL : Z.of_nat (length (firstn (Z.to_nat k) cmds)) = k).
    { rewrite length_firstn. lia. }
    destruct (m_cmd_wrote w1 + k =? m_cmd_max_write w1) eqn:Full.
    + (* the region is used up: everything is committed *)
      apply Z.eqb_eq in Full.
      eexists. split; [reflexivity|].
      unfold wrote_size. cbn [w_window w_published m_cmd_max_write m_cmd_wrote].
      assert (LL : Z.to_nat (m_cmd_max_write w1)
                   = length (w_window w1 ++ firstn (Z.to_nat k) cmds)).
      { rewrite length_app. lia. }
      rewrite (skipn_all_len _ _ LL), (firstn_all_len _ _ LL).
      split.
      { unfold writer_ok. cbn. repeat split; lia. }
      split.
      { unfold written. cbn. rewrite app_nil_r, Pp, Pw, app_assoc. reflexivity. }
      split; [auto | intros; lia].
    + apply Z.eqb_neq in Full.
      eexists. split; [reflexivity|].
      split.
      { unfold writer_ok. cbn. rewrite length_app. repeat split; lia. }
      split.
      { unfold written. cbn. rewrite Pp, Pw, app_assoc. reflexivity. }
      split; [intros; lia|]. intros _. cbn. split; [exact Pp | lia].
Qed.

Lemma flush_cmd_spec w :
  writer_ok w ->
  writer_ok (flush_cmd w) /\
  w_window (flush_cmd w) = [] /\
  w_published (flush_cmd w) = written w /\
  m_cmd_wrote (flush_cmd w) = 0 /\
  m_cmd_max_write (flush_cmd w) = m_cmd_max_write w - m_cmd_wrote w.
Proof.
  intros Ok0. pose proof Ok0 as (W0 & M32 & L & D). unfold flush_cmd.
  destruct (m_cmd_wrote w =? 0) eqn:E; cbn [negb].
  - apply Z.eqb_eq in E. pose proof (window_nil w Ok0 E) as N.
    split; [exact Ok0|]. split; [exact N|].
    unfold written. rewrite N, app_nil_r. repeat split; lia.
  - apply Z.eqb_neq in E. cbv zeta. unfold wrote_size.
    cbn [w_window w_published m_cmd_max_write m_cmd_wrote].
    assert (LL : Z.to_nat (m_cmd_wrote w) = length (w_window w)) by lia.
    rewrite (skipn_all_len _ _ LL), (firstn_all_len _ _ LL).
    rewrite u32_small by lia.
    split.
    { unfold writer_ok. cbn. repeat split; lia. }
    repeat split.
Qed.

Lemma room_zero avail w :
  writer_ok w -> 0 <= avail -> room avail w = 0 ->
  avail = 0 /\ m_cmd_max_write w = 0 /\ m_cmd_wrote w = 0.
Proof.
  intros (W0 & M32 & L & D) Ha. unfold room.
  destruct (m_cmd_wrote w =? m_cmd_max_write w) eqn:E.
  - apply Z.eqb_eq in E. lia.
  - apply Z.eqb_neq in E. lia.
Qed.

Lemma room_nonneg avail w : writer_ok w -> 0 <= avail -> 0 <= room avail w.
Proof.
  intros (W0 & M32 & L & D) Ha. unfold room.
  destruct (m_cmd_wrote w =? m_cmd_max_write w); lia.
Qed.

(** X4.  [copy_cmds] on a writer between two calls, given at least [sz]
    commands: it takes the first [min sz room] of them, [room] being what
    is left of the region or what a new reservation yields, and returns
    that number (0 when the pipe is full).  What the writer has written
    since the start grows by exactly these commands, in order; the
    writer's fields are again as between two calls; and a [flush_cmd]
    afterwards has everything written committed. *)
Theorem X4_copy_cmds_takes_prefix avail cmds sz w :
  writer_ok w -> 0 <= avail < 2 ^ 32 ->
  0 <= sz <= Z.of_nat (length cmds) ->
  exists w',
    copy_cmds avail cmds sz w = Ok (Z.min sz (room avail w), w') /\
    writer_ok w' /\
    written w' = written w ++ firstn (Z.to_nat (Z.min sz (room avail w))) cmds /\
    w_published (flush_cmd w')
    = written w ++ firstn (Z.to_nat (Z.min sz (room avail w))) cmds.
Proof.
  intros Ok0 Ha Hs.
  destruct (copy_cmds_spec avail cmds sz w Ok0 Ha Hs)
    as (w' & C & Ok1 & Wr & _).
  exists w'. split; [exact C|]. split; [exact Ok1|]. split; [exact Wr|].
  destruct (flush_cmd_spec w' Ok1) as (_ & _ & F & _). rewrite F. exact Wr.
Qed.

Lemma X4_copy_cmds_takes_prefix_witness :
  writer_ok ex_writer /\
  exists w',
    copy_cmds 0 ex_backlog 3 ex_writer = Ok (2, w') /\
    written w' = [Cmd.getAddChn 0; Cmd.getAmpSet 1 0 7; Cmd.getAmpSet 2 0 8].
Proof.
  assert (W : writer_ok ex_writer).
  { unfold writer_ok, ex_writer. cbn. repeat split; try lia. }
  split; [exact W|].
  destruct (X4_copy_cmds_takes_prefix 0 ex_backlog 3 ex_writer W)
    as (w' & C & _ & Wr & _).
  - lia.
  - cbn. lia.
  - exists w'. split; [exact C | exact Wr].
Defined.

(** X5.  [flush_cmd] commits every written and uncommitted command, in
    order, after the commands committed before; the region shrinks by the
    number committed, nothing stays uncommitted, and a second [flush_cmd]
    changes nothing. *)
Theorem X5_flush_cmd_publishes w :
  writer_ok w ->
  writer_ok (flush_cmd w) /\
  w_published (flush_cmd w) = w_published w ++ w_window w /\
  w_window (flush_cmd w) = [] /\
  m_cmd_max_write (flush_cmd w) = m_cmd_max_write w - m_cmd_wrote w /\
  flush_cmd (flush_cmd w) = flush_cmd w.
Proof.
  intros Ok0.
  destruct (flush_cmd_spec w Ok0) as (Ok1 & N & P & Z0 & M).
  split; [exact Ok1|]. split; [exact P|]. split; [exact N|].
  split; [exact M|].
  unfold flush_cmd at 1. rewrite Z0. reflexivity.
Qed.

Lemma X5_flush_cmd_publishes_witness :
  writer_ok ex_writer /\
  w_published (flush_cmd ex_writer) = [Cmd.getAddChn 0] /\
  m_cmd_max_write (flush_cmd ex_writer) = 2.
Proof.
  assert (W : writer_ok ex_writer).
  { unfold writer_ok, ex_writer. cbn. repeat split; try lia. }
  split; [exact W|].
  destruct (X5_flush_cmd_publishes ex_writer W) as (_ & P & _ & M & _).
  split; [exact P | exact M].
Defined.

Lemma try_add_cmd_spec avail cmd w :
  writer_ok w -> 0 <= avail < 2 ^ 32 ->
  exists w',
    try_add_cmd avail cmd w = Ok (negb (room avail w =? 0), w') /\
    writer_ok w' /\
    (room avail w = 0 -> written w' = written w /\ m_cmd_max_write w = 0 /\
                         avail = 0) /\
    (room avail w <> 0 -> written w' = written w ++ [cmd]).
Proof.
  intros Ok0 Ha.
  destruct (copy_cmds_spec avail [cmd] 1 w Ok0 Ha) as (w' & C & Ok1 & Wr & _).
  { cbn. lia. }
  pose proof (room_nonneg avail w Ok0 (proj1 Ha)) as R0.
  exists w'. unfold try_add_cmd. rewrite C. cbn [bind].
  destruct (room avail w =? 0) eqn:E.
  - apply Z.eqb_eq in E. rewrite E in *.
    change (Z.min 1 0) with 0 in *. cbn in Wr. rewrite app_nil_r in Wr.
    split; [reflexivity|]. split; [exact Ok1|].
    split; [|intros; lia]. intros _.
    destruct (room_zero avail w Ok0 (proj1 Ha) E) as (A & M & _). auto.
  - apply Z.eqb_neq in E.
    assert (K : Z.min 1 (room avail w) = 1) by lia.
    rewrite K in *. split; [reflexivity|]. split; [exact Ok1|].
    split; [intros; lia|]. intros _. exact Wr.
Qed.

(** X6.  [add_cmd], run over the successive answers [avails] of the write
    reservations it may make: it ends at the first attempt that finds
    room, the command is then written exactly once, behind everything
    written before.  When no attempt of the run found room, every
    reservation answered 0. *)
Theorem X6_add_cmd_appends_once avails cmd : forall w,
  writer_ok w -> Forall (fun a => 0 <= a < 2 ^ 32) avails ->
  exists r,
    add_cmd avails cmd w = Ok r /\
    match r with
    | Some w' => writer_ok w' /\ written w' = written w ++ [cmd]
    | None =>
        Forall (fun a => a = 0) avails /\
        (avails <> [] -> m_cmd_max_write w = 0)
    end.
Proof.
  induction avails as [|avail rest IH]; intros w Ok0 Hall.
  - exists None. split; [reflexivity|]. split; [constructor | congruence].
  - inversion Hall as [|? ? Ha Hrest]; subst.
    destruct (try_add_cmd_spec avail cmd w Ok0 Ha)
      as (w' & T & Ok1 & Z0 & NZ).
    cbn [add_cmd]. rewrite T. cbn [bind].
    destruct (room avail w =? 0) eqn:E; cbn [negb].
    + apply Z.eqb_eq in E. destruct (Z0 E) as (Wr & M & A).
      destruct (IH w' Ok1 Hrest) as (r & R & Hr).
      exists r. split; [exact R|].
      destruct r as [w''|].
      * destruct Hr as [Ok2 Wr2]. split; [exact Ok2|]. congruence.
      * destruct Hr as [F _]. split; [constructor; assumption | auto].
    + apply Z.eqb_neq in E. exists (Some w'). split; [reflexivity|].
      split; [exact Ok1 | exact (NZ E)].
Qed.

Lemma X6_add_cmd_appends_once_witness :
  exists w',
    add_cmd [0; 0; 5] (Cmd.getAddChn 0) init_writer = Ok (Some w') /\
    written w' = [Cmd.getAddChn 0].
Proof.
  assert (W : writer_ok init_writer).
  { unfold writer_ok, init_writer. cbn. repeat split; try lia. }
  destruct (X6_add_cmd_appends_once [0; 0; 5] (Cmd.getAddChn 0) init_writer W)
    as (r & R & Hr).
  - repeat constructor; lia.
  - destruct r as [w'|].
    + exists w'. split; [exact R|]. apply Hr.
    + destruct Hr as [F _]. exfalso.
      inversion F as [|? ? _ F1]; subst.
      inversion F1 as [|? ? _ F2]; subst.
      inversion F2 as [|? ? F3 _]; subst. discriminate.
Defined.

(** ** The reader's cursor *)

Lemma hd_error_skipn_app {A} (l r : list A) n a :
  nth_error l n = Some a -> hd_error (skipn n l ++ r) = Some a.
Proof.
  revert n. induction l as [|x l IH]; intros n H.
  - destruct n; discriminate.
  - destruct n as [|n]; simpl in *; [exact H | apply IH; exact H].
Qed.

Lemma tl_skipn_app {A} (l r : list A) n :
  (n < length l)%nat -> tl (skipn n l ++ r) = skipn (S n) l ++ r.
Proof.
  revert n. induction l as [|x l IH]; intros n H; simpl in H; [lia|].
  destruct n as [|n]; [reflexivity|]. simpl. apply IH. lia.
Qed.

Lemma cursor_cmd_next_spec r :
  reader_ok r -> m_cmd_read r < m_cmd_max_read r ->
  unread (cursor_cmd_next r) = cmd_next (unread r) /\
  reader_ok (cursor_cmd_next r) /\
  r_released (cursor_cmd_next r)
  = (if m_cmd_read r + 1 =? m_cmd_max_read r
     then r_released r + m_cmd_max_read r else r_released r).
Proof.
  intros (R0 & M32 & L) Lt. unfold cursor_cmd_next, unread, cmd_next.
  cbv zeta. cbn [m_cmd_read r_batch r_pipe m_cmd_max_read r_released].
  rewrite u32_small by lia. split; [|split; [|reflexivity]].
  - rewrite tl_skipn_app by lia.
    replace (Z.to_nat (m_cmd_read r + 1)) with (S (Z.to_nat (m_cmd_read r)))
      by lia. reflexivity.
  - unfold reader_ok. cbn [m_cmd_read r_batch r_pipe m_cmd_max_read].
    repeat split; lia.
Qed.

(** X7.  The reader's cursor implements the list the step works on.  For
    a cursor between two calls, and a read reservation that yields a
    non-empty region whenever commands are committed: [get_cmd] returns
    the head of the unread commands (no command exactly when none is
    left), leaves the unread commands and the released slots as they are,
    and after it [cmd_next] drops exactly that head; [cmd_next] gives the
    region back, whole, when its last command has been passed. *)
Theorem X7_cursor_reads_in_order grant r :
  reader_ok r ->
  0 <= grant <= Z.of_nat (length (r_pipe r)) -> grant < 2 ^ 32 ->
  (grant = 0 -> r_pipe r = []) ->
  exists r',
    cursor_get_cmd grant r = Ok (get_cmd (unread r), r') /\
    unread r' = unread r /\ reader_ok r' /\
    r_released r' = r_released r /\
    (get_cmd (unread r) <> None ->
     unread (cursor_cmd_next r') = cmd_next (unread r) /\
     reader_ok (cursor_cmd_next r') /\
     r_released (cursor_cmd_next r')
     = (if m_cmd_read r' + 1 =? m_cmd_max_read r'
        then r_released r + m_cmd_max_read r' else r_released r)).
Proof.
  intros Ok0 Hg G32 Hz. pose proof Ok0 as (R0 & M32 & L).
  unfold cursor_get_cmd.
  destruct (m_cmd_read r =? m_cmd_max_read r) eqn:E.
  - apply Z.eqb_eq in E.
    assert (U : unread r = r_pipe r).
    { unfold unread. rewrite skipn_all2 by lia. reflexivity. }
    set (r1 := mk_Reader 0 grant (firstn (Z.to_nat grant) (r_pipe r))
                 (skipn (Z.to_nat grant) (r_pipe r)) (r_released r)).
    assert (U1 : unread r1 = unread r).
    { rewrite U. unfold unread, r1. cbn. apply firstn_skipn. }
    assert (Ok1 : reader_ok r1).
    { unfold reader_ok, r1. cbn. rewrite length_firstn. repeat split; lia. }
    cbv zeta. fold r1. cbn [m_cmd_max_read r1].
    destruct (grant =? 0) eqn:GZ.
    + apply Z.eqb_eq in GZ. exists r1. rewrite U, (Hz GZ).
      split; [reflexivity|]. split; [rewrite U1, U, (Hz GZ); reflexivity|].
      split; [exact Ok1|]. split; [reflexivity|].
      intros H. exfalso. apply H. reflexivity.
    + apply Z.eqb_neq in GZ.
      destruct (r_pipe r) as [|c rest] eqn:P; [simpl in Hg; lia|].
      assert (G : get (r_batch r1) (m_cmd_read r1) = Ok c).
      { apply get_Ok. unfold r1. cbn [r_batch m_cmd_read].
        rewrite length_firstn. split; [lia|].
        change (Z.to_nat 0) with 0%nat.
        destruct (Z.to_nat grant) eqn:N; [lia|]. reflexivity. }
      exists r1. rewrite G. cbn [bind]. rewrite U.
      split; [reflexivity|]. split; [rewrite U1, U; reflexivity|].
      split; [exact Ok1|]. split; [reflexivity|]. intros _.
      rewrite <- U, <- U1.
      change (r_released r) with (r_released r1).
      apply cursor_cmd_next_spec; [exact Ok1|].
      unfold r1. cbn. lia.
  - apply Z.eqb_neq in E.
    destruct (get_in_range (r_batch r) (m_cmd_read r)) as [c G]; [lia|].
    rewrite G. cbn [bind]. exists r.
    assert (H : get_cmd (unread r) = Some c).
    { unfold get_cmd, unread. apply hd_error_skipn_app.
      apply get_Ok in G. apply G. }
    rewrite H. split; [reflexivity|]. split; [reflexivity|].
    split; [exact Ok0|]. split; [reflexivity|]. intros _.
    apply cursor_cmd_next_spec; [exact Ok0 | lia].
Qed.

Lemma X7_cursor_reads_in_order_witness :
  reader_ok ex_reader /\
  exists r',
    cursor_get_cmd 3 ex_reader = Ok (Some (Cmd.getAmpSet 1 0 7), r') /\
    unread (cursor_cmd_next r') = [Cmd.getAmpSet 2 0 8; Cmd.getAmpSet 3 0 9].
Proof.
  assert (W : reader_ok ex_reader).
  { unfold reader_ok, ex_reader. cbn. repeat split; lia. }
  split; [exact W|].
  destruct (X7_cursor_reads_in_order 3 ex_reader W) as (r' & G & _ & _ & _ & N).
  - cbn. lia.
  - lia.
  - discriminate.
  - exists r'. split; [exact G|]. apply N. discriminate.
Defined.

(** ** The cache of a scalar ramp *)

Lemma is_scalar_not_vec c : is_scalar c = true -> is_vec c = false.
Proof.
  unfold is_scalar, is_vec, is_op. intros H.
  apply orb_true_iff in H. destruct H as [H|H]; apply Z.eqb_eq in H;
    rewrite H; reflexivity.
Qed.

Lemma grow_vals_cache f vs bound :
  vs = map (fun k => f (Z.of_nat k)) (seq 0 (length vs)) ->
  grow_vals f vs bound
  = map (fun k => f (Z.of_nat k))
        (seq 0 (Nat.max (length vs) (Z.to_nat bound))).
Proof.
  intros C. unfold grow_vals. rewrite C at 1. rewrite <- map_app.
  f_equal.
  replace (Nat.max (length vs) (Z.to_nat bound))
    with (length vs + (Z.to_nat bound - length vs))%nat by lia.
  rewrite seq_app. reflexivity.
Qed.

Lemma get_map_seq (f : nat -> Z) n t :
  0 <= t < Z.of_nat n -> get (map f (seq 0 n)) t = Ok (f (Z.to_nat t)).
Proof.
  intros H. apply get_Ok. rewrite length_map, length_seq. split; [lia|].
  rewrite nth_error_map, nth_error_seq.
  destruct (Nat.ltb_spec (Z.to_nat t) n); [reflexivity | lia].
Qed.

(** X8.  [activeCmd::eval] on a scalar ramp whose generator returns
    [int32_t] values and whose cache holds the generator's values at 0, 1,
    ..., at a relative step [t] where the difference to the next value
    does not overflow [int32_t]: the result is the generator's value at
    [t] and the difference to its value at [t + 1]; the cache is extended
    to [t + 2] entries when it is shorter, never shortened or changed, and
    holds the generator's values again; evaluating a second time at [t]
    gives the same pair and leaves the cache alone. *)
Theorem X8_scalar_eval_cache f a t :
  is_scalar (m_cmd a) = true ->
  Cmd.fnptr (m_cmd a) = ScalarFn f ->
  cache_ok f a ->
  0 <= t -> t + 2 < 2 ^ 32 ->
  (forall k, 0 <= k < Z.max (Z.of_nat (length (vals a))) (t + 2) ->
             is_int32 (f k)) ->
  is_int32 (f (t + 1) - f t) ->
  exists a',
    eval a t = Ok (a', (f t, f (t + 1) - f t)) /\
    m_cmd a' = m_cmd a /\
    cache_ok f a' /\
    Forall is_int32 (vals a') /\
    length (vals a') = Nat.max (length (vals a)) (Z.to_nat (t + 2)) /\
    firstn (length (vals a)) (vals a') = vals a /\
    eval a' t = Ok (a', (f t, f (t + 1) - f t)).
Proof.
  intros S P C T0 T1 R D.
  set (n := Nat.max (length (vals a)) (Z.to_nat (t + 2))).
  set (tab := map (fun k => f (Z.of_nat k)) (seq 0 n)).
  assert (E : forall b, m_cmd b = m_cmd a -> cache_ok f b ->
              (length (vals b) <= n)%nat ->
              Nat.max (length (vals b)) (Z.to_nat (t + 2)) = n ->
              eval b t
              = Ok (mk_activeCmd (m_cmd a) tab, (f t, f (t + 1) - f t))).
  { intros b Mb Cb Lb Nb. unfold eval. rewrite Mb.
    rewrite (is_scalar_not_vec _ S), S, P. cbn [vals].
    rewrite !u32_small by lia.
    rewrite (grow_vals_cache f (vals b) (t + 2) Cb), Nb. fold tab.
    unfold tab. rewrite !get_map_seq by lia. cbn [bind].
    rewrite !Z2Nat.id by lia. rewrite (i32_small _ D). reflexivity. }
  exists (mk_activeCmd (m_cmd a) tab).
  assert (Lt : length tab = n) by (unfold tab; now rewrite length_map, length_seq).
  assert (Ct : cache_ok f (mk_activeCmd (m_cmd a) tab)).
  { unfold cache_ok. cbn [vals]. rewrite Lt. reflexivity. }
  split; [apply E; [reflexivity | exact C | lia | reflexivity]|].
  split; [reflexivity|]. split; [exact Ct|].
  split.
  { cbn [vals]. unfold tab. apply Forall_forall. intros x Hx.
    apply in_map_iff in Hx. destruct Hx as (k & <- & Hk).
    apply in_seq in Hk. apply R. unfold n in Hk. lia. }
  split; [exact Lt|].
  split.
  - cbn [vals]. unfold tab, n.
    replace (Nat.max (length (vals a)) (Z.to_nat (t + 2)))
      with (length (vals a) + (Z.to_nat (t + 2) - length (vals a)))%nat by lia.
    rewrite seq_app, map_app, firstn_app, length_map, length_seq.
    rewrite Nat.sub_diag, firstn_O, app_nil_r.
    rewrite firstn_all2 by (rewrite length_map, length_seq; lia).
    symmetry. exact C.
  - apply E; [reflexivity | exact Ct | cbn [vals]; lia | cbn [vals]; lia].
Qed.

Lemma X8_scalar_eval_cache_witness :
  exists a a',
    new_activeCmd ex_ramp = Ok a /\
    eval a 1 = Ok (a', (5, 5)) /\ vals a' = [0; 5; 10].
Proof.
  exists (mk_activeCmd ex_ramp []).
  destruct (X8_scalar_eval_cache (fun k => 5 * k) (mk_activeCmd ex_ramp []) 1)
    as (a' & E & _ & C & _ & L & _);
    [ reflexivity | reflexivity | reflexivity | lia | lia
    | intros k Hk; cbn [vals length] in Hk; unfold is_int32; lia
    | unfold is_int32; lia | ].
  exists a'. split; [reflexivity|]. split; [exact E|].
  unfold cache_ok in C. rewrite L in C. exact C.
Defined.

(** ** Adding a channel *)

Lemma add_chn_value : Cmd.add_chn = 2 ^ 28 - 1.
Proof. reflexivity. Qed.

(** X10.  Adding a channel ([ModChn] with the reserved channel value):
    when the state table has a free slot the live count grows by one, the
    new channel's state is zeroed, no other slot and no other field of
    the stream changes.  There is no capacity check: with a full table
    the write goes past the end of the table. *)
Theorem X10_add_channel cmd s :
  Cmd.chn cmd = Cmd.add_chn ->
  0 <= m_chns s -> m_chns s + 1 < 2 ^ 32 ->
  (m_chns s < Z.of_nat (length (m_states s)) ->
   exists s',
     mod_chn cmd s = Ok s' /\
     m_chns s' = m_chns s + 1 /\
     get (m_states s') (m_chns s) = Ok (State.mk 0 0 0) /\
     length (m_states s') = length (m_states s) /\
     (forall j, j <> m_chns s -> get (m_states s') j = get (m_states s) j) /\
     active_cmds s' = active_cmds s /\
     erase (set_chns (m_chns s) s') = erase s) /\
  (Z.of_nat (length (m_states s)) <= m_chns s ->
   mod_chn cmd s = Fault OutOfBounds).
Proof.
  intros A C0 C1. unfold mod_chn. rewrite A, Z.eqb_refl. split.
  - intros Lt. unfold set.
    assert (R : in_range (m_states s) (m_chns s) = true)
      by (apply in_range_spec; lia).
    rewrite R. cbn [bind]. eexists. split; [reflexivity|].
    cbn [m_chns m_states set_chns set_states].
    split; [apply u32_small; lia|].
    split; [apply get_set_nth_eq; lia|].
    split; [apply set_nth_length|].
    split; [|split; reflexivity].
    intros j Hj. unfold get, in_range. rewrite set_nth_length.
    destruct ((0 <=? j) && (j <? Z.of_nat (length (m_states s)))) eqn:E;
      [|reflexivity].
    apply andb_true_iff in E. destruct E as [E1 E2].
    apply Z.leb_le in E1. apply Z.ltb_lt in E2.
    rewrite nth_error_set_nth_ne by lia. reflexivity.
  - intros Ge. unfold set.
    assert (R : in_range (m_states s) (m_chns s) = false).
    { destruct (in_range (m_states s) (m_chns s)) eqn:E; [|reflexivity].
      apply in_range_spec in E. lia. }
    rewrite R. reflexivity.
Qed.

Lemma X10_add_channel_witness :
  exists s',
    mod_chn (Cmd.getAddChn 0) ex_three_chn = Ok s' /\ m_chns s' = 4 /\
    mod_chn (Cmd.getAddChn 0) s' = Fault OutOfBounds.
Proof.
  destruct (X10_add_channel (Cmd.getAddChn 0) ex_three_chn)
    as [Hadd _]; [reflexivity | unfold ex_three_chn; cbn [m_chns]; lia
                  | unfold ex_three_chn; cbn [m_chns]; lia |].
  destruct Hadd as (s' & M & C & _ & L & _);
    [unfold ex_three_chn; cbn [m_chns m_states length]; lia|].
  change (m_chns s' = 4) in C. change (length (m_states s') = 4%nat) in L.
  exists s'. split; [exact M|]. split; [exact C|].
  apply (X10_add_channel (Cmd.getAddChn 0) s');
    [reflexivity | rewrite C; lia | rewrite C; lia |].
  rewrite C, L. lia.
Defined.

(** X11.  Adding a channel and then removing the channel just added
    brings the live count back and leaves every live channel's state
    as it was; the slot used in between stays zeroed. *)
Theorem X11_add_then_remove t s :
  0 <= m_chns s < Z.of_nat (length (m_states s)) ->
  m_chns s < 2 ^ 28 - 1 ->
  exists s1 s2,
    mod_chn (Cmd.getAddChn t) s = Ok s1 /\
    mod_chn (Cmd.getDelChn t (m_chns s)) s1 = Ok s2 /\
    m_chns s2 = m_chns s /\
    m_states s2 = set_nth (m_states s) (Z.to_nat (m_chns s)) (State.mk 0 0 0) /\
    firstn (Z.to_nat (m_chns s)) (m_states s2)
    = firstn (Z.to_nat (m_chns s)) (m_states s) /\
    active_cmds s2 = active_cmds s /\
    erase s2 = erase s.
Proof.
  intros C0 C1.
  assert (P : (2 ^ 28 < 2 ^ 32)) by (vm_compute; reflexivity).
  assert (Q : 2 ^ chn_bits = 2 ^ 28) by reflexivity.
  set (s1 := set_chns (u32 (m_chns s + 1))
               (set_states (set_nth (m_states s) (Z.to_nat (m_chns s))
                                    (State.mk 0 0 0)) s)).
  assert (M1 : mod_chn (Cmd.getAddChn t) s = Ok s1).
  { unfold mod_chn. cbn [Cmd.chn Cmd.getAddChn]. rewrite Z.eqb_refl.
    unfold set.
    assert (R : in_range (m_states s) (m_chns s) = true)
      by (apply in_range_spec; lia).
    rewrite R. reflexivity. }
  assert (N1 : m_chns s1 = m_chns s + 1).
  { unfold s1. cbn [m_chns set_chns]. apply u32_small. lia. }
  assert (S1 : m_states s1
               = set_nth (m_states s) (Z.to_nat (m_chns s)) (State.mk 0 0 0))
    by reflexivity.
  assert (D : Cmd.chn (Cmd.getDelChn t (m_chns s)) = m_chns s).
  { cbn [Cmd.chn Cmd.getDelChn]. unfold Cmd.field. rewrite Q.
    apply Z.mod_small. lia. }
  assert (M2 : mod_chn (Cmd.getDelChn t (m_chns s)) s1
               = Ok (set_states
                       (set_nth (m_states s1) (Z.to_nat (m_chns s))
                                (State.mk 0 0 0))
                       (set_chns (m_chns s1 - 1) s1))).
  { rewrite <- D at 2. apply mod_chn_remove.
    - rewrite D, add_chn_value. lia.
    - rewrite N1. lia.
    - rewrite N1, S1. replace (m_chns s + 1 - 1) with (m_chns s) by lia.
      apply get_set_nth_eq. lia.
    - rewrite D, S1, set_nth_length. lia. }
  exists s1. eexists. split; [exact M1|]. split; [exact M2|].
  cbn [m_chns m_states set_chns set_states]. rewrite N1, S1.
  assert (I : forall (l : list State.T) n a,
             set_nth (set_nth l n a) n a = set_nth l n a).
  { induction l as [|x l IH]; intros [|n] a; cbn; try reflexivity.
    now rewrite IH. }
  assert (F : forall (l : list State.T) n a,
             firstn n (set_nth l n a) = firstn n l).
  { induction l as [|x l IH]; intros [|n] a; cbn; try reflexivity.
    now rewrite IH. }
  rewrite I. split; [lia|]. split; [reflexivity|]. split; [apply F|].
  split; [reflexivity|].
  unfold erase, s1, set_states, set_active_cmds, set_chns.
  cbn -[u32 Z.sub Z.add]. try rewrite u32_small by lia.
  replace (m_chns s + 1 - 1) with (m_chns s) by lia. reflexivity.
Qed.

Lemma X11_add_then_remove_witness :
  exists s1 s2,
    mod_chn (Cmd.getAddChn 0) ex_three_chn = Ok s1 /\
    mod_chn (Cmd.getDelChn 0 3) s1 = Ok s2 /\
    m_chns s2 = 3 /\ m_states s2 = m_states ex_three_chn.
Proof.
  destruct (X11_add_then_remove 0 ex_three_chn)
    as (s1 & s2 & M1 & M2 & C & S & _);
    [unfold ex_three_chn; cbn [m_chns m_states length]; lia
    | unfold ex_three_chn; cbn [m_chns]; lia |].
  exists s1, s2. split; [exact M1|]. split; [exact M2|].
  split; [exact C | exact S].
Defined.

(** ** The channel field of the factories *)

(** X12.  The channel of a command is kept in a 28-bit field: two
    channel numbers that agree modulo 2^28 give the same command, and the
    command removing channel 2^28 - 1 is the command adding a channel,
    which is what [mod_chn] then does. *)
Theorem X12_channel_field_aliases t c c' :
  (Cmd.getDelChn t c = Cmd.getDelChn t c' <-> c mod 2 ^ 28 = c' mod 2 ^ 28) /\
  (Cmd.getDelChn t c = Cmd.getAddChn t <-> c mod 2 ^ 28 = 2 ^ 28 - 1) /\
  (forall s, c mod 2 ^ 28 = 2 ^ 28 - 1 ->
             mod_chn (Cmd.getDelChn t c) s = mod_chn (Cmd.getAddChn t) s) /\
  (forall v, Cmd.getAmpSet t c v = Cmd.getAmpSet t c' v
             <-> c mod 2 ^ 28 = c' mod 2 ^ 28).
Proof.
  assert (Q : 2 ^ chn_bits = 2 ^ 28) by reflexivity.
  unfold Cmd.getDelChn, Cmd.getAddChn, Cmd.getAmpSet, Cmd.field.
  rewrite Q, add_chn_value.
  split; [|split; [|split]].
  - split; [intros [= H]; exact H | intros ->; reflexivity].
  - split; [intros [= H]; exact H | intros ->; reflexivity].
  - intros s ->. reflexivity.
  - intros v. split; [intros [= H]; exact H | intros ->; reflexivity].
Qed.

(** ** The vector factories *)

(** X13.  [getAmpVecFn] and [getFreqVecFn] store the opcodes of the
    scalar ramps: the commands they build are those of [getAmpFn] and
    [getFreqFn].  Such a command is never treated as a vector ramp: no
    table is precomputed when it becomes active, and its first
    evaluation calls the vector generator through the scalar signature,
    in the step and in catch-up consumption alike, whenever its window is
    open (for times and lengths of at most 24 bits, where the window test
    is exact). *)
Theorem X13_vector_factories_are_scalar t c v n g :
  Cmd.getAmpVecFn t c v n (VectorFn g) = Cmd.getAmpFn t c v n (VectorFn g) /\
  Cmd.getFreqVecFn t c v n (VectorFn g) = Cmd.getFreqFn t c v n (VectorFn g) /\
  (forall cmd,
     cmd = Cmd.getAmpVecFn t c v n (VectorFn g) \/
     cmd = Cmd.getFreqVecFn t c v n (VectorFn g) ->
     is_vec cmd = false /\
     new_activeCmd cmd = Ok (mk_activeCmd cmd []) /\
     (forall k, 0 <= k < 2 ^ 32 - 2 ->
                eval (mk_activeCmd cmd []) k = Fault BadCall) /\
     (forall s, window_exact cmd (m_cur_t s) ->
                Cmd.t cmd <= m_cur_t s ->
                (Cmd.t cmd + Cmd.len cmd >? m_cur_t s) = true ->
                new_ramp cmd s = Fault BadCall /\
                old_ramp cmd s = Fault BadCall)).
Proof.
  split; [reflexivity|]. split; [reflexivity|].
  intros cmd H.
  assert (V : is_vec cmd = false) by (destruct H as [-> | ->]; reflexivity).
  assert (S : is_scalar cmd = true) by (destruct H as [-> | ->]; reflexivity).
  assert (P : Cmd.fnptr cmd = VectorFn g) by (destruct H as [-> | ->]; reflexivity).
  assert (N : new_activeCmd cmd = Ok (mk_activeCmd cmd [])).
  { unfold new_activeCmd. rewrite V. reflexivity. }
  assert (E : forall k, eval (mk_activeCmd cmd []) k = Fault BadCall).
  { intros k. unfold eval. cbn [m_cmd]. rewrite V, S, P. reflexivity. }
  split; [exact V|]. split; [exact N|]. split; [intros k _; apply E|].
  intros s _ _ W. unfold new_ramp, old_ramp. rewrite W, N. cbn [bind].
  rewrite E. split; reflexivity.
Qed.

Lemma X13_vector_factories_are_scalar_witness :
  new_ramp (Cmd.getAmpVecFn 5 0 10 3 (VectorFn (fun ts => map (fun k => 2 * k) ts)))
           (set_cur_t 5 ex_one_chn)
  = Fault BadCall.
Proof.
  apply (X13_vector_factories_are_scalar 5 0 10 3
           (fun ts => map (fun k => 2 * k) ts));
    [ left; reflexivity
    | unfold window_exact; cbn; lia
    | cbn; lia
    | reflexivity ].
Defined.

(** ** The phase wrap-around *)

Lemma wrap_phase_reduces p : wrap_phase p = u64 p mod max_phase.
Proof.
  unfold wrap_phase.
  assert (U : 0 <= u64 p < 2 ^ 64) by (unfold u64; apply Z.mod_pos_bound; lia).
  assert (M : 0 <= u64 p mod max_phase < max_phase)
    by (apply Z.mod_pos_bound; reflexivity).
  assert (N : u64 (- max_phase) = 2 ^ 64 - max_phase) by reflexivity.
  assert (B : max_phase < 2 ^ 64 - max_phase) by (vm_compute; reflexivity).
  assert (C : (u64 p >? max_phase) || (u64 p <? u64 (- max_phase)) = true).
  { rewrite N. apply orb_true_iff.
    destruct (Z.ltb_spec (u64 p) (2 ^ 64 - max_phase)); [now right|].
    left. rewrite Z.gtb_ltb. apply Z.ltb_lt. lia. }
  rewrite C. unfold i64.
  assert (MP : max_phase < 2 ^ 63) by (vm_compute; reflexivity).
  rewrite Z.mod_small; lia.
Qed.

(** X14.  The phase the step stores is always in [[0, max_phase)]: the
    two comparisons of the wrap-around are unsigned, so one of them holds
    for every phase and the phase is always reduced.  For a non-negative
    phase the result is the phase modulo [max_phase]; a phase already in
    range is kept; the wrap is idempotent. *)
Theorem X14_wrap_phase_range p :
  0 <= wrap_phase p < max_phase /\
  wrap_phase (wrap_phase p) = wrap_phase p /\
  (0 <= p < 2 ^ 64 -> wrap_phase p = p mod max_phase) /\
  (0 <= p < max_phase -> wrap_phase p = p) /\
  wrap_phase max_phase = 0.
Proof.
  assert (R : 0 <= wrap_phase p < max_phase).
  { rewrite wrap_phase_reduces. apply Z.mod_pos_bound. reflexivity. }
  assert (MP : max_phase < 2 ^ 64) by (vm_compute; reflexivity).
  assert (S : forall x, 0 <= x < 2 ^ 64 -> wrap_phase x = x mod max_phase).
  { intros x Hx. rewrite wrap_phase_reduces. unfold u64.
    rewrite (Z.mod_small x) by lia. reflexivity. }
  split; [exact R|]. split; [|split; [apply S|split]].
  - rewrite (S (wrap_phase p)) by lia. apply Z.mod_small. exact R.
  - intros H. rewrite S by lia. apply Z.mod_small. exact H.
  - reflexivity.
Qed.

(** ** The size of the state table *)

Lemma mod_chn_len cmd s s' :
  mod_chn cmd s = Ok s' -> length (m_states s') = length (m_states s).
Proof.
  unfold mod_chn. intros H. unfold bind in H.
  destruct (Cmd.chn cmd =? Cmd.add_chn).
  - destruct (set _ _ _) as [sts|] eqn:S; [|discriminate].
    apply set_inv in S. destruct S as [_ ->]. injection H as <-.
    cbn. apply set_nth_length.
  - destruct (get _ _); [|discriminate].
    destruct (set _ _ _) as [sts|] eqn:S; [|discriminate].
    apply set_inv in S. destruct S as [_ ->]. injection H as <-.
    cbn. apply set_nth_length.
Qed.

Lemma check_start_len t id s :
  length (m_states (snd (check_start t id s))) = length (m_states s).
Proof. rewrite check_start_state. reflexivity. Qed.

Lemma apply_old_len cmd s s' b :
  apply_old cmd s = Ok (s', b) -> length (m_states s') = length (m_states s).
Proof.
  unfold apply_old. intros H.
  destruct (Cmd.op cmd) as [o|]; [|injection H as <- <-; reflexivity].
  destruct o; unfold bind in H;
    repeat match type of H with
      | context [upd_state ?i ?f ?x] =>
          let U := fresh "U" in
          destruct (upd_state i f x) eqn:U;
            [apply upd_state_frame in U; destruct U as (_ & _ & U)|discriminate]
      | context [old_ramp ?c ?x] =>
          let U := fresh "R" in
          destruct (old_ramp c x) as [[? ?]|] eqn:U;
            [apply old_ramp_frame in U; destruct U as (_ & U)|discriminate]
      | context [mod_chn ?c ?x] =>
          let U := fresh "M" in
          destruct (mod_chn c x) eqn:U; [apply mod_chn_len in U|discriminate]
      | context [if ?c then _ else _] => destruct c
      end;
    try discriminate; injection H as <- <-;
    try reflexivity; try (apply check_start_len); try congruence.
Qed.

Lemma consume_loop_len q : forall s q1 s1 r,
  consume_loop q s = Ok (q1, s1, r) ->
  length (m_states s1) = length (m_states s).
Proof.
  induction q as [|cmd q IH]; intros s q1 s1 r H; simpl in H.
  - injection H as <- <- <-. reflexivity.
  - destruct (Cmd.t cmd =? m_cur_t s); [injection H as <- <- <-; reflexivity|].
    destruct (Cmd.t cmd >? m_cur_t s); [injection H as <- <- <-; reflexivity|].
    unfold bind in H.
    destruct (apply_old cmd s) as [[s' go]|] eqn:A; [|discriminate].
    apply apply_old_len in A. destruct go.
    + apply IH in H. congruence.
    + injection H as <- <- <-. exact A.
Qed.

Lemma modchn_loop_len q : forall s q1 s1 r,
  modchn_loop q s = Ok (q1, s1, r) ->
  length (m_states s1) = length (m_states s).
Proof.
  induction q as [|cmd q IH]; intros s q1 s1 r H; simpl in H.
  - injection H as <- <- <-. reflexivity.
  - destruct (is_op cmd ModChn); [|injection H as <- <- <-; reflexivity].
    unfold bind in H. destruct (mod_chn cmd s) as [s'|] eqn:M; [|discriminate].
    apply mod_chn_len in M.
    destruct (get_cmd_curt q s').
    + apply IH in H. congruence.
    + injection H as <- <- <-. exact M.
Qed.

Lemma fetch_len fuel : forall q s q1 s1 r,
  fetch fuel q s = Ok (q1, s1, r) ->
  length (m_states s1) = length (m_states s).
Proof.
  induction fuel as [|fuel IH]; intros q s q1 s1 r H; simpl in H;
    [discriminate|].
  destruct (get_cmd_curt q s) as [cmd0|]; [|injection H as <- <- <-; reflexivity].
  unfold bind in H.
  destruct (if Cmd.t cmd0 <? m_cur_t s then _ else _)
    as [[[qa sa] oc]|] eqn:E; [|discriminate].
  assert (Sa : length (m_states sa) = length (m_states s)).
  { destruct (Cmd.t cmd0 <? m_cur_t s).
    - unfold consume_old_cmds in E. destruct (get_cmd q); [|discriminate].
      apply consume_loop_len in E. rewrite E.
      destruct (Cmd.t t =? 0); reflexivity.
    - injection E as <- <- <-. reflexivity. }
  destruct oc as [cmd|]; [|injection H as <- <- <-; exact Sa].
  destruct (Cmd.t cmd >? m_cur_t sa); [injection H as <- <- <-; exact Sa|].
  destruct (is_op cmd Meta).
  - repeat match type of H with
      | (if ?c then _ else _) = _ => destruct c
      end;
      try (apply IH in H; rewrite H; try rewrite check_start_len; exact Sa).
    injection H as <- <- <-. rewrite check_start_len. exact Sa.
  - apply modchn_loop_len in H. congruence.
Qed.

(** ** The phases the channel loop stores *)

Lemma chan_step_phase i q s cmd q' s' cmd' f :
  chan_step i q s cmd = Ok (q', s', cmd', f) ->
  exists st p,
    get (m_states s) i = Ok st /\
    m_states s'
    = set_nth (m_states s) (Z.to_nat i) (State.with_phase (wrap_phase p) st).
Proof.
  unfold chan_step. intros H. unfold bind in H.
  destruct (get (m_states s) i) as [state|] eqn:G; try discriminate.
  destruct (scan_active _ _ _ _) as [[acts l]|] eqn:SA; try discriminate.
  match type of H with
  | match ?m with _ => _ end = _ => destruct m as [[[[q1 s1] c1] l1]|] eqn:M
  end; try discriminate.
  destruct (upd_state _ _ s1) as [s2|] eqn:U; try discriminate.
  injection H as <- <- <- <-.
  assert (F : m_states s1 = m_states s).
  { destruct cmd as [c|].
    - destruct (negb (Cmd.chn c =? i)).
      + injection M as <- <- <- <-. reflexivity.
      + apply apply_due_frame in M. apply M.
    - injection M as <- <- <- <-. reflexivity. }
  apply upd_state_inv in U. destruct U as (st & G' & ->).
  rewrite F in G'. rewrite G in G'. injection G' as <-.
  exists state, (l_phase l1). split; [reflexivity|].
  simpl. now rewrite F.
Qed.

Lemma wrap_phase_bound p : 0 <= wrap_phase p < max_phase.
Proof. rewrite wrap_phase_reduces. apply Z.mod_pos_bound. reflexivity. Qed.

Lemma chan_loop_phases n : forall i q s cmd fed q' s' fed',
  0 <= i ->
  chan_loop n i q s cmd fed = Ok (q', s', fed') ->
  length fed' = (length fed + n)%nat /\
  i + Z.of_nat n <= Z.of_nat (length (m_states s)) \/ n = O /\
  length fed' = (length fed + n)%nat.
Proof.
  induction n as [|n IH]; intros i q s cmd fed q' s' fed' Hi H; simpl in H.
  - injection H as <- <- <-. right. split; [reflexivity | lia].
  - left. unfold bind in H.
    destruct (chan_step i q s cmd) as [[[[q1 s1] c1] f1]|] eqn:C;
      try discriminate.
    pose proof (chan_step_frame _ _ _ _ _ _ _ _ C) as [_ L1].
    apply chan_step_phase in C. destruct C as (st & p & G & _).
    apply get_Ok in G. destruct G as [G _].
    apply IH in H; [|lia]. rewrite length_app in H. cbn [length] in H.
    rewrite L1 in H. split; lia.
Qed.

Lemma chan_loop_phase_range n : forall i q s cmd fed q' s' fed',
  0 <= i ->
  chan_loop n i q s cmd fed = Ok (q', s', fed') ->
  (forall j, i <= j < i + Z.of_nat n ->
     exists st, get (m_states s') j = Ok st /\
                0 <= State.phase st < max_phase) /\
  (forall j, j < i -> get (m_states s') j = get (m_states s) j).
Proof.
  induction n as [|n IH]; intros i q s cmd fed q' s' fed' Hi H; simpl in H.
  - injection H as <- <- <-. split; [intros j Hj; lia | reflexivity].
  - unfold bind in H.
    destruct (chan_step i q s cmd) as [[[[q1 s1] c1] f1]|] eqn:C;
      try discriminate.
    apply chan_step_phase in C. destruct C as (st & p & G & S1).
    pose proof (proj1 (get_Ok _ _ _) G) as [Gi _].
    apply IH in H; [|lia]. destruct H as [H1 H2]. split.
    + intros j Hj. destruct (Z.eq_dec j i) as [->|Ne].
      * rewrite H2 by lia. rewrite S1.
        exists (State.with_phase (wrap_phase p) st).
        split; [apply get_set_nth_eq; lia|]. cbn. apply wrap_phase_bound.
      * apply H1. lia.
    + intros j Hj. rewrite H2 by lia. rewrite S1.
      unfold get, in_range. rewrite set_nth_length.
      destruct ((0 <=? j) && (j <? Z.of_nat (length (m_states s)))) eqn:E;
        [|reflexivity].
      apply andb_true_iff in E. destruct E as [E1 E2].
      apply Z.leb_le in E1. rewrite nth_error_set_nth_ne by lia. reflexivity.
Qed.

(** X15.  After every step that runs without undefined behaviour: the
    state table has its size, one value set was fed per live channel, the
    live count does not exceed the table, every live channel's stored
    phase is in [[0, max_phase)], and the pipe left is a suffix of the
    pipe given. *)
Theorem X15_step_shape out q s q' s' fed :
  step out q s = Ok (q', s', fed) ->
  length (m_states s') = length (m_states s) /\
  length fed = Z.to_nat (m_chns s') /\
  m_chns s' <= Z.of_nat (length (m_states s')) /\
  (forall j, 0 <= j < m_chns s' ->
     exists st, get (m_states s') j = Ok st /\
                0 <= State.phase st < max_phase) /\
  suffix q' q.
Proof.
  intros H. pose proof (step_suffix _ _ _ _ _ _ H) as Sx.
  unfold step in H. unfold bind in H.
  destruct (fetch _ q s) as [[[q1 s1] cmd]|] eqn:F; [|discriminate].
  destruct (chan_loop _ _ _ _ _ _) as [[[q3 s3] fed3]|] eqn:L; [|discriminate].
  injection H as <- <- <-.
  apply fetch_len in F.
  destruct (end_trigger_step_keeps out s1) as (_ & _ & K3 & K4 & _).
  pose proof (chan_loop_frame _ _ _ _ _ _ _ _ _ L) as [Fr Len].
  apply frame_fields in Fr. destruct Fr as (_ & _ & _ & F4 & _).
  pose proof (chan_loop_phases _ _ _ _ _ _ _ _ _ (Z.le_refl 0) L) as P.
  pose proof (chan_loop_phase_range _ _ _ _ _ _ _ _ _ (Z.le_refl 0) L) as [R _].
  cbn [m_states m_chns set_cur_t]. rewrite F4.
  split; [congruence|]. split; [|split; [|split; [|exact Sx]]].
  - destruct P as [[P _]|[_ P]]; cbn [length] in P; lia.
  - rewrite Len. destruct P as [[_ P]|[P _]]; lia.
  - intros j Hj. apply R. lia.
Qed.

Lemma X15_step_shape_witness :
  exists s' fed,
    step 0 [Cmd.getPhase 0 0 (-1)] ex_one_chn = Ok ([], s', fed) /\
    length fed = Z.to_nat (m_chns s') /\
    exists st, get (m_states s') 0 = Ok st /\ 0 <= State.phase st < max_phase.
Proof.
  assert (E : exists s' fed,
             step 0 [Cmd.getPhase 0 0 (-1)] ex_one_chn = Ok ([], s', fed) /\
             m_chns s' = 1)
    by (eexists; eexists; split; [vm_compute; reflexivity | reflexivity]).
  destruct E as (s' & fed & E & C).
  destruct (X15_step_shape _ _ _ _ _ _ E) as (_ & L & _ & P & _).
  exists s', fed. split; [exact E|]. split; [exact L|].
  apply P. rewrite C. lia.
Defined.

(** ** A command that is not due yet *)

(** X16.  A command whose time is still ahead is not looked at, and
    hides every command behind it: the step runs exactly as on an empty
    pipe and returns the pipe untouched. *)
Theorem X16_future_command_waits out cmd q' s :
  m_cur_t s < Cmd.t cmd ->
  step out (cmd :: q') s
  = match step out [] s with
    | Ok (_, s', fed) => Ok (cmd :: q', s', fed)
    | Fault e => Fault e
    end.
Proof.
  intros Lt. unfold step. cbn [length fetch].
  unfold get_cmd_curt. cbn [get_cmd hd_error].
  assert (E : (Cmd.t cmd <=? m_cur_t s) = false) by (apply Z.leb_gt; exact Lt).
  rewrite E. cbn [bind]. rewrite chan_loop_None.
  destruct (chan_loop _ _ _ _ _ _) as [[[q3 s3] fed3]|]; reflexivity.
Qed.

Lemma X16_future_command_waits_witness :
  exists s',
    step 0 (Cmd.getAmpSet 5 0 7 :: ex_backlog) ex_one_chn
    = Ok (Cmd.getAmpSet 5 0 7 :: ex_backlog, s', live_feed ex_one_chn) /\
    m_states s' = m_states ex_one_chn /\ m_cur_t s' = 1.
Proof.
  assert (Lt : m_cur_t ex_one_chn < Cmd.t (Cmd.getAmpSet 5 0 7))
    by (vm_compute; reflexivity).
  rewrite (X16_future_command_waits 0 _ ex_backlog ex_one_chn Lt).
  eexists. split; [vm_compute; reflexivity|]. split; reflexivity.
Defined.

(** ** The bound on the [retry] jumps *)

(** X17.  The jumps back to [retry] end: each follows a [cmd_next], so
    one more round than the pipe has commands is enough.  With any larger
    bound the part of the step up to [cmd_out] gives the same result, the
    bound is never exhausted, neither there nor in the whole step, and
    what is left of the pipe is a suffix of it. *)
Theorem X17_retry_bound_is_enough extra out q s :
  fetch (S (length q) + extra) q s = fetch (S (length q)) q s /\
  fetch (S (length q)) q s <> Fault OutOfFuel /\
  step out q s <> Fault OutOfFuel /\
  (forall q1 s1 r, fetch (S (length q)) q s = Ok (q1, s1, r) -> suffix q1 q).
Proof.
  split; [apply fetch_fuel; lia|].
  split; [apply fetch_no_fuel; lia|].
  split; [apply step_no_fuel|].
  intros q1 s1 r. apply fetch_suffix.
Qed.

(** ** The scan of the active ramps *)

Lemma eval_m_cmd a t a' r : eval a t = Ok (a', r) -> m_cmd a' = m_cmd a.
Proof.
  unfold eval. intros H. unfold bind in H.
  destruct (is_vec (m_cmd a)).
  - destruct (get _ _); [|discriminate]. destruct (get _ _); [|discriminate].
    injection H as <- _. reflexivity.
  - destruct (is_scalar (m_cmd a)).
    + destruct (Cmd.fnptr (m_cmd a)); try discriminate.
      destruct (get _ _); [|discriminate]. destruct (get _ _); [|discriminate].
      injection H as <- _. reflexivity.
    + injection H as <- _. reflexivity.
Qed.

Lemma scan_active_kept i cur acts : forall l acts' l',
  scan_active i cur acts l = Ok (acts', l') ->
  map m_cmd acts' = filter (ramp_kept i cur) (map m_cmd acts) /\
  (length acts' <= length acts)%nat /\
  l_phase l' = l_phase l.
Proof.
  induction acts as [|a rest IH]; intros l acts' l' H; cbn [scan_active] in H.
  - injection H as <- <-. repeat split; reflexivity || lia.
  - cbn [map filter length]. unfold ramp_kept at 1.
    destruct (Cmd.chn (m_cmd a) =? i); cbn [andb negb].
    + destruct (is_amp_ramp (m_cmd a)); cbn [orb andb negb].
      * destruct (Cmd.t (m_cmd a) + Cmd.len (m_cmd a) >? cur); cbn [negb].
        -- unfold bind in H.
           destruct (eval a _) as [[a1 [v dv]]|] eqn:E; [|discriminate].
           destruct (scan_active i cur rest _) as [[rest1 l1]|] eqn:R;
             [|discriminate].
           injection H as <- <-. apply IH in R. destruct R as (R1 & R2 & R3).
           cbn [map length]. rewrite R1, (eval_m_cmd _ _ _ _ E).
           repeat split; [lia | exact R3].
        -- apply IH in H. destruct H as (R1 & R2 & R3).
           repeat split; [exact R1 | lia | exact R3].
      * destruct (is_freq_ramp (m_cmd a)); cbn [andb negb].
        -- destruct (Cmd.t (m_cmd a) + Cmd.len (m_cmd a) >? cur); cbn [negb].
           ++ unfold bind in H.
              destruct (eval a _) as [[a1 [v dv]]|] eqn:E; [|discriminate].
              destruct (scan_active i cur rest _) as [[rest1 l1]|] eqn:R;
                [|discriminate].
              injection H as <- <-. apply IH in R. destruct R as (R1 & R2 & R3).
              cbn [map length]. rewrite R1, (eval_m_cmd _ _ _ _ E).
              repeat split; [lia | exact R3].
           ++ apply IH in H. destruct H as (R1 & R2 & R3).
              repeat split; [exact R1 | lia | exact R3].
        -- unfold bind in H.
           destruct (scan_active i cur rest _) as [[rest1 l1]|] eqn:R;
             [|discriminate].
           injection H as <- <-. apply IH in R. destruct R as (R1 & R2 & R3).
           cbn [map length]. rewrite R1. repeat split; [lia | exact R3].
    + unfold bind in H.
      destruct (scan_active i cur rest _) as [[rest1 l1]|] eqn:R;
        [|discriminate].
      injection H as <- <-. apply IH in R. destruct R as (R1 & R2 & R3).
      cbn [map length]. rewrite R1. repeat split; [lia | exact R3].
Qed.

(** X18.  The scan of the active ramps for one channel, for times and
    lengths of at most 24 bits (where the binary32 window test of the
    source is exact): it erases exactly the ramps of that channel whose
    window has elapsed; every other active ramp stays, in order, with its
    command.  The list never grows and the phase is not touched. *)
Theorem X18_scan_erases_elapsed i cur acts l acts' l' :
  Forall (fun a => window_exact (m_cmd a) cur) acts ->
  scan_active i cur acts l = Ok (acts', l') ->
  map m_cmd acts' = filter (ramp_kept i cur) (map m_cmd acts) /\
  (length acts' <= length acts)%nat /\
  l_phase l' = l_phase l.
Proof. intros _. apply scan_active_kept. Qed.

Lemma X18_scan_erases_elapsed_witness :
  exists acts' l',
    scan_active 0 2 ex_active (mk_Locals 0 3 0 2 0) = Ok (acts', l') /\
    map m_cmd acts' = [Cmd.getFreqFn 0 1 4 9 (ScalarFn (fun k => k))] /\
    l_amp l' = 10.
Proof.
  assert (E : exists acts' l',
             scan_active 0 2 ex_active (mk_Locals 0 3 0 2 0) = Ok (acts', l') /\
             l_amp l' = 10)
    by (eexists; eexists; split; [vm_compute; reflexivity | reflexivity]).
  destruct E as (acts' & l' & E & A).
  assert (W : Forall (fun a => window_exact (m_cmd a) 2) ex_active).
  { repeat constructor; cbn; lia. }
  destruct (X18_scan_erases_elapsed _ _ _ _ _ _ W E) as (M & _).
  exists acts', l'. split; [exact E|]. split; [exact M | exact A].
Defined.

(** ** A stream with nothing to do *)

Lemma map_idle_feed_ext (l l' : list State.T) :
  map State.amp l = map State.amp l' ->
  map State.freq l = map State.freq l' ->
  map idle_feed l = map idle_feed l'.
Proof.
  revert l'. induction l as [|x l IH]; intros [|y l'] A F;
    try discriminate; [reflexivity|].
  cbn in *. injection A as A1 A2. injection F as F1 F2.
  unfold idle_feed at 1 3. rewrite A1, F1. f_equal. apply IH; assumption.
Qed.

Lemma step_idle out s :
  active_cmds s = [] ->
  0 <= m_chns s <= Z.of_nat (length (m_states s)) ->
  exists s',
    step out [] s = Ok ([], s', live_feed s) /\
    m_cur_t s' = u32 (m_cur_t s + 1) /\
    m_chns s' = m_chns s /\
    active_cmds s' = [] /\
    length (m_states s') = length (m_states s) /\
    live_feed s' = live_feed s.
Proof.
  intros A C.
  destruct (step_after_fetch out [] s [] s eq_refl A C)
    as (s' & E & _ & T & N & A' & L).
  exists s'. split; [exact E|]. split; [exact T|]. split; [exact N|].
  split; [exact A'|]. split; [exact L|].
  unfold step in E. cbn [length fetch get_cmd_curt get_cmd hd_error bind] in E.
  destruct (chan_loop _ _ _ _ _ _) as [[[q3 s3] fed3]|] eqn:CL;
    [|discriminate].
  cbn [bind] in E. injection E as _ <- _.
  apply chan_loop_keeps_amp_freq in CL. destruct CL as [CA CF].
  destruct (end_trigger_step_keeps out s) as (_ & _ & _ & K4 & _).
  rewrite K4 in CA, CF.
  unfold live_feed. cbn [m_chns m_states set_cur_t]. cbn [m_chns set_cur_t] in N.
  rewrite N. apply map_idle_feed_ext; rewrite <- !firstn_map; congruence.
Qed.

(** X19.  A stream with an empty pipe and no active ramp is stationary:
    each of [n] steps feeds the stored amplitude and frequency of every
    live channel with zero increments, the live count stays, and the
    current time has advanced by [n] (modulo 2^32). *)
Theorem X19_idle_stream_is_stationary n out : forall s,
  active_cmds s = [] ->
  0 <= m_chns s <= Z.of_nat (length (m_states s)) ->
  0 <= m_cur_t s < 2 ^ 32 ->
  exists s',
    steps n out [] s = Ok ([], s', repeat (live_feed s) n) /\
    m_cur_t s' = u32 (m_cur_t s + Z.of_nat n) /\
    m_chns s' = m_chns s /\
    live_feed s' = live_feed s /\
    active_cmds s' = [].
Proof.
  induction n as [|n IH]; intros s A C T.
  - exists s. cbn [steps repeat]. split; [reflexivity|].
    rewrite Z.add_0_r, u32_small by lia. auto.
  - destruct (step_idle out s A C) as (s1 & E & T1 & N1 & A1 & L1 & F1).
    destruct (IH s1) as (s2 & E2 & T2 & N2 & F2 & A2).
    + exact A1.
    + rewrite N1, L1. exact C.
    + rewrite T1. unfold u32. apply Z.mod_pos_bound. lia.
    + exists s2. cbn [steps]. rewrite E. cbn [bind]. rewrite E2. cbn [bind].
      rewrite F1. split; [reflexivity|].
      split; [|split; [congruence|split; [congruence|exact A2]]].
      rewrite T2, T1. unfold u32. rewrite Zplus_mod_idemp_l.
      f_equal. lia.
Qed.

Lemma X19_idle_stream_is_stationary_witness :
  exists s',
    steps 3 0 [] ex_three_chn
    = Ok ([], s', [live_feed ex_three_chn; live_feed ex_three_chn;
                   live_feed ex_three_chn]) /\
    m_cur_t s' = 3.
Proof.
  destruct (X19_idle_stream_is_stationary 3 0 ex_three_chn)
    as (s' & E & T & _); [reflexivity | vm_compute; split; discriminate
                          | vm_compute; split; [discriminate|reflexivity] |].
  exists s'. split; [exact E | exact T].
Defined.

(** ** The commands a step takes from the pipe *)

Lemma mod_chn_cur_t cmd s s' :
  mod_chn cmd s = Ok s' ->
  m_cur_t s' = m_cur_t s /\ m_slow_mode s' = m_slow_mode s.
Proof.
  unfold mod_chn. intros H. crunch H; injection H as <-; split; reflexivity.
Qed.

Lemma frame_slow_mode s s' : frame s s' -> m_slow_mode s' = m_slow_mode s.
Proof. intros H. apply frame_fields in H. tauto. Qed.

Lemma apply_old_cur_t cmd s s' b :
  is_op cmd Meta = false ->
  apply_old cmd s = Ok (s', b) ->
  b = true /\ m_cur_t s' = m_cur_t s /\ m_slow_mode s' = m_slow_mode s.
Proof.
  unfold apply_old. intros NM H.
  destruct (Cmd.op cmd) as [o|] eqn:O;
    [|injection H as <- <-; repeat split].
  assert (Ho := proj1 (op_is_op cmd o) O).
  destruct o; try (rewrite Ho in NM; discriminate NM); unfold bind in H;
    repeat match type of H with
      | context [upd_state ?i ?f ?x] =>
          let U := fresh "U" in
          destruct (upd_state i f x) eqn:U;
            [apply upd_state_frame in U; destruct U as (U & _)|discriminate]
      | context [old_ramp ?c ?x] =>
          let U := fresh "R" in
          destruct (old_ramp c x) as [[? ?]|] eqn:U;
            [apply old_ramp_frame in U; destruct U as (U & _)|discriminate]
      | context [mod_chn ?c ?x] =>
          let U := fresh "M" in
          destruct (mod_chn c x) eqn:U; [apply mod_chn_cur_t in U|discriminate]
      end;
    injection H as <- <-;
    repeat match goal with
      | F : frame _ _ |- _ =>
          let C := fresh "C" in let S := fresh "S" in
          pose proof (frame_cur_t _ _ F) as C;
          pose proof (frame_slow_mode _ _ F) as S; clear F
      end;
    try (destruct M as [M1 M2]);
    repeat split; congruence.
Qed.

Lemma consume_loop_stale q : forall s q1 s1 r,
  no_meta q ->
  consume_loop q s = Ok (q1, s1, r) ->
  exists pre,
    q = pre ++ q1 /\
    Forall (fun c => Cmd.t c < m_cur_t s) pre /\
    m_cur_t s1 = m_cur_t s /\ m_slow_mode s1 = m_slow_mode s /\
    match r with
    | Some c => hd_error q1 = Some c /\ Cmd.t c = m_cur_t s
    | None => forall c, hd_error q1 = Some c -> m_cur_t s < Cmd.t c
    end.
Proof.
  induction q as [|cmd q IH]; intros s q1 s1 r NM H; simpl in H.
  - injection H as <- <- <-. exists []. repeat split; auto; try congruence; try (intros ? [=]).
  - inversion NM as [|? ? Hc Hq]; subst.
    destruct (Cmd.t cmd =? m_cur_t s) eqn:E1.
    { injection H as <- <- <-. exists []. apply Z.eqb_eq in E1.
      repeat split; auto. }
    destruct (Cmd.t cmd >? m_cur_t s) eqn:E2.
    { injection H as <- <- <-. exists [].
      rewrite Z.gtb_ltb in E2. apply Z.ltb_lt in E2.
      repeat split; auto. intros c [= <-]. exact E2. }
    apply Z.eqb_neq in E1. rewrite Z.gtb_ltb in E2. apply Z.ltb_ge in E2.
    unfold bind in H.
    destruct (apply_old cmd s) as [[s' go]|] eqn:A; [|discriminate].
    apply apply_old_cur_t in A; [|exact Hc]. destruct A as (-> & A1 & A2).
    apply IH in H; [|exact Hq].
    destruct H as (pre & -> & P & T & S & R).
    exists (cmd :: pre). rewrite A1 in *. rewrite A2 in *.
    split; [reflexivity|]. split; [constructor; [lia | exact P]|].
    split; [exact T|]. split; [exact S | exact R].
Qed.

Lemma modchn_loop_due q : forall s q1 s1 r,
  (forall c, hd_error q = Some c -> Cmd.t c <= m_cur_t s) ->
  modchn_loop q s = Ok (q1, s1, r) ->
  exists pre,
    q = pre ++ q1 /\
    Forall (fun c => Cmd.t c <= m_cur_t s) pre /\
    m_cur_t s1 = m_cur_t s /\ m_slow_mode s1 = m_slow_mode s /\
    (forall c, r = Some c -> hd_error q1 = Some c /\ Cmd.t c <= m_cur_t s).
Proof.
  induction q as [|cmd q IH]; intros s q1 s1 r Hd H; simpl in H.
  - injection H as <- <- <-. exists []. repeat split; auto; try congruence; try (intros ? [=]).
  - destruct (is_op cmd ModChn).
    + unfold bind in H. destruct (mod_chn cmd s) as [s'|] eqn:M; [|discriminate].
      apply mod_chn_cur_t in M. destruct M as [M1 M2].
      destruct (get_cmd_curt q s') as [c'|] eqn:G.
      * apply IH in H.
        -- destruct H as (pre & -> & P & T & S & R).
           exists (cmd :: pre). rewrite M1 in *. rewrite M2 in *.
           split; [reflexivity|].
           split; [constructor; [apply Hd; reflexivity | exact P]|].
           split; [exact T|]. split; [exact S | exact R].
        -- intros c Hc. unfold get_cmd_curt, get_cmd in G. rewrite Hc in G.
           destruct (Cmd.t c <=? m_cur_t s') eqn:L; [|discriminate].
           apply Z.leb_le in L. exact L.
      * injection H as <- <- <-. exists [cmd].
        split; [reflexivity|].
        split; [constructor; [apply Hd; reflexivity | constructor]|].
        split; [exact M1|]. split; [exact M2|]. intros c [=].
    + injection H as <- <- <-. exists [].
      split; [reflexivity|]. split; [constructor|].
      split; [reflexivity|]. split; [reflexivity|].
      intros c [= <-]. split; [reflexivity | apply Hd; reflexivity].
Qed.

Lemma no_meta_app pre q : no_meta (pre ++ q) -> no_meta q.
Proof. unfold no_meta. intros H. apply Forall_app in H. apply H. Qed.

Lemma Forall_lt_le (s : Stream) pre :
  Forall (fun c => Cmd.t c < m_cur_t s) pre ->
  Forall (fun c => Cmd.t c <= m_cur_t s) pre.
Proof. apply Forall_impl. intros c H. lia. Qed.

Lemma fetch_due fuel q s q1 s1 r :
  no_meta q ->
  fetch (S fuel) q s = Ok (q1, s1, r) ->
  exists pre,
    q = pre ++ q1 /\
    Forall (fun c => Cmd.t c <= m_cur_t s) pre /\
    m_cur_t s1 = m_cur_t s /\ m_slow_mode s1 = m_slow_mode s /\
    (forall c, r = Some c -> hd_error q1 = Some c /\ Cmd.t c <= m_cur_t s).
Proof.
  intros NM H. cbn [fetch] in H.
  destruct (get_cmd_curt q s) as [cmd0|] eqn:G.
  2:{ injection H as <- <- <-. exists []. repeat split; auto; try congruence; try (intros ? [=]). }
  unfold bind in H.
  destruct (if Cmd.t cmd0 <? m_cur_t s then _ else _)
    as [[[qa sa] oc]|] eqn:E; [|discriminate].
  assert (Hd : hd_error q = Some cmd0 /\ Cmd.t cmd0 <= m_cur_t s).
  { unfold get_cmd_curt, get_cmd in G. destruct (hd_error q) as [c|]; [|discriminate].
    destruct (Cmd.t c <=? m_cur_t s) eqn:L; [|discriminate].
    injection G as <-. apply Z.leb_le in L. auto. }
  assert (A : exists pre,
             q = pre ++ qa /\
             Forall (fun c => Cmd.t c <= m_cur_t s) pre /\
             m_cur_t sa = m_cur_t s /\ m_slow_mode sa = m_slow_mode s /\
             (forall c, oc = Some c -> hd_error qa = Some c /\
                                       Cmd.t c <= m_cur_t s)).
  { destruct (Cmd.t cmd0 <? m_cur_t s).
    - unfold consume_old_cmds in E. destruct (get_cmd q) as [c0|]; [|discriminate].
      apply consume_loop_stale in E; [|exact NM].
      destruct E as (pre & -> & P & T & S & R).
      assert (K : m_cur_t (if Cmd.t c0 =? 0 then s
                           else set_cmd_underflow (u64 (m_cmd_underflow s + 1)) s)
                  = m_cur_t s /\
                  m_slow_mode (if Cmd.t c0 =? 0 then s
                           else set_cmd_underflow (u64 (m_cmd_underflow s + 1)) s)
                  = m_slow_mode s)
        by (destruct (Cmd.t c0 =? 0); split; reflexivity).
      destruct K as [K1 K2]. rewrite K1 in *. rewrite K2 in *.
      exists pre. split; [reflexivity|].
      split; [apply Forall_lt_le; exact P|].
      split; [exact T|]. split; [exact S|].
      intros c ->. destruct R as [R1 R2]. split; [exact R1 | lia].
    - injection E as <- <- <-. exists [].
      split; [reflexivity|]. split; [constructor|].
      split; [reflexivity|]. split; [reflexivity|].
      intros c [= <-]. exact Hd. }
  destruct A as (pre & -> & P & T & S & R).
  destruct oc as [cmd|].
  2:{ injection H as <- <- <-. exists pre. repeat split; auto; try congruence; try (intros ? [=]). }
  destruct (R cmd eq_refl) as [R1 R2].
  destruct (Cmd.t cmd >? m_cur_t sa).
  { injection H as <- <- <-. exists pre. repeat split; auto; try congruence; try (intros ? [=]). }
  assert (M : is_op cmd Meta = false).
  { apply no_meta_app in NM. unfold no_meta in NM.
    rewrite Forall_forall in NM. apply NM. apply hd_error_In. exact R1. }
  rewrite M in H.
  apply modchn_loop_due in H.
  - destruct H as (pre2 & -> & P2 & T2 & S2 & R').
    rewrite T in *. rewrite S in *.
    exists (pre ++ pre2). rewrite app_assoc. split; [reflexivity|].
    split; [apply Forall_app; split; assumption|].
    split; [exact T2|]. split; [exact S2 | exact R'].
  - intros c Hc. rewrite R1 in Hc. injection Hc as <-. rewrite T. exact R2.
Qed.

Lemma apply_due_due i q : forall s l q' s' c l',
  (forall x, hd_error q = Some x -> Cmd.t x <= m_cur_t s) ->
  apply_due i q s l = Ok (q', s', c, l') ->
  exists pre,
    q = pre ++ q' /\
    Forall (fun x => Cmd.t x <= m_cur_t s) pre /\
    (forall x, c = Some x -> hd_error q' = Some x /\ Cmd.t x <= m_cur_t s).
Proof.
  induction q as [|cmd q IH]; intros s l q' s' c l' Hd H; simpl in H.
  - injection H as <- <- <- <-. exists []. repeat split; auto; try congruence; try (intros ? [=]).
  - unfold bind in H.
    destruct (if is_op cmd FreqSet then _ else _) as [[[s1 l1]|]|] eqn:E;
      try discriminate.
    + assert (F : frame s s1).
      { crunch E; try (injection E as <- <-); try reflexivity;
          eapply new_ramp_frame; eauto. }
      apply frame_cur_t in F.
      destruct (get_cmd_curt q s1) as [c'|] eqn:G.
      * assert (Hd' : hd_error q = Some c' /\ Cmd.t c' <= m_cur_t s1).
        { unfold get_cmd_curt, get_cmd in G.
          destruct (hd_error q) as [x|]; [|discriminate].
          destruct (Cmd.t x <=? m_cur_t s1) eqn:L; [|discriminate].
          injection G as <-. apply Z.leb_le in L. auto. }
        destruct (Cmd.chn c' =? i).
        -- apply IH in H.
           ++ destruct H as (pre & -> & P & R). rewrite F in *.
              exists (cmd :: pre). split; [reflexivity|].
              split; [constructor; [apply Hd; reflexivity | exact P] | exact R].
           ++ intros x Hx. destruct Hd' as [H1 H2]. congruence.
        -- injection H as <- <- <- <-. exists [cmd].
           split; [reflexivity|].
           split; [constructor; [apply Hd; reflexivity | constructor]|].
           intros x [= <-]. rewrite <- F. exact Hd'.
      * injection H as <- <- <- <-. exists [cmd].
        split; [reflexivity|].
        split; [constructor; [apply Hd; reflexivity | constructor]|].
        intros x [=].
    + injection H as <- <- <- <-. exists [].
      split; [reflexivity|]. split; [constructor|].
      intros x [= <-]. split; [reflexivity | apply Hd; reflexivity].
Qed.

Lemma chan_step_due i q s cmd q' s' cmd' f :
  (forall x, cmd = Some x -> hd_error q = Some x /\ Cmd.t x <= m_cur_t s) ->
  chan_step i q s cmd = Ok (q', s', cmd', f) ->
  exists pre,
    q = pre ++ q' /\
    Forall (fun x => Cmd.t x <= m_cur_t s) pre /\
    m_cur_t s' = m_cur_t s /\ m_slow_mode s' = m_slow_mode s /\
    (forall x, cmd' = Some x -> hd_error q' = Some x /\ Cmd.t x <= m_cur_t s).
Proof.
  intros Hd H.
  pose proof (chan_step_frame _ _ _ _ _ _ _ _ H) as [Fr _].
  pose proof (frame_cur_t _ _ Fr) as T.
  pose proof (frame_slow_mode _ _ Fr) as S.
  unfold chan_step in H. unfold bind in H.
  destruct (get (m_states s) i) as [state|] eqn:G; try discriminate.
  destruct (scan_active _ _ _ _) as [[acts l]|] eqn:SA; try discriminate.
  match type of H with
  | match ?m with _ => _ end = _ => destruct m as [[[[q1 s1] c1] l1]|] eqn:M
  end; try discriminate.
  destruct (upd_state _ _ s1) as [s2|] eqn:U; try discriminate.
  injection H as <- <- <- <-.
  assert (N : exists pre, q = pre ++ q1 /\
                Forall (fun x => Cmd.t x <= m_cur_t s) pre /\
                (forall x, c1 = Some x ->
                           hd_error q1 = Some x /\ Cmd.t x <= m_cur_t s)).
  { destruct cmd as [c|].
    - destruct (negb (Cmd.chn c =? i)).
      + injection M as <- <- <- <-. exists []. repeat split; auto; apply Hd; auto.
      + apply apply_due_due in M; [exact M|].
        intros x Hx. destruct (Hd c eq_refl) as [H1 H2].
        rewrite H1 in Hx. injection Hx as <-. exact H2.
    - injection M as <- <- <- <-. exists [].
      repeat split; auto; try congruence; try (intros ? [=]). }
  destruct N as (pre & -> & P & R). exists pre.
  split; [reflexivity|]. split; [exact P|]. split; [exact T|].
  split; [exact S | exact R].
Qed.

Lemma chan_loop_due n : forall i q s cmd fed q' s' fed',
  (forall x, cmd = Some x -> hd_error q = Some x /\ Cmd.t x <= m_cur_t s) ->
  chan_loop n i q s cmd fed = Ok (q', s', fed') ->
  exists pre,
    q = pre ++ q' /\
    Forall (fun x => Cmd.t x <= m_cur_t s) pre /\
    m_cur_t s' = m_cur_t s /\ m_slow_mode s' = m_slow_mode s.
Proof.
  induction n as [|n IH]; intros i q s cmd fed q' s' fed' Hd H; simpl in H.
  - injection H as <- <- <-. exists []. repeat split; auto.
  - unfold bind in H.
    destruct (chan_step i q s cmd) as [[[[q1 s1] c1] f1]|] eqn:C;
      try discriminate.
    apply chan_step_due in C; [|exact Hd].
    destruct C as (pre & -> & P & T & S & R).
    apply IH in H; [|rewrite T; exact R].
    destruct H as (pre2 & -> & P2 & T2 & S2).
    rewrite T in *. rewrite S in *.
    exists (pre ++ pre2). rewrite app_assoc. split; [reflexivity|].
    split; [apply Forall_app; split; assumption|]. split; assumption.
Qed.

Lemma step_due out q s q' s' fed :
  no_meta q ->
  step out q s = Ok (q', s', fed) ->
  exists pre,
    q = pre ++ q' /\
    Forall (fun c => Cmd.t c <= m_cur_t s) pre /\
    m_cur_t s' = u32 (m_cur_t s + 1) /\
    m_slow_mode s' = m_slow_mode s.
Proof.
  intros NM H. unfold step in H. unfold bind in H.
  destruct (fetch _ q s) as [[[q1 s1] cmd]|] eqn:F; [|discriminate].
  destruct (chan_loop _ _ _ _ _ _) as [[[q3 s3] fed3]|] eqn:L; [|discriminate].
  injection H as <- <- <-.
  apply fetch_due in F; [|exact NM].
  destruct F as (pre & -> & P & T & S & R).
  destruct (end_trigger_step_keeps out s1) as (K1 & K2 & _).
  apply chan_loop_due in L; [|rewrite K2, T; exact R].
  destruct L as (pre2 & -> & P2 & T2 & S2).
  rewrite K2, T in *. rewrite K1, S in *.
  exists (pre ++ pre2). rewrite app_assoc. split; [reflexivity|].
  split; [apply Forall_app; split; assumption|].
  cbn [m_cur_t m_slow_mode set_cur_t]. rewrite T2. split; [reflexivity | exact S2].
Qed.

(** X20.  On a pipe without [Meta] commands a step takes commands from
    the front of the pipe only, and only commands that are due: each
    command it consumed has a time at or before the current time.  The
    current time is then advanced by exactly one and the slow-mode flag
    keeps its value. *)
Theorem X20_step_takes_due_commands out q s q' s' fed :
  no_meta q ->
  step out q s = Ok (q', s', fed) ->
  exists pre,
    q = pre ++ q' /\
    Forall (fun c => Cmd.t c <= m_cur_t s) pre /\
    no_meta q' /\
    m_cur_t s' = u32 (m_cur_t s + 1) /\
    m_slow_mode s' = m_slow_mode s.
Proof.
  intros NM H. destruct (step_due _ _ _ _ _ _ NM H) as (pre & E & P & T & S).
  exists pre. split; [exact E|]. split; [exact P|].
  split; [rewrite E in NM; eapply no_meta_app; exact NM|].
  split; [exact T | exact S].
Qed.

Lemma X20_step_takes_due_commands_witness :
  exists s' fed,
    step 0 (ex_backlog ++ [Cmd.getAmpSet 9 0 1])
         (set_cur_t 3 ex_one_chn)
    = Ok ([Cmd.getAmpSet 3 0 9; Cmd.getAmpSet 9 0 1], s', fed) /\
    m_cur_t s' = 4.
Proof.
  assert (E : exists s' fed,
             step 0 (ex_backlog ++ [Cmd.getAmpSet 9 0 1])
                  (set_cur_t 3 ex_one_chn)
             = Ok ([Cmd.getAmpSet 3 0 9; Cmd.getAmpSet 9 0 1], s', fed))
    by (eexists; eexists; vm_compute; reflexivity).
  destruct E as (s' & fed & E).
  assert (NM : no_meta (ex_backlog ++ [Cmd.getAmpSet 9 0 1]))
    by (repeat constructor).
  destruct (X20_step_takes_due_commands _ _ _ _ _ _ NM E) as (_ & _ & _ & _ & T & _).
  exists s', fed. split; [exact E | exact T].
Defined.

(** ** What catch-up consumption reads *)

Lemma consume_loop_due_now q : forall s q1 s1 c,
  consume_loop q s = Ok (q1, s1, Some c) ->
  hd_error q1 = Some c /\ Cmd.t c = m_cur_t s1.
Proof.
  induction q as [|cmd q IH]; intros s q1 s1 c H; simpl in H; [discriminate|].
  destruct (Cmd.t cmd =? m_cur_t s) eqn:E1.
  { injection H as <- <- <-. apply Z.eqb_eq in E1. auto. }
  destruct (Cmd.t cmd >? m_cur_t s); [discriminate|].
  unfold bind in H.
  destruct (apply_old cmd s) as [[s' go]|]; [|discriminate].
  destruct go; [|discriminate]. eapply IH. exact H.
Qed.

(** X21.  Catch-up consumption returns what is left of the pipe; a
    command it returns is at the head of what is left and its time is the
    current time.  On a pipe without [Meta] commands it consumed exactly
    a prefix of stale commands, the current time is unchanged, and when
    it returns no command the next command, if any, is still ahead. *)
Theorem X21_catch_up_reads_stale_prefix q s q1 s1 r :
  consume_old_cmds q s = Ok (q1, s1, r) ->
  suffix q1 q /\
  (forall c, r = Some c -> hd_error q1 = Some c /\ Cmd.t c = m_cur_t s1) /\
  (no_meta q ->
   exists pre,
     q = pre ++ q1 /\
     Forall (fun c => Cmd.t c < m_cur_t s) pre /\
     m_cur_t s1 = m_cur_t s /\
     (r = None -> forall c, hd_error q1 = Some c -> m_cur_t s < Cmd.t c)).
Proof.
  unfold consume_old_cmds. intros H.
  destruct (get_cmd q) as [c0|]; [|discriminate].
  split; [eapply consume_loop_suffix; exact H|].
  split; [intros c ->; eapply consume_loop_due_now; exact H|].
  intros NM. apply consume_loop_stale in H; [|exact NM].
  destruct H as (pre & -> & P & T & _ & R).
  assert (K : m_cur_t (if Cmd.t c0 =? 0 then s
                       else set_cmd_underflow (u64 (m_cmd_underflow s + 1)) s)
              = m_cur_t s)
    by (destruct (Cmd.t c0 =? 0); reflexivity).
  rewrite K in *. exists pre. split; [reflexivity|]. split; [exact P|].
  split; [exact T|]. intros ->. exact R.
Qed.

Lemma X21_catch_up_reads_stale_prefix_witness :
  exists s1,
    consume_old_cmds (ex_backlog ++ [Cmd.getAmpSet 9 0 1])
                     (set_cur_t 3 ex_one_chn)
    = Ok ([Cmd.getAmpSet 3 0 9; Cmd.getAmpSet 9 0 1], s1,
          Some (Cmd.getAmpSet 3 0 9)) /\
    m_cur_t s1 = 3.
Proof.
  assert (E : exists s1,
             consume_old_cmds (ex_backlog ++ [Cmd.getAmpSet 9 0 1])
                              (set_cur_t 3 ex_one_chn)
             = Ok ([Cmd.getAmpSet 3 0 9; Cmd.getAmpSet 9 0 1], s1,
                   Some (Cmd.getAmpSet 3 0 9)))
    by (eexists; vm_compute; reflexivity).
  destruct E as (s1 & E).
  destruct (X21_catch_up_reads_stale_prefix _ _ _ _ _ E) as (_ & R & _).
  destruct (R _ eq_refl) as [_ T].
  exists s1. split; [exact E|]. symmetry. exact T.
Defined.

(** ** The worker loop *)

Lemma thread_fun_S fuel out q s :
  thread_fun (S fuel) out q s
  = if m_cur_t s <? 20 then
      '(q1, s1, fed) <- step out q s ;;
      '(q2, s2, feds) <- thread_fun fuel out q1 s1 ;;
      Ok (q2, s2, fed :: feds)
    else Ok (q, s, []).
Proof. reflexivity. Qed.

Lemma thread_fun_runs out : forall n q s,
  no_meta q ->
  0 <= m_cur_t s ->
  Z.to_nat (20 - m_cur_t s) = n ->
  thread_fun (S n) out q s <> Fault OutOfFuel /\
  forall q' s' feds,
    thread_fun (S n) out q s = Ok (q', s', feds) ->
    steps n out q s = Ok (q', s', feds) /\
    length feds = n /\
    m_cur_t s' = Z.max 20 (m_cur_t s) /\
    suffix q' q.
Proof.
  induction n as [|n IH]; intros q s NM T0 N.
  - rewrite thread_fun_S. cbn [steps].
    assert (E : (m_cur_t s <? 20) = false) by (apply Z.ltb_ge; lia).
    rewrite E. split; [discriminate|].
    intros q' s' feds [= <- <- <-].
    repeat split; [lia | apply suffix_refl].
  - rewrite thread_fun_S. cbn [steps].
    assert (E : (m_cur_t s <? 20) = true) by (apply Z.ltb_lt; lia).
    rewrite E.
    destruct (step out q s) as [[[q1 s1] fed]|e] eqn:St; cbn [bind].
    + destruct (step_due _ _ _ _ _ _ NM St) as (pre & Eq & _ & T1 & _).
      assert (U : m_cur_t s1 = m_cur_t s + 1).
      { rewrite T1. apply u32_small. lia. }
      assert (NM1 : no_meta q1) by (rewrite Eq in NM; eapply no_meta_app; exact NM).
      destruct (IH q1 s1 NM1) as [F R]; [lia | lia |].
      split.
      * destruct (thread_fun (S n) out q1 s1) as [[[q2 s2] feds]|e] eqn:Th;
          cbn [bind]; [discriminate|].
        intros [= ->]. apply F. reflexivity.
      * intros q' s' feds H.
        destruct (thread_fun (S n) out q1 s1) as [[[q2 s2] feds2]|e] eqn:Th;
          cbn [bind] in H; [|discriminate].
        injection H as <- <- <-.
        destruct (R _ _ _ eq_refl) as (R1 & R2 & R3 & R4).
        rewrite R1. cbn [bind length]. split; [reflexivity|].
        split; [lia|]. split; [lia|].
        eapply suffix_trans; [exact R4|]. exists pre. exact Eq.
    + split; [|discriminate].
      intros [= ->]. eapply step_no_fuel. exact St.
Qed.

(** X22.  The worker loop [while (m_cur_t < 20) step(...)] on a pipe
    without [Meta] commands ends: it runs [20 - m_cur_t] steps (none when
    the time is already 20 or more), so that many rounds are enough, and
    when no step hits undefined behaviour it stops with the time at 20
    (at its own time when that was 20 or more) having run exactly these
    steps. *)
Theorem X22_worker_runs_to_20 out q s :
  no_meta q ->
  0 <= m_cur_t s ->
  thread_fun (S (Z.to_nat (20 - m_cur_t s))) out q s <> Fault OutOfFuel /\
  forall q' s' feds,
    thread_fun (S (Z.to_nat (20 - m_cur_t s))) out q s = Ok (q', s', feds) ->
    steps (Z.to_nat (20 - m_cur_t s)) out q s = Ok (q', s', feds) /\
    length feds = Z.to_nat (20 - m_cur_t s) /\
    m_cur_t s' = Z.max 20 (m_cur_t s) /\
    suffix q' q.
Proof. intros NM T0. apply thread_fun_runs; [exact NM | exact T0 | reflexivity]. Qed.

Lemma X22_worker_runs_to_20_witness :
  exists s' feds,
    thread_fun 21 0 ex_backlog ex_one_chn = Ok ([], s', feds) /\
    length feds = 20%nat /\ m_cur_t s' = 20.
Proof.
  assert (E : exists s' feds,
             thread_fun 21 0 ex_backlog ex_one_chn = Ok ([], s', feds))
    by (eexists; eexists; vm_compute; reflexivity).
  destruct E as (s' & feds & E).
  assert (NM : no_meta ex_backlog) by (repeat constructor).
  assert (T0 : 0 <= m_cur_t ex_one_chn) by (vm_compute; discriminate).
  destruct (X22_worker_runs_to_20 0 ex_backlog ex_one_chn NM T0) as [_ R].
  destruct (R _ _ _ E) as (_ & L & T & _).
  exists s', feds. split; [exact E|]. split; [exact L | exact T].
Defined.

(** ** The start condition *)

Lemma frame_start_gate s s' : frame s s' -> start_gate s' = start_gate s.
Proof.
  destruct s, s'. unfold frame, erase, start_gate. simpl. intros [= ]. subst.
  reflexivity.
Qed.

Lemma check_start_gate t id s :
  start_gate (snd (check_start t id s)) = start_gate s.
Proof. rewrite check_start_state. reflexivity. Qed.

Lemma mod_chn_start_gate cmd s s' :
  mod_chn cmd s = Ok s' -> start_gate s' = start_gate s.
Proof.
  unfold mod_chn. intros H. crunch H; injection H as <-; reflexivity.
Qed.

Lemma apply_old_start_gate cmd s s' b :
  apply_old cmd s = Ok (s', b) -> start_gate s' = start_gate s.
Proof.
  unfold apply_old. intros H.
  destruct (Cmd.op cmd) as [o|]; [|injection H as <- <-; reflexivity].
  destruct o; unfold bind in H;
    repeat match type of H with
      | context [upd_state ?i ?f ?x] =>
          let U := fresh "U" in
          destruct (upd_state i f x) eqn:U;
            [apply upd_state_frame in U; destruct U as (U & _);
             apply frame_start_gate in U|discriminate]
      | context [old_ramp ?c ?x] =>
          let U := fresh "R" in
          destruct (old_ramp c x) as [[? ?]|] eqn:U;
            [apply old_ramp_frame in U; destruct U as (U & _);
             apply frame_start_gate in U|discriminate]
      | context [mod_chn ?c ?x] =>
          let U := fresh "M" in
          destruct (mod_chn c x) eqn:U;
            [apply mod_chn_start_gate in U|discriminate]
      | context [if ?c then _ else _] => destruct c
      end;
    try discriminate; injection H as <- <-;
    try reflexivity; try (apply check_start_gate); try congruence.
Qed.

Lemma consume_loop_start_gate q : forall s q1 s1 r,
  consume_loop q s = Ok (q1, s1, r) -> start_gate s1 = start_gate s.
Proof.
  induction q as [|cmd q IH]; intros s q1 s1 r H; simpl in H.
  - injection H as <- <- <-. reflexivity.
  - destruct (Cmd.t cmd =? m_cur_t s); [injection H as <- <- <-; reflexivity|].
    destruct (Cmd.t cmd >? m_cur_t s); [injection H as <- <- <-; reflexivity|].
    unfold bind in H.
    destruct (apply_old cmd s) as [[s' go]|] eqn:A; [|discriminate].
    apply apply_old_start_gate in A. destruct go.
    + apply IH in H. congruence.
    + injection H as <- <- <-. exact A.
Qed.

Lemma modchn_loop_start_gate q : forall s q1 s1 r,
  modchn_loop q s = Ok (q1, s1, r) -> start_gate s1 = start_gate s.
Proof.
  induction q as [|cmd q IH]; intros s q1 s1 r H; simpl in H.
  - injection H as <- <- <-. reflexivity.
  - destruct (is_op cmd ModChn); [|injection H as <- <- <-; reflexivity].
    unfold bind in H. destruct (mod_chn cmd s) as [s'|] eqn:M; [|discriminate].
    apply mod_chn_start_gate in M.
    destruct (get_cmd_curt q s').
    + apply IH in H. congruence.
    + injection H as <- <- <-. exact M.
Qed.

Lemma fetch_start_gate fuel : forall q s q1 s1 r,
  fetch fuel q s = Ok (q1, s1, r) -> start_gate s1 = start_gate s.
Proof.
  induction fuel as [|fuel IH]; intros q s q1 s1 r H; simpl in H;
    [discriminate|].
  destruct (get_cmd_curt q s) as [cmd0|]; [|injection H as <- <- <-; reflexivity].
  unfold bind in H.
  destruct (if Cmd.t cmd0 <? m_cur_t s then _ else _)
    as [[[qa sa] oc]|] eqn:E; [|discriminate].
  assert (Sa : start_gate sa = start_gate s).
  { destruct (Cmd.t cmd0 <? m_cur_t s).
    - unfold consume_old_cmds in E. destruct (get_cmd q); [|discriminate].
      apply consume_loop_start_gate in E. rewrite E.
      destruct (Cmd.t t =? 0); reflexivity.
    - injection E as <- <- <-. reflexivity. }
  destruct oc as [cmd|]; [|injection H as <- <- <-; exact Sa].
  destruct (Cmd.t cmd >? m_cur_t sa); [injection H as <- <- <-; exact Sa|].
  destruct (is_op cmd Meta).
  - repeat match type of H with
      | (if ?c then _ else _) = _ => destruct c
      end;
      try (apply IH in H; rewrite H; try rewrite check_start_gate; exact Sa).
    injection H as <- <- <-. rewrite check_start_gate. exact Sa.
  - apply modchn_loop_start_gate in H. congruence.
Qed.

Lemma end_trigger_step_start_gate out s :
  start_gate (end_trigger_step out s) = start_gate s.
Proof.
  unfold end_trigger_step.
  destruct (negb (m_end_trigger_waiting s =? 0)).
  - destruct (end_trigger s); [reflexivity|]. cbv zeta.
    destruct (negb (m_end_trigger_pending _ =? 0)); reflexivity.
  - destruct (negb (m_end_trigger_pending s =? 0)); reflexivity.
Qed.

Lemma step_start_gate out q s q' s' fed :
  step out q s = Ok (q', s', fed) -> start_gate s' = start_gate s.
Proof.
  intros H. unfold step in H. unfold bind in H.
  destruct (fetch _ q s) as [[[q1 s1] cmd]|] eqn:F; [|discriminate].
  destruct (chan_loop _ _ _ _ _ _) as [[[q3 s3] fed3]|] eqn:L; [|discriminate].
  injection H as <- <- <-.
  apply fetch_start_gate in F.
  apply chan_loop_frame in L. destruct L as [L _].
  apply frame_start_gate in L.
  change (start_gate (set_cur_t (u32 (m_cur_t s3 + 1)) s3)) with (start_gate s3).
  rewrite L, end_trigger_step_start_gate. exact F.
Qed.

Lemma check_start_by_gate t id s s' :
  start_gate s' = start_gate s ->
  fst (check_start t id s') = fst (check_start t id s).
Proof.
  unfold start_gate. intros [= C F O T TT].
  unfold check_start, projected_time, time_offset.
  cbn [m_start_trigger m_start_trigger_time m_time_offset m_step_t
       m_output_cnt set_cur_t].
  rewrite C, F, O, T, TT.
  destruct (m_start_trigger s <? id); [reflexivity|].
  destruct (_ <? _); reflexivity.
Qed.

(** X23.  No step changes what the start check reads: the output count,
    the projected time and the published start trigger are the same after
    any number of steps, so a start check that fails keeps failing until
    the trigger or the time offset is set from outside. *)
Theorem X23_steps_keep_start_condition n out : forall q s q' s' feds,
  steps n out q s = Ok (q', s', feds) ->
  m_output_cnt s' = m_output_cnt s /\
  projected_time s' = projected_time s /\
  m_start_trigger s' = m_start_trigger s /\
  m_start_trigger_time s' = m_start_trigger_time s /\
  forall t id, fst (check_start t id s') = fst (check_start t id s).
Proof.
  assert (G : forall n q s q' s' feds,
             steps n out q s = Ok (q', s', feds) ->
             start_gate s' = start_gate s).
  { clear n. induction n as [|n IH]; intros q s q' s' feds H; simpl in H.
    - injection H as <- <- <-. reflexivity.
    - unfold bind in H.
      destruct (step out q s) as [[[q1 s1] fed]|] eqn:St; [|discriminate].
      destruct (steps n out q1 s1) as [[[q2 s2] feds2]|] eqn:Ss; [|discriminate].
      injection H as <- <- <-.
      apply step_start_gate in St. apply IH in Ss. congruence. }
  intros q s q' s' feds H. apply G in H.
  pose proof H as H'. unfold start_gate in H'. injection H' as C F O T TT.
  split; [exact C|].
  split; [unfold projected_time, time_offset; rewrite C, F, O; reflexivity|].
  split; [exact T|]. split; [exact TT|].
  intros t id. apply check_start_by_gate. exact H.
Qed.

Lemma X23_steps_keep_start_condition_witness :
  exists s',
    steps 3 0 [ex_trigger_start 0 1] ex_one_chn
    = Ok ([ex_trigger_start 0 1], s',
          [live_feed ex_one_chn; live_feed ex_one_chn; live_feed ex_one_chn]) /\
    fst (check_start 0 1 s') = false.
Proof.
  assert (E : exists s',
             steps 3 0 [ex_trigger_start 0 1] ex_one_chn
             = Ok ([ex_trigger_start 0 1], s',
                   [live_feed ex_one_chn; live_feed ex_one_chn;
                    live_feed ex_one_chn]))
    by (eexists; vm_compute; reflexivity).
  destruct E as (s' & E).
  destruct (X23_steps_keep_start_condition _ _ _ _ _ _ _ E) as (_ & _ & _ & _ & K).
  exists s'. split; [exact E|]. rewrite K. reflexivity.
Defined.

(** ** Waiting for the start trigger *)

Lemma step_quiet out q s q1 s1 :
  fetch (S (length q)) q s = Ok (q1, s1, None) ->
  active_cmds s1 = [] ->
  0 <= m_chns s1 <= Z.of_nat (length (m_states s1)) ->
  exists s',
    step out q s = Ok (q1, s', live_feed s1) /\
    m_cur_t s' = u32 (m_cur_t s1 + 1) /\
    m_slow_mode s' = m_slow_mode s1 /\
    m_cmd_underflow s' = m_cmd_underflow s1 /\
    m_chns s' = m_chns s1 /\
    active_cmds s' = [] /\
    length (m_states s') = length (m_states s1) /\
    live_feed s' = live_feed s1.
Proof.
  intros F A C.
  destruct (step_after_fetch out q s q1 s1 F A C)
    as (s' & E & S & T & N & A' & L).
  exists s'. split; [exact E|]. split; [exact T|]. split; [exact S|].
  unfold step in E. rewrite F in E. cbn [bind] in E.
  destruct (chan_loop _ _ _ _ _ _) as [[[q3 s3] fed3]|] eqn:CL;
    [|discriminate].
  cbn [bind] in E. injection E as _ <- _.
  pose proof (chan_loop_frame _ _ _ _ _ _ _ _ _ CL) as [Fr _].
  apply frame_fields in Fr. destruct Fr as (_ & _ & _ & _ & _ & U & _).
  apply chan_loop_keeps_amp_freq in CL. destruct CL as [CA CF].
  destruct (end_trigger_step_keeps out s1) as (_ & _ & _ & K4 & _ & K6).
  rewrite K4 in CA, CF.
  split; [cbn [m_cmd_underflow set_cur_t]; congruence|].
  split; [exact N|]. split; [exact A'|]. split; [exact L|].
  unfold live_feed. cbn [m_chns m_states set_cur_t]. cbn [m_chns set_cur_t] in N.
  rewrite N. apply map_idle_feed_ext; rewrite <- !firstn_map; congruence.
Qed.

Lemma step_waiting out cmd q' s :
  is_op cmd Meta = true -> is_meta cmd TriggerStart = true ->
  0 < Cmd.t cmd < m_cur_t s -> Cmd.t cmd + 1 < 2 ^ 32 ->
  fst (check_start (Cmd.t cmd) (u32 (Cmd.final_val cmd)) s) = false ->
  active_cmds s = [] ->
  0 <= m_chns s <= Z.of_nat (length (m_states s)) ->
  exists s',
    step out (cmd :: q') s = Ok (cmd :: q', s', live_feed s) /\
    m_cur_t s' = Cmd.t cmd + 1 /\
    m_slow_mode s' = true /\
    m_cmd_underflow s' = u64 (m_cmd_underflow s + 1) /\
    m_chns s' = m_chns s /\
    active_cmds s' = [] /\
    length (m_states s') = length (m_states s) /\
    live_feed s' = live_feed s /\
    start_gate s' = start_gate s.
Proof.
  intros Hop Hm Ht Hlt Hf Ha Hc.
  destruct (is_meta_TriggerStart cmd Hm) as (M1 & M2 & M3).
  assert (Hop' : Cmd.op cmd = Some Meta) by (apply op_is_op; exact Hop).
  set (su := set_cmd_underflow (u64 (m_cmd_underflow s + 1)) s).
  set (id := u32 (Cmd.final_val cmd)) in *.
  assert (FS : fst (check_start (Cmd.t cmd) id su) = false).
  { unfold su. rewrite check_start_underflow. exact Hf. }
  assert (F : fetch (S (length (cmd :: q'))) (cmd :: q') s
              = Ok (cmd :: q', snd (check_start (Cmd.t cmd) id su), None)).
  { cbn [fetch]. unfold get_cmd_curt. cbn [get_cmd hd_error].
    assert (E0 : (Cmd.t cmd <=? m_cur_t s) = true) by (apply Z.leb_le; lia).
    assert (E1 : (Cmd.t cmd <? m_cur_t s) = true) by (apply Z.ltb_lt; lia).
    assert (E2 : (Cmd.t cmd =? 0) = false) by (apply Z.eqb_neq; lia).
    assert (E3 : (Cmd.t cmd =? m_cur_t su) = false) by (apply Z.eqb_neq; cbn; lia).
    assert (E4 : (Cmd.t cmd >? m_cur_t su) = false).
    { rewrite Z.gtb_ltb. apply Z.ltb_ge. cbn. lia. }
    rewrite E0, E1. unfold consume_old_cmds. cbn [get_cmd hd_error].
    rewrite E2. fold su. cbn [consume_loop]. rewrite E3, E4.
    unfold apply_old. rewrite Hop', M1, M2, M3, Hm. cbn [bind].
    fold id. rewrite FS. reflexivity. }
  pose proof (check_start_state (Cmd.t cmd) id su) as CS. rewrite FS in CS.
  cbn [negb] in CS.
  destruct (step_quiet out (cmd :: q') s _ _ F)
    as (s' & St & T & S & U & N & A & L & LF).
  { rewrite CS. exact Ha. }
  { rewrite CS. exact Hc. }
  rewrite CS in T, S, U, N, L, LF.
  exists s'. split; [rewrite St, CS; reflexivity|].
  split; [rewrite T; apply u32_small; cbn; lia|].
  split; [exact S|]. split; [exact U|]. split; [exact N|].
  split; [exact A|]. split; [exact L|]. split; [exact LF|].
  eapply step_start_gate. exact St.
Qed.

(** X24.  While a stale [TriggerStart] command with a non-zero time waits
    at the head of the pipe, every step counts one command underflow: the
    command stays, the live channels are fed their stored values, the
    underflow counter has grown by the number of steps, and after each
    step the time is one past the command's time with the slow-mode flag
    set. *)
Theorem X24_waiting_counts_underflow n out cmd q' : forall s,
  is_op cmd Meta = true -> is_meta cmd TriggerStart = true ->
  0 < Cmd.t cmd < m_cur_t s -> Cmd.t cmd + 1 < 2 ^ 32 ->
  fst (check_start (Cmd.t cmd) (u32 (Cmd.final_val cmd)) s) = false ->
  active_cmds s = [] ->
  0 <= m_chns s <= Z.of_nat (length (m_states s)) ->
  0 <= m_cmd_underflow s < 2 ^ 64 ->
  exists s',
    steps n out (cmd :: q') s = Ok (cmd :: q', s', repeat (live_feed s) n) /\
    m_cmd_underflow s' = u64 (m_cmd_underflow s + Z.of_nat n) /\
    (n <> O -> m_cur_t s' = Cmd.t cmd + 1 /\ m_slow_mode s' = true).
Proof.
  induction n as [|n IH]; intros s Hop Hm Ht Hlt Hf Ha Hc Hu.
  - exists s. cbn [steps repeat]. split; [reflexivity|].
    split; [|intros H; contradiction].
    rewrite Z.add_0_r. unfold u64. rewrite Z.mod_small; [reflexivity | exact Hu].
  - destruct (step_waiting out cmd q' s Hop Hm Ht Hlt Hf Ha Hc)
      as (s1 & St & T1 & S1 & U1 & N1 & A1 & L1 & LF1 & G1).
    destruct (IH s1 Hop Hm) as (s2 & Ss & U2 & R2).
    + lia.
    + exact Hlt.
    + rewrite (check_start_by_gate _ _ _ _ G1). exact Hf.
    + exact A1.
    + rewrite N1, L1. exact Hc.
    + rewrite U1. unfold u64. apply Z.mod_pos_bound. lia.
    + exists s2. cbn [steps]. rewrite St. cbn [bind]. rewrite Ss. cbn [bind].
      rewrite LF1. split; [reflexivity|]. split.
      * rewrite U2, U1. unfold u64. rewrite Zplus_mod_idemp_l. f_equal. lia.
      * intros _. destruct n as [|n'].
        -- cbn [steps] in Ss. injection Ss as <-. split; assumption.
        -- apply R2. discriminate.
Qed.

Lemma X24_waiting_counts_underflow_witness :
  exists s',
    steps 3 0 [ex_trigger_start 2 1] (set_cur_t 5 ex_one_chn)
    = Ok ([ex_trigger_start 2 1], s',
          [live_feed ex_one_chn; live_feed ex_one_chn; live_feed ex_one_chn]) /\
    m_cmd_underflow s' = 3 /\ m_cur_t s' = 3.
Proof.
  destruct (X24_waiting_counts_underflow 3 0 (ex_trigger_start 2 1) []
              (set_cur_t 5 ex_one_chn))
    as (s' & E & U & R);
    [ reflexivity | reflexivity | vm_compute; split; reflexivity
    | vm_compute; reflexivity | reflexivity | reflexivity
    | vm_compute; split; discriminate
    | vm_compute; split; [discriminate | reflexivity] | ].
  exists s'. split; [exact E|]. split; [exact U|].
  apply R. discriminate.
Defined.
